(** * Request-queuing share and DAM chunked uploader: a shallow embedding

    The development follows the JavaScript sources of the RQ backend
    ([RQShare]: download coordinator and list cache) and of the DAM backend
    ([DAMShare]: chunked asset upload, dot-file guard, delete), and states
    the properties of the specification over them. The RQ tree and its
    request queue are not among the sources; [queueData] and [exists] are
    written from the specification and say so.

    Conventions of the embedding.
    - JavaScript objects used as dictionaries ([waits], [downloadingFiles],
      [listCache]) are finite maps keyed by the path string; reading an absent
      key gives [None], which is the falsy [undefined] of the source.
    - JavaScript numbers that hold byte counts, delays and timestamps are
      integers ([Z]); fractional values and NaN are outside the model.
    - Continuation-passing code is written in direct style: an operation
      returns the list of observable actions it performs, in order. The
      invocation of a callback is one such action. What the world answers
      (the remote, the file system, the transfer monitor, [tree.open]) is an
      argument of the operation.
    - Callbacks handed to the share are opaque identifiers: invoking one is
      recorded in the trace, and a callback is assumed not to call back into
      the share while the share is still running the operation that invoked
      it.
    - Logging and the bookkeeping of the requests in flight
      ([registerUploadRequest], [unregisterUploadRequest]) are left out. *)

From Stdlib Require Import ZArith String Ascii List Bool Lia.
From stdpp Require Import gmap strings list pretty.
Import ListNotations.

Local Open Scope string_scope.
Local Open Scope Z_scope.

(* ===================================================================== *)
(** * Part I. Definitions *)
(* ===================================================================== *)

(** ** Path classifier *)

Module PathClassifier.

(** [segments p] is [p.split('/')]: the empty string has one (empty)
    segment and every slash starts a new one. *)
Fixpoint segments (p : string) : list string :=
  match p with
  | EmptyString => [EmptyString]
  | String c rest =>
      if Ascii.eqb c "/"%char then EmptyString :: segments rest
      else match segments rest with
           | seg :: segs => String c seg :: segs
           | [] => [String c EmptyString]
           end
  end.

Definition beginsWithDot (name : string) : bool :=
  match name with
  | String c _ => Ascii.eqb c "."%char
  | EmptyString => false
  end.

(** Paths handed to the trees and shares are rooted: they begin with a
    slash. *)
Definition isAbsolute (p : string) : bool :=
  match p with
  | String c _ => Ascii.eqb c "/"%char
  | EmptyString => false
  end.

Fixpoint joinSlash (segs : list string) : string :=
  match segs with
  | [] => EmptyString
  | [s] => s
  | s :: rest => s ++ "/" ++ joinSlash rest
  end.

(** Modelled from the spec: [utils.getPathName] is not part of the
    sources at hand; section 4.1 has [nameOf(p)] as the standard split,
    the last slash-delimited segment. *)
Definition nameOf (p : string) : string := List.last (segments p) EmptyString.

(** Modelled from the spec: [utils.getParentPath] is not part of the
    sources at hand; section 4.1 has [parentOf(p)] as the standard split:
    everything before the last segment, the root being its own parent. *)
Definition parentOf (p : string) : string :=
  match joinSlash (List.removelast (segments p)) with
  | EmptyString => "/"
  | parent => parent
  end.

(** Modelled from the spec: the tree's [isTempFileName] is not part of
    the sources at hand; section 4.1 has [isTempName(p)]: the last path
    segment begins with a period. *)
Definition isTempName (p : string) : bool := beginsWithDot (nameOf p).

(** Some segment of the path begins with a period. *)
Definition hasDotSegment (p : string) : bool := existsb beginsWithDot (segments p).

End PathClassifier.

(** ** Errors *)

Inductive NtStatus :=
| STATUS_ACCESS_DENIED
| STATUS_UNSUCCESSFUL
| STATUS_NOT_SUPPORTED.

(** Error values that travel through the callbacks: a raw value (a string
    or an error of a library), [new SMBError(status, message)], and
    [SMBError.fromSystemError(cause, message)]. *)
Inductive Error :=
| RawError (cause : string)
| SMBError (status : NtStatus) (message : string)
| FromSystemError (cause : string) (message : string).

(** ** RQShare: download coordinator and list cache *)

Module RQ.

(** A tree handle, as far as the share looks at it. *)
Record Tree := mkTree { requestId : nat }.

(** Identifier of a callback passed in by a caller. *)
Definition Callback := nat.

(** One element of [waits[path]]: [{ tree: tree, callback: cb }]. *)
Record Waiter := mkWaiter { w_tree : Tree; w_callback : Callback }.

(** [{timestamp: ..., files: names}] as stored by [cacheList]. *)
Record ListCacheEntry := mkListCacheEntry { timestamp : Z; files : list string }.

Record Share := mkShare {
  waits : gmap string (list Waiter);
  downloadingFiles : gmap string bool;
  listCache : gmap string ListCacheEntry;
  contentCacheTTL : Z
}.

(** Values a configuration entry can hold, as far as [typeof] tells them
    apart. *)
Inductive JSValue :=
| JSUndefined
| JSNull
| JSBoolean (b : bool)
| JSNumber (n : Z)
| JSString (s : string).

(** [typeof config.contentCacheTTL === 'number' ? config.contentCacheTTL : 30000]
    of the constructor. *)
Definition configuredTTL (v : JSValue) : Z :=
  match v with
  | JSNumber n => n
  | _ => 30000
  end.

(** The share as the constructor leaves it. *)
Definition newShare (configTTL : JSValue) : Share :=
  {| waits := ∅; downloadingFiles := ∅; listCache := ∅;
     contentCacheTTL := configuredTTL configTTL |}.

Definition setWaits (s : Share) (w : gmap string (list Waiter)) : Share :=
  {| waits := w; downloadingFiles := downloadingFiles s;
     listCache := listCache s; contentCacheTTL := contentCacheTTL s |}.

Definition setDownloadingFiles (s : Share) (d : gmap string bool) : Share :=
  {| waits := waits s; downloadingFiles := d;
     listCache := listCache s; contentCacheTTL := contentCacheTTL s |}.

Definition setListCache (s : Share) (c : gmap string ListCacheEntry) : Share :=
  {| waits := waits s; downloadingFiles := downloadingFiles s;
     listCache := c; contentCacheTTL := contentCacheTTL s |}.

(** An observable action of the coordinator: a callback was invoked. *)
Inductive Action := Invoked (cb : Callback).

(** Modelled from the spec: [tree.isTempFileName] belongs to the RQ tree,
    which is not part of the sources at hand; section 4.1 and the glossary
    define a temp path as one whose last segment begins with a period. *)
Definition isTempFileName (tree : Tree) (path : string) : bool :=
  PathClassifier.isTempName path.

(** [RQShare.prototype.isDownloading] *)
Definition isDownloading (s : Share) (tree : Tree) (path : string) : bool :=
  if negb (isTempFileName tree path) then
    match downloadingFiles s !! path with
    | Some true => true
    | _ => false
    end
  else false.

(** The [for] loop of [notifyDownloadComplete]: the callbacks of the
    waiters are invoked by increasing index. *)
Fixpoint invokeWaiters (ws : list Waiter) : list Action :=
  match ws with
  | [] => []
  | w :: rest => Invoked (w_callback w) :: invokeWaiters rest
  end.

(** [RQShare.prototype.notifyDownloadComplete] *)
Definition notifyDownloadComplete (s : Share) (tree : Tree) (path : string)
  : Share * list Action :=
  match waits s !! path with
  | Some ws => (setWaits s (<[path := []]> (waits s)), invokeWaiters ws)
  | None => (s, [])
  end.

(** [RQShare.prototype.waitOnDownload] *)
Definition waitOnDownload (s : Share) (tree : Tree) (path : string) (cb : Callback)
  : Share * list Action :=
  if isDownloading s tree path then
    let ws := match waits s !! path with
              | Some ws => ws
              | None => []
              end in
    (setWaits s (<[path := (ws ++ [mkWaiter tree cb])%list]> (waits s)), [])
  else (s, [Invoked cb]).

(** [RQShare.prototype.setDownloading] *)
Definition setDownloading (s : Share) (tree : Tree) (path : string) (downloading : bool)
  : Share * list Action :=
  let wasDownloading := isDownloading s tree path in
  let s' := setDownloadingFiles s (<[path := downloading]> (downloadingFiles s)) in
  if wasDownloading && negb downloading then notifyDownloadComplete s' tree path
  else (s', []).

(** The waiter list of a path; an absent entry has no waiter. *)
Definition waiters (s : Share) (path : string) : list Waiter :=
  match waits s !! path with
  | Some ws => ws
  | None => []
  end.

(** Several callers waiting in turn, each through [waitOnDownload]; the
    result keeps the share and the actions of all the calls. *)
Fixpoint waitAll (s : Share) (path : string) (regs : list (Tree * Callback))
  : Share * list Action :=
  match regs with
  | [] => (s, [])
  | (tree, cb) :: rest =>
      let '(s1, acts1) := waitOnDownload s tree path cb in
      let '(s2, acts2) := waitAll s1 path rest in
      (s2, (acts1 ++ acts2)%list)
  end.

(** *** List cache *)

(** A file handle as [tree.open] hands it out. *)
Record File := mkFile { filePath : string; handle : nat }.

(** What [getListCache] passes to its callback: [cb()], [cb(err)] or
    [cb(null, files)]. *)
Inductive ListResult :=
| ListMiss
| ListError (err : Error)
| ListFiles (fs : list File).

(** [addFile(index, files)] of [getListCache], on the names from [index]
    on: the names are opened one after the other, the first error ends the
    walk. The first component lists the names [tree.open] was called on. *)
Fixpoint addFile (open : string -> Error + File) (cache : list string) (acc : list File)
  : list string * ListResult :=
  match cache with
  | [] => ([], ListFiles acc)
  | name :: rest =>
      match open name with
      | inl err => ([name], ListError err)
      | inr rqFile =>
          let '(opened, r) := addFile open rest (acc ++ [rqFile])%list in
          (name :: opened, r)
      end
  end.

(** [RQShare.prototype.getListCache]; [now] is [new Date().getTime()] and
    [open] is [tree.open]. Setting [listCache[path] = undefined] is the
    removal of the key: both read back as falsy. *)
Definition getListCache (s : Share) (now : Z) (open : string -> Error + File) (path : string)
  : Share * list string * ListResult :=
  match listCache s !! path with
  | Some entry =>
      if now - timestamp entry >? contentCacheTTL s then
        (setListCache s (delete path (listCache s)), [], ListMiss)
      else
        let '(opened, r) := addFile open (files entry) [] in
        (s, opened, r)
  | None => (s, [], ListMiss)
  end.

(** [RQShare.prototype.cacheList], on the paths of the files. *)
Definition cacheList (s : Share) (now : Z) (path : string) (fs : list File) : Share :=
  setListCache s (<[path := mkListCacheEntry now (map filePath fs)]> (listCache s)).

End RQ.

(** ** Request queue *)

Module RequestQueue.

(** Modelled from the spec: the request queue is not part of the sources
    at hand. These are the methods an entry of the queue carries (section
    3); [MOVE] and [COPY] are requests only, reduced to the three below when
    they are queued (sections 4.3 and 4.7). *)
Inductive Method := PUT | POST | DELETE.

(** Modelled from the spec: what a caller of [queueData] asks for, one of
    the five methods of section 3. *)
Inductive Request :=
| Plain (m : Method)
| MOVE
| COPY.

(** Modelled from the spec: a queue entry of section 3, identified by its
    parent path and its name. The destination, the timestamp and the retry
    count of an entry play no part in the coalescing rules and are left
    out. *)
Record Entry := mkEntry { parent : string; name : string; method : Method }.

Definition Key : Type := string * string.

(** The identity of the entry of a path: its parent and its name. *)
Definition keyOf (path : string) : Key :=
  (PathClassifier.parentOf path, PathClassifier.nameOf path).

Definition entryKey (e : Entry) : Key := (parent e, name e).

Definition keyEqb (k1 k2 : Key) : bool :=
  String.eqb (fst k1) (fst k2) && String.eqb (snd k1) (snd k2).

(** Modelled from the spec: the queue is the list of its entries in
    insertion order (section 4.3, "durable ordered queue"). *)
Definition Queue := list Entry.

(** The method queued for a key, if any. *)
Definition queued (q : Queue) (k : Key) : option Method :=
  match List.find (fun e => keyEqb (entryKey e) k) q with
  | Some e => Some (method e)
  | None => None
  end.

(** The queue without the entry of a key. *)
Definition clearEntry (q : Queue) (k : Key) : Queue :=
  List.filter (fun e => negb (keyEqb (entryKey e) k)) q.

(** The queue with the method of the entry of a key replaced, in place. *)
Definition replaceMethod (q : Queue) (k : Key) (m : Method) : Queue :=
  List.map (fun e => if keyEqb (entryKey e) k then mkEntry (parent e) (name e) m else e) q.

(** Modelled from the spec: the request queue is not part of the sources
    at hand; this is the coalescing table of section 4.3, read by row (the
    new method) and column (the method already queued). [None] is the
    table's "remove entry". *)
Definition coalesce (existing : Method) (new : Method) : option Method :=
  match new, existing with
  | PUT, PUT => Some PUT
  | PUT, POST => Some POST
  | PUT, DELETE => Some POST
  | POST, PUT => Some PUT
  | POST, POST => Some POST
  | POST, DELETE => Some POST
  | DELETE, PUT => None
  | DELETE, POST => Some DELETE
  | DELETE, DELETE => Some DELETE
  end.

(** Modelled from the spec: [enqueue(path, method)] of section 4.3 (the
    request queue is not part of the sources at hand). A path with no entry
    gets one at the end of the queue (column "none" of the table); a path
    with an entry has it coalesced in place. *)
Definition enqueue (q : Queue) (path : string) (m : Method) : Queue :=
  let k := keyOf path in
  match queued q k with
  | None => (q ++ [mkEntry (fst k) (snd k) m])%list
  | Some existing =>
      match coalesce existing m with
      | Some m' => replaceMethod q k m'
      | None => clearEntry q k
      end
  end.

(** Modelled from the spec: the tree's [queueData(path, method, destPath)]
    is not part of the sources at hand. Temp paths are never queued
    (invariant 4 of section 8). [MOVE] and [COPY] follow section 4.3 and its
    table 2. A temp source has no effect on the queue of its own, and a
    normal destination gets a [PUT]. A move removes the source: a [DELETE]
    is queued for it through the coalescing table, which clears the entry
    of a source that was only queued for creation (the table's
    "normal-queued" row) and leaves a [DELETE] for a source that the remote
    has (the "normal-cached" row). Nothing is queued for a temp
    destination. A copy leaves the source as it is. *)
Definition queueData (q : Queue) (path : string) (req : Request) (destPath : option string)
  : Queue :=
  let srcTemp := PathClassifier.isTempName path in
  match req, destPath with
  | Plain m, _ => if srcTemp then q else enqueue q path m
  | MOVE, Some dest =>
      let destTemp := PathClassifier.isTempName dest in
      match srcTemp, destTemp with
      | true, true => q
      | true, false => enqueue q dest PUT
      | false, true => enqueue q path DELETE
      | false, false => enqueue (enqueue q path DELETE) dest PUT
      end
  | COPY, Some dest =>
      let destTemp := PathClassifier.isTempName dest in
      if destTemp then q else enqueue q dest PUT
  | _, None => q
  end.

End RequestQueue.

(** ** Overlay tree: visibility of a path *)

Module Overlay.

(** Modelled from the spec: what the remote backend answers when asked
    about a path (sections 6 and 7); the backends are not part of the
    sources at hand. *)
Inductive RemoteLookup :=
| RemoteFound
| RemoteMissing
| RemoteFailure (err : Error).

(** Modelled from the spec: the three sources the overlay of section 4.4
    merges: the local tree, the request queue and the remote. *)
Record Tree := mkTree {
  localHas : string -> bool;
  queue : RequestQueue.Queue;
  remote : string -> RemoteLookup
}.

(** Modelled from the spec: the RQ tree's [exists] is not part of the
    sources at hand. Section 4.4, visibility of a path: a temp path is
    looked up in the local tree only; a path the local tree has is visible;
    a path with a queued [DELETE] is not; otherwise the remote is asked, and
    by section 7 a failure of the remote makes [exists] answer [false], not
    an error. The result is the pair the callback receives. *)
Definition exists_ (t : Tree) (path : string) : option Error * bool :=
  if PathClassifier.isTempName path then (None, localHas t path)
  else if localHas t path then (None, true)
  else
    match RequestQueue.queued (queue t) (RequestQueue.keyOf path) with
    | Some RequestQueue.DELETE => (None, false)
    | _ =>
        match remote t path with
        | RemoteFound => (None, true)
        | RemoteMissing => (None, false)
        | RemoteFailure _ => (None, false)
        end
    end.

(** The remote is asked about the path: none of the rules about the local
    tree and the queue decides. *)
Definition consultsRemote (t : Tree) (path : string) : bool :=
  negb (PathClassifier.isTempName path)
  && negb (localHas t path)
  && match RequestQueue.queued (queue t) (RequestQueue.keyOf path) with
     | Some RequestQueue.DELETE => false
     | _ => true
     end.

End Overlay.

(** ** DAMShare: chunked upload, dot-file guard, delete *)

Module DAM.

(** The options of the configuration the uploader reads; [None] is an
    option that is not set. *)
Record Config := mkConfig {
  chunkUploadSize : option Z;
  maxRetries : option Z;
  retryDelay : option Z
}.

(** [v || d] on a number that may be undefined: [undefined] and [0] are
    falsy. *)
Definition orDefault (v : option Z) (d : Z) : Z :=
  match v with
  | Some x => if x =? 0 then d else x
  | None => d
  end.

(** [if (localPath)]: a path that is given and not the empty string. *)
Definition truthyPath (p : option string) : option string :=
  match p with
  | Some (String c rest) => Some (String c rest)
  | _ => None
  end.

(** The object the transfer monitor ([webutils.monitorTransferProgress],
    not among the sources) hands to the progress callback. The monitor
    watches the read stream it is given, which is the stream of the current
    chunk: [read] is its count of the bytes of that stream read so far. *)
Record Progress := mkProgress { read : Z; total : Z; rate : Z }.

(** The multipart request of one chunk: whether the headers of the first
    chunk are still on the request options, the fields of the form, and the
    byte range of the read stream. *)
Record ChunkRequest := mkChunkRequest {
  initialChunkHeaders : bool;
  replaceAsset : bool;
  fileOffset : option Z;
  chunkLength : Z;
  fileLength : Z;
  fileCompleted : bool;
  streamStart : Z;
  streamEnd : Z
}.

(** Observable actions of the share, in the order they happen. *)
Inductive Event :=
| SyncFileStart (path method : string) (localPath : option string)
| SyncFileEnd (path method : string) (localPath : option string)
| SyncFileErr (path method : string) (err : Error) (localPath : option string)
| SyncFileProgress (p : Progress)
| SetTimeout (delay : Z)
| ChunkRequested (r : ChunkRequest)
| DeleteRequested (damPath : string)
| OnChunk (nextOffset totalSize : Z) (cancel : bool)
| InvalidateContentCache (path : string) (deep : bool)
| CallerCallback (err : option Error).

(** What the loop of the upload receives as [err]: an error, or the
    object [{error: ..., ignoreEmit: ...}] of an aborted request. *)
Inductive ChunkError :=
| PlainError (e : Error)
| WrappedError (error : Error) (ignoreEmit : bool).

(** What becomes of one chunk request: the request fails, the server
    answers with a status code, the request is aborted, or the read stream
    of the local file fails. *)
Inductive ChunkOutcome :=
| RequestFailed (cause : string)
| Responded (statusCode : Z)
| RequestAborted
| ReadFailed (cause : string).

Inductive ReadOnlyResult :=
| ReadOnlyFailed (cause : string)
| ReadOnlyAnswer (checkedOut : bool).

Inductive StatResult :=
| StatFailed (cause : string)
| StatSize (size : Z).

Inductive DeleteOutcome :=
| DeleteFailed (cause : string)
| DeleteResponded (statusCode : Z).

(** The world around one operation: the answer of [isReadOnly], of
    [fs.stat], of the delete request, and for the n-th chunk request (from
    0) its outcome and the reports of the transfer monitor while it runs. *)
Record Env := mkEnv {
  env_isReadOnly : ReadOnlyResult;
  env_stat : StatResult;
  env_delete : DeleteOutcome;
  env_chunk : nat -> ChunkOutcome;
  env_progress : nat -> list Progress
}.

(** The share: its configuration and the methods it inherits from the JCR
    share, which are not part of the sources at hand and are taken as
    given. *)
Record Share := mkShare {
  config : Config;
  unicodeNormalize : string -> string;
  buildContentDamPath : string -> string;
  jcrUpdateResource : string -> list Event;
  jcrCreateFileResource : string -> list Event
}.

(** [options] of [_createFileResource]. [onChunk] receives the number of
    the request that just ended, the next offset and the total size, and
    answers whether to cancel. *)
Record ChunkOptions := mkChunkOptions {
  fromOffset : option Z;
  onChunk : option (nat -> Z -> Z -> bool);
  includeLocalPath : bool
}.

Definition noOptions : ChunkOptions :=
  {| fromOffset := None; onChunk := None; includeLocalPath := false |}.

(** *** [_uploadChunk] *)

(** [chunkOffset + chunkSizeFixed < totalSize ? chunkSizeFixed : totalSize - chunkOffset] *)
Definition chunkSizeAt (chunkOffset totalSize chunkSizeFixed : Z) : Z :=
  if chunkOffset + chunkSizeFixed <? totalSize then chunkSizeFixed
  else totalSize - chunkOffset.

Definition chunkRequest (headers replace : bool) (chunkOffset totalSize chunkSizeFixed : Z)
  : ChunkRequest :=
  let chunkSize := chunkSizeAt chunkOffset totalSize chunkSizeFixed in
  {| initialChunkHeaders := headers;
     replaceAsset := replace;
     fileOffset := if chunkSizeFixed <? totalSize then Some chunkOffset else None;
     chunkLength := chunkSize;
     fileLength := totalSize;
     fileCompleted := totalSize <=? chunkOffset;
     streamStart := chunkOffset;
     streamEnd := chunkSize + chunkOffset - 1 |}.

(** The callback given to [monitorTransferProgress]: it rewrites the
    [read] of the monitor's report and emits the report. *)
Definition progressCallback (chunkOffset chunkSize : Z) (p : Progress) : Progress :=
  {| read := read p + chunkOffset - chunkSize; total := total p; rate := rate p |}.

(** The [err] that [_uploadChunk] passes to its callback. *)
Definition chunkError (outcome : ChunkOutcome) : option ChunkError :=
  match outcome with
  | RequestFailed cause =>
      Some (PlainError (FromSystemError cause "unexpected error in request while uploading"))
  | Responded statusCode =>
      if statusCode =? 423 then
        Some (PlainError (SMBError STATUS_ACCESS_DENIED "Asset is checked out by another user"))
      else if negb (statusCode =? 200) && negb (statusCode =? 201) then
        Some (PlainError (SMBError STATUS_UNSUCCESSFUL
                            ("unexpected status code: " ++ pretty statusCode)))
      else None
  | RequestAborted =>
      Some (WrappedError (SMBError STATUS_UNSUCCESSFUL "upload was aborted") true)
  | ReadFailed cause =>
      Some (PlainError (FromSystemError cause ""))
  end.

(** [_uploadChunk] for request number [n]: the request it submits and the
    reports of progress it emits while the request runs, then what it passes
    to its callback: [err] and the size of the chunk. *)
Definition uploadChunk (env : Env) (n : nat) (hdrs replace : bool)
  (chunkOffset totalSize chunkSizeFixed : Z) : list Event * option ChunkError * Z :=
  let chunkSize := chunkSizeAt chunkOffset totalSize chunkSizeFixed in
  (ChunkRequested (chunkRequest hdrs replace chunkOffset totalSize chunkSizeFixed)
     :: map (fun p => SyncFileProgress (progressCallback chunkOffset chunkSize p))
          (env_progress env n),
   chunkError (env_chunk env n),
   chunkSize).

(** A chunk request that ends well: status 200 or 201. *)
Definition chunkSucceeds (outcome : ChunkOutcome) : bool :=
  match chunkError outcome with
  | None => true
  | Some _ => false
  end.

(** *** The loop of [_doChunkUpload] *)

(** The variables of the closure that the loop changes, the state of the
    first-chunk headers on the shared request options, and the number of
    chunk requests issued so far. *)
Record LoopState := mkLoopState {
  chunkOffset : Z;
  continueUpload : bool;
  retries : Z;
  currDelay : Z;
  headers : bool;
  issued : nat
}.

Section ChunkLoop.

Variable env : Env.
Variable onChunkOption : option (nat -> Z -> Z -> bool).
Variable replace : bool.
Variables totalSize chunkSizeFixed maxRetriesValue retryDelayValue : Z.

(** The variables after the callback of [_uploadChunk] has looked at
    [err]: offset, retry count and delay. *)
Definition afterChunk (st : LoopState) (err : option ChunkError) (chunkSize : Z) : Z * Z * Z :=
  match err with
  | None => (chunkOffset st + chunkSize, 0, 0)
  | Some (WrappedError _ _) => (chunkOffset st, maxRetriesValue, currDelay st)
  | Some (PlainError _) => (chunkOffset st, retries st + 1, retryDelayValue)
  end.

(** The call of [_uploadChunk] of a turn: the headers of the first chunk
    are deleted from the shared request options once the offset is past
    zero. *)
Definition turnUpload (st : LoopState) : list Event * option ChunkError * Z :=
  uploadChunk env (issued st) (headers st && negb (0 <? chunkOffset st)) replace
    (chunkOffset st) totalSize chunkSizeFixed.

(** The actions of one turn of the loop up to the callback of
    [_uploadChunk]: the timer, the request, the progress reports. *)
Definition chunkTurn (st : LoopState) : list Event :=
  SetTimeout (currDelay st) :: fst (fst (turnUpload st)).

(** The test of [async.whilst]. *)
Definition loopTest (st : LoopState) : bool :=
  (chunkOffset st <? totalSize) && continueUpload st.

(** How a turn of the loop ends: [whileCb(err)] with an error, which ends
    the loop, or a call of [whileCb] that lets it go on, with the variables
    of the closure and the actions since the callback of [_uploadChunk]. *)
Inductive Turn :=
| EndWith (err : ChunkError)
| NextTurn (st : LoopState) (evs : list Event).

(** The callback that [_doChunkUpload] gives to [_uploadChunk]. *)
Definition turn (st : LoopState) : Turn :=
  let hdrs := headers st && negb (0 <? chunkOffset st) in
  let '(_, err, chunkSize) := turnUpload st in
  let '(offset', retries', delay') := afterChunk st err chunkSize in
  let next (continue : bool) :=
    mkLoopState offset' continue retries' delay' hdrs (S (issued st)) in
  if retries' >=? maxRetriesValue then
    match err with
    | Some e => EndWith e
    | None => NextTurn (next (continueUpload st)) []
    end
  else
    match onChunkOption with
    | Some f =>
        let cancel := f (issued st) offset' totalSize in
        NextTurn (next (negb cancel)) [OnChunk offset' totalSize cancel]
    | None => NextTurn (next (continueUpload st)) []
    end.

(** [async.whilst(test, iteratee, _completeUpload)]: the result is the
    actions of the loop and the [err] handed to [_completeUpload]. Each turn
    uses one unit of fuel; [None] is a loop that needs more. *)
Fixpoint chunkLoop (fuel : nat) (st : LoopState) : option (list Event * option ChunkError) :=
  if loopTest st then
    match fuel with
    | O => None
    | S fuel' =>
        match turn st with
        | EndWith e => Some (chunkTurn st, Some e)
        | NextTurn st' evs =>
            match chunkLoop fuel' st' with
            | Some (rest, r) => Some ((chunkTurn st ++ evs ++ rest)%list, r)
            | None => None
            end
        end
    end
  else Some ([], None).

End ChunkLoop.

(** *** [_doChunkUpload] *)

(** [_completeUpload(err)] *)
Definition completeUpload (remotePath method : string) (localEventPath : option string)
  (err : option ChunkError) : list Event :=
  match err with
  | Some e =>
      let '(doEmit, e') :=
        match e with
        | WrappedError inner ignoreEmit => (negb ignoreEmit, inner)
        | PlainError e0 => (true, e0)
        end in
      ((if doEmit then [SyncFileErr remotePath method e' localEventPath] else [])
         ++ [CallerCallback (Some e')])%list
  | None =>
      [InvalidateContentCache (PathClassifier.parentOf remotePath) true;
       SyncFileEnd remotePath method localEventPath;
       CallerCallback None]
  end.

Definition chunkSizeFixedOf (c : Config) : Z := orDefault (chunkUploadSize c) 10 * (1024 * 1024).

Definition maxRetriesOf (c : Config) : Z := orDefault (maxRetries c) 3.

Definition retryDelayOf (c : Config) : Z := orDefault (retryDelay c) 3000.

(** The variables of the closure when the loop starts. *)
Definition initialState (opts : ChunkOptions) : LoopState :=
  {| chunkOffset := orDefault (fromOffset opts) 0;
     continueUpload := true;
     retries := 0;
     currDelay := 0;
     headers := true;
     issued := 0 |}.

(** The loop of an upload of [size] bytes, with the values the share's
    configuration and the options give. *)
Definition uploadLoop (share : Share) (replace : bool) (opts : ChunkOptions) (env : Env)
  (size : Z) (fuel : nat) : option (list Event * option ChunkError) :=
  chunkLoop env (onChunk opts) replace size
    (chunkSizeFixedOf (config share)) (maxRetriesOf (config share)) (retryDelayOf (config share))
    fuel (initialState opts).

(** [_doChunkUpload]; the tree is used for logging only and is left out. *)
Definition doChunkUpload (share : Share) (remotePath localPath : string) (replace : bool)
  (opts : ChunkOptions) (env : Env) (fuel : nat) : option (list Event) :=
  let method := if replace then "PUT" else "POST" in
  let remotePath := unicodeNormalize share remotePath in
  let localEventPath := if includeLocalPath opts then Some localPath else None in
  let upload :=
    match env_stat env with
    | StatFailed cause =>
        Some [CallerCallback (Some (FromSystemError cause ("unable to stat file " ++ localPath)))]
    | StatSize size =>
        match uploadLoop share replace opts env size fuel with
        | Some (evs, err) =>
            Some (SyncFileStart remotePath method localEventPath
                    :: evs ++ completeUpload remotePath method localEventPath err)%list
        | None => None
        end
    end in
  if replace then
    match env_isReadOnly env with
    | ReadOnlyFailed cause =>
        Some (completeUpload remotePath method localEventPath (Some (PlainError (RawError cause))))
    | ReadOnlyAnswer true =>
        Some (completeUpload remotePath method localEventPath
                (Some (PlainError (SMBError STATUS_ACCESS_DENIED "Asset is checked out by another user"))))
    | ReadOnlyAnswer false => upload
    end
  else upload.

(** *** [checkDotFile] and the operations it guards *)

(** [path.match(/\/\./g)] finds a match: a slash followed by a period
    occurs in the path. *)
Fixpoint matchesSlashDot (path : string) : bool :=
  match path with
  | EmptyString => false
  | String c rest =>
      (Ascii.eqb c "/"%char && PathClassifier.beginsWithDot rest) || matchesSlashDot rest
  end.

(** [checkDotFile]: the answer and the actions that come with it. *)
Definition checkDotFile (path method : string) (localPath : option string) (opts : ChunkOptions)
  : bool * list Event :=
  if matchesSlashDot path then
    (true,
     [SyncFileErr path method
        (RawError ("files containing names beginning with a period are forbidden: " ++ path))
        (if includeLocalPath opts then localPath else None);
      CallerCallback
        (Some (SMBError STATUS_NOT_SUPPORTED
                 "files containing names beginning with a period are forbidden"))])
  else (false, []).

(** [DAMShare.prototype._updateResource] *)
Definition updateResource (share : Share) (remotePath : string) (localPath : option string)
  (env : Env) (fuel : nat) : option (list Event) :=
  let '(dot, evs) := checkDotFile remotePath "PUT" localPath noOptions in
  if dot then Some evs
  else
    match truthyPath localPath with
    | Some lp => doChunkUpload share remotePath lp true noOptions env fuel
    | None => Some (jcrUpdateResource share remotePath)
    end.

(** [DAMShare.prototype._createFileResource]; [options] is [None] when the
    caller leaves it out and passes the callback in its place. *)
Definition createFileResource (share : Share) (remotePath : string) (localPath : option string)
  (options : option ChunkOptions) (env : Env) (fuel : nat) : option (list Event) :=
  let opts := match options with
              | Some o => o
              | None => noOptions
              end in
  let '(dot, evs) := checkDotFile remotePath "POST" localPath opts in
  if dot then Some evs
  else
    match truthyPath localPath with
    | Some lp => doChunkUpload share remotePath lp false opts env fuel
    | None => Some (jcrCreateFileResource share remotePath)
    end.

(** [sendCallback(err)] of [_deleteResource] *)
Definition sendCallback (path : string) (isFile : bool) (err : option Error) : list Event :=
  match err with
  | Some e =>
      ((if isFile then [SyncFileErr path "DELETE" e None] else [])
         ++ [CallerCallback (Some e)])%list
  | None =>
      ((if isFile then [SyncFileEnd path "DELETE" None] else [])
         ++ [CallerCallback None])%list
  end.

(** [DAMShare.prototype._deleteResource] *)
Definition deleteResource (share : Share) (path : string) (isFile : bool) (env : Env)
  : list Event :=
  let '(dot, evs) := checkDotFile path "DELETE" None noOptions in
  if dot then evs
  else
    match (if isFile then env_isReadOnly env else ReadOnlyAnswer false) with
    | ReadOnlyFailed cause =>
        sendCallback path isFile
          (Some (FromSystemError cause "unable to determine checked out status of path"))
    | ReadOnlyAnswer true =>
        sendCallback path isFile
          (Some (SMBError STATUS_ACCESS_DENIED "cannot delete file because it is checked out"))
    | ReadOnlyAnswer false =>
        ((if isFile then [SyncFileStart path "DELETE" None] else [])
           ++ DeleteRequested (buildContentDamPath share path)
           :: match env_delete env with
              | DeleteFailed cause =>
                  sendCallback path isFile
                    (Some (FromSystemError cause "unable to delete file due to unexpected error"))
              | DeleteResponded statusCode =>
                  if statusCode =? 200 then
                    InvalidateContentCache path false :: sendCallback path isFile None
                  else
                    sendCallback path isFile
                      (Some (SMBError STATUS_UNSUCCESSFUL
                               ("cannot delete file due to " ++ pretty statusCode
                                  ++ " response code")))
              end)%list
    end.

(** *** Reading a trace *)

Definition isStart (e : Event) : bool :=
  match e with SyncFileStart _ _ _ => true | _ => false end.

Definition isEnd (e : Event) : bool :=
  match e with SyncFileEnd _ _ _ => true | _ => false end.

Definition isErr (e : Event) : bool :=
  match e with SyncFileErr _ _ _ _ => true | _ => false end.

Definition isHttpRequest (e : Event) : bool :=
  match e with ChunkRequested _ | DeleteRequested _ => true | _ => false end.

Definition count (f : Event -> bool) (evs : list Event) : nat := length (List.filter f evs).

(** The chunk requests of a trace, in order. *)
Fixpoint chunkRequests (evs : list Event) : list ChunkRequest :=
  match evs with
  | [] => []
  | ChunkRequested r :: rest => r :: chunkRequests rest
  | _ :: rest => chunkRequests rest
  end.

(** The delays of the timers of a trace, in order. *)
Fixpoint timeouts (evs : list Event) : list Z :=
  match evs with
  | [] => []
  | SetTimeout d :: rest => d :: timeouts rest
  | _ :: rest => timeouts rest
  end.

(** What the caller's callback received, once per call. *)
Fixpoint callbackResults (evs : list Event) : list (option Error) :=
  match evs with
  | [] => []
  | CallerCallback r :: rest => r :: callbackResults rest
  | _ :: rest => callbackResults rest
  end.

(** The reports of progress of a trace, in order. *)
Fixpoint progressReports (evs : list Event) : list Progress :=
  match evs with
  | [] => []
  | SyncFileProgress p :: rest => p :: progressReports rest
  | _ :: rest => progressReports rest
  end.

(** The number of chunk requests among the first [n] that ended well. *)
Fixpoint succeededBefore (env : Env) (n : nat) : Z :=
  match n with
  | O => 0
  | S m => succeededBefore env m + (if chunkSucceeds (env_chunk env m) then 1 else 0)
  end.

(** The number of chunk requests in a row that failed just before request
    [n]: it starts again from zero after a request that ended well. *)
Fixpoint failedInARow (env : Env) (n : nat) : Z :=
  match n with
  | O => 0
  | S m => if chunkSucceeds (env_chunk env m) then 0 else failedInARow env m + 1
  end.

(** The delay of the timer before request [n]: none before the first
    request and after a request that ended well, [retryDelay] after one that
    failed. *)
Definition delayBefore (env : Env) (retryDelayValue : Z) (n : nat) : Z :=
  match n with
  | O => 0
  | S m => if chunkSucceeds (env_chunk env m) then 0 else retryDelayValue
  end.

(** The actions that the loop of the upload itself performs. *)
Definition isLoopEvent (e : Event) : bool :=
  match e with
  | SetTimeout _ | ChunkRequested _ | SyncFileProgress _ | OnChunk _ _ _ => true
  | _ => false
  end.

End DAM.


(** ** RQShare: sequences of calls, cache invalidation *)

Module RQRun.

Import RQ.

(** A call of one of the two methods of the download coordinator that
    change the share. *)
Inductive Call :=
| WaitOnDownload (tree : Tree) (path : string) (cb : Callback)
| SetDownloading (tree : Tree) (path : string) (downloading : bool).

Definition callPath (c : Call) : string :=
  match c with
  | WaitOnDownload _ path _ => path
  | SetDownloading _ path _ => path
  end.

Definition call (s : Share) (c : Call) : Share * list Action :=
  match c with
  | WaitOnDownload tree path cb => waitOnDownload s tree path cb
  | SetDownloading tree path downloading => setDownloading s tree path downloading
  end.

(** The calls made one after the other; every action is kept with the path
    of the call that performed it. *)
Fixpoint run (s : Share) (cs : list Call) : Share * list (string * Action) :=
  match cs with
  | [] => (s, [])
  | c :: rest =>
      let '(s1, acts1) := call s c in
      let '(s2, acts2) := run s1 rest in
      (s2, (map (fun a => (callPath c, a)) acts1 ++ acts2)%list)
  end.

(** The callbacks that the calls of a sequence hand to [waitOnDownload]
    for a path, in the order of the calls. *)
Fixpoint registeredOn (path : string) (cs : list Call) : list Callback :=
  match cs with
  | [] => []
  | WaitOnDownload _ p cb :: rest =>
      if String.eqb p path then cb :: registeredOn path rest else registeredOn path rest
  | SetDownloading _ _ _ :: rest => registeredOn path rest
  end.

(** The callbacks invoked by the calls on a path, in the order of the
    trace. *)
Fixpoint invokedOn (path : string) (acts : list (string * Action)) : list Callback :=
  match acts with
  | [] => []
  | (p, Invoked cb) :: rest =>
      if String.eqb p path then cb :: invokedOn path rest else invokedOn path rest
  end.

(** What the share asks of the remote share. *)
Inductive RemoteCall := RemoteInvalidateContentCache (path : string) (deep : bool).

(** [RQShare.prototype.invalidateContentCache]; [remoteInvalidates] tells
    whether the remote share has an [invalidateContentCache] of its own. *)
Definition invalidateContentCache (s : Share) (remoteInvalidates : bool) (path : string)
  (deep : bool) : Share * list RemoteCall :=
  (setListCache s (delete path (listCache s)),
   if remoteInvalidates then [RemoteInvalidateContentCache path deep] else []).

End RQRun.

(** ** DAMShare: content of a path, checked-out status, rename *)

Module DAMContent.

(** The properties of an entity that the share reads: its name and
    whether [asset:readonly] is truthy. *)
Record Properties := mkProperties { propName : option string; propReadOnly : bool }.

(** An entity of the assets API: its classes, its properties and its
    child entities, each of which may be missing. *)
#[warnings="-register-all"]
Inductive Content :=
| mkContent (cls : option (list string)) (props : option Properties)
    (entities : option (list Content)).

Definition classOf (c : Content) : option (list string) :=
  match c with mkContent cls _ _ => cls end.

Definition propertiesOf (c : Content) : option Properties :=
  match c with mkContent _ props _ => props end.

Definition entitiesOf (c : Content) : option (list Content) :=
  match c with mkContent _ _ entities => entities end.

(** What the share needs from outside: the two class names of the DAM
    constants, [utils.getParentPath] and [utils.getPathName],
    [unicodeEquals] (whose first argument is the name of an entity, which
    may be missing), and the folder listing of the JCR share
    ([JCRShare.prototype.getContent], called with [deep] set and with the
    [forceCacheRefresh] of the caller), which gives an error, [null] or the
    content of the folder. None of them is part of the sources at hand. *)
Record World := mkWorld {
  CLASS_ASSET : string;
  CLASS_FOLDER : string;
  getParentPath : string -> string;
  getPathName : string -> string;
  unicodeEquals : option string -> string -> bool;
  folderList : string -> bool -> string + option Content
}.

(** [(entity && entity[DAM.CLASS]) || []], then [indexOf(...) > -1] *)
Definition hasClass (cls : string) (entity : option Content) : bool :=
  match entity with
  | Some e =>
      match classOf e with
      | Some l => existsb (String.eqb cls) l
      | None => false
      end
  | None => false
  end.

(** [DAMShare.prototype.isAssetClass] and [isFolderClass] *)
Definition isAssetClass (w : World) (entity : option Content) : bool :=
  hasClass (CLASS_ASSET w) entity.

Definition isFolderClass (w : World) (entity : option Content) : bool :=
  hasClass (CLASS_FOLDER w) entity.

(** The name of an entity as [parseContentChildEntries] reads it:
    [entity[DAM.PROPERTIES] && entity[DAM.PROPERTIES][DAM.NAME]], kept when
    truthy. *)
Definition truthyName (e : Content) : option string :=
  match propertiesOf e with
  | Some p =>
      match propName p with
      | Some (String c rest) => Some (String c rest)
      | _ => None
      end
  | None => None
  end.

(** [DAMShare.prototype.parseContentChildEntries]: the calls of the
    iterator, in order. *)
Fixpoint childEntries (w : World) (entities : list Content) : list (string * Content) :=
  match entities with
  | [] => []
  | entity :: rest =>
      match truthyName entity with
      | Some nm =>
          if isAssetClass w (Some entity) || isFolderClass w (Some entity)
          then (nm, entity) :: childEntries w rest
          else childEntries w rest
      | None => childEntries w rest
      end
  end.

Definition parseContentChildEntries (w : World) (content : Content) : list (string * Content) :=
  childEntries w match entitiesOf content with
                 | Some l => l
                 | None => []
                 end.

(** The test of the loop of [getContent]: the entity has properties and
    [unicodeEquals] finds its name equal to the name looked for. *)
Definition entityNamed (w : World) (name : string) (e : Content) : bool :=
  match propertiesOf e with
  | Some p => unicodeEquals w (propName p) name
  | None => false
  end.

(** The loop of [getContent]: the first entity that passes the test. *)
Fixpoint findEntity (w : World) (name : string) (entities : list Content) : option Content :=
  match entities with
  | [] => None
  | e :: rest => if entityNamed w name e then Some e else findEntity w name rest
  end.

(** [DAMShare.prototype.getContent]: what the callback receives. *)
Definition getContent (w : World) (path : string) (deep forceCacheRefresh : bool)
  : string + option Content :=
  if deep then folderList w path forceCacheRefresh
  else
    let parent := getParentPath w path in
    let name := getPathName w path in
    match folderList w parent forceCacheRefresh with
    | inl err => inl err
    | inr parentContent =>
        if String.eqb parent path then inr parentContent
        else
          match parentContent with
          | Some pc =>
              match entitiesOf pc with
              | None => inr None
              | Some entities => inr (findEntity w name entities)
              end
          | None => inr None
          end
    end.

(** [content[DAM.PROPERTIES]] has a truthy [asset:readonly]. *)
Definition readOnlyProperty (content : Content) : bool :=
  match propertiesOf content with
  | Some p => propReadOnly p
  | None => false
  end.

(** [DAMShare.prototype.isReadOnly]: what the callback receives. *)
Definition isReadOnly (w : World) (path : string) : string + bool :=
  match getContent w path false true with
  | inl err => inl err
  | inr None => inr false
  | inr (Some content) => inr (readOnlyProperty content)
  end.

(** The answer of [isReadOnly] as the operations of the share see it. *)
Definition readOnlyResult (w : World) (path : string) : DAM.ReadOnlyResult :=
  match isReadOnly w path with
  | inl cause => DAM.ReadOnlyFailed cause
  | inr checkedOut => DAM.ReadOnlyAnswer checkedOut
  end.

(** [assetPath.charAt(assetPath.length - 1) == '/'] *)
Fixpoint endsWithSlash (s : string) : bool :=
  match s with
  | EmptyString => false
  | String c EmptyString => Ascii.eqb c "/"%char
  | String _ rest => endsWithSlash rest
  end.

(** [assetPath.substr(0, assetPath.length - 1)] *)
Fixpoint dropLast (s : string) : string :=
  match s with
  | EmptyString => EmptyString
  | String c EmptyString => EmptyString
  | String c rest => String c (dropLast rest)
  end.

(** [DAMShare.prototype.buildCreateAssetPath]; [buildContentDamUrl] is
    the method of the share that gives the URL of a path. *)
Definition buildCreateAssetPath (buildContentDamUrl : string -> string) (path : string)
  : string :=
  let assetPath := buildContentDamUrl path in
  let assetPath := if endsWithSlash assetPath then dropLast assetPath else assetPath in
  assetPath ++ ".createasset.html".

(** The constructor of [DAMShare], as far as [config.path] and
    [contextPath] go: the path of the configuration after the constructor,
    and the context path. [DAM_ROOT_PATH] is a constant of the DAM, not part
    of the sources at hand; a path that is [None] is not set (or there is no
    configuration), and the empty path is falsy like it. *)
Definition constructDAMShare (DAM_ROOT_PATH : string) (configPath : option string)
  : string * string :=
  match configPath with
  | Some (String c rest) =>
      let path := String c rest in
      match String.index 0 DAM_ROOT_PATH path with
      | Some (S n) => (path, String.substring 0 (S n) path)
      | _ => (path, EmptyString)
      end
  | _ => (DAM_ROOT_PATH, EmptyString)
  end.

End DAMContent.

(** ** The chunked upload: reading more of a trace *)

Module DAMTrace.

Import DAM.

(** The bytes of the chunk requests that ended well, the requests being
    numbered from [n]. *)
Fixpoint bytesSent (env : Env) (n : nat) (reqs : list ChunkRequest) : Z :=
  match reqs with
  | [] => 0
  | q :: rest =>
      (if chunkSucceeds (env_chunk env n) then chunkLength q else 0)
      + bytesSent env (S n) rest
  end.

(** Some call of [onChunk] asked to cancel. *)
Definition cancelled (evs : list Event) : bool :=
  existsb (fun e => match e with OnChunk _ _ true => true | _ => false end) evs.

(** The calls of [onChunk] of a trace, in order: the next offset, the
    total size, the answer. *)
Fixpoint onChunkCalls (evs : list Event) : list (Z * Z * bool) :=
  match evs with
  | [] => []
  | OnChunk next size cancel :: rest => (next, size, cancel) :: onChunkCalls rest
  | _ :: rest => onChunkCalls rest
  end.

End DAMTrace.

(** ** The tree of the SPI: default implementations *)

Module SPITree.

(** A context, as far as the tree looks at it: its label. *)
Record Context := mkContext { label : string; isRequestless : bool }.

(** [new SMBContext().withLabel(l).requestless()] *)
Definition labelled (l : string) : Context := {| label := l; isRequestless := true |}.

(** The operations that come in two versions, the plain one and the
    extended one that takes a context. *)
Inductive Operation :=
| Exists | Open | List | CreateFile | CreateDirectory | Delete | DeleteDirectory
| Rename | Refresh.

(** The label that the plain version of an operation puts on the context
    it creates. *)
Definition labelOf (op : Operation) : string :=
  match op with
  | Exists => "SPITree.Exists"
  | Open => "SPITree.Open"
  | List => "SPITree.List"
  | CreateFile => "SPITree.CreateFile"
  | CreateDirectory => "SPITree.CreateDirectory"
  | Delete => "SPITree.Delete"
  | DeleteDirectory => "SPITree.DeleteDirectory"
  | Rename => "SPITree.Rename"
  | Refresh => "SPITree.Refresh"
  end.

(** What the callback of an operation receives: the error of the default
    implementation, or whatever an implementation of a subclass answers. *)
Inductive Answer (R : Type) :=
| NotImplemented
| Answered (r : R).

Arguments NotImplemented {R}.
Arguments Answered {R} r.

(** A tree: for each operation, the plain and the extended version that
    a subclass defines, if it does. The arguments of the operation other
    than the context are of type [A]. An implementation of a subclass is
    taken not to call the other version of its own operation. *)
Record Tree (A R : Type) := mkTree {
  plainImpl : Operation -> option (A -> R);
  extImpl : Operation -> option (Context -> A -> R)
}.

Arguments plainImpl {A R} t op.
Arguments extImpl {A R} t op.

(** A method call on the tree. *)
Inductive Invocation (A : Type) :=
| Plain (op : Operation) (args : A)
| Ext (op : Operation) (context : Context) (args : A).

Arguments Plain {A} op args.
Arguments Ext {A} op context args.

(** The call of a method, with dynamic dispatch: the version of the
    subclass if there is one, else the one of [Tree.prototype]. The plain
    default calls the extended version with a context that carries the label
    of the operation; the extended default answers with
    [STATUS_NOT_IMPLEMENTED] when the context carries that label
    ([_sendNotImplemented]) and calls the plain version otherwise. Each call
    from one method to the other uses one unit of fuel. *)
Fixpoint invoke {A R : Type} (fuel : nat) (t : Tree A R) (i : Invocation A)
  : option (Answer R) :=
  match i with
  | Plain op args =>
      match plainImpl t op with
      | Some f => Some (Answered (f args))
      | None =>
          match fuel with
          | O => None
          | S fuel' => invoke fuel' t (Ext op (labelled (labelOf op)) args)
          end
      end
  | Ext op context args =>
      match extImpl t op with
      | Some g => Some (Answered (g context args))
      | None =>
          if String.eqb (label context) (labelOf op) then Some NotImplemented
          else
            match fuel with
            | O => None
            | S fuel' => invoke fuel' t (Plain op args)
            end
      end
  end.

End SPITree.
(** ** Concrete inputs

    The states and environments at which the properties below are
    evaluated. *)

Module Examples.

(** A share on which [/somefile] is being downloaded. *)
Definition c1_share : RQ.Share :=
  {| RQ.waits := ∅; RQ.downloadingFiles := {[ "/somefile" := true ]};
     RQ.listCache := ∅; RQ.contentCacheTTL := 30000 |}.

(** A share whose list cache knows the folder [/] with two names, stored
    at time 1000. *)
Definition c6_share : RQ.Share :=
  {| RQ.waits := ∅; RQ.downloadingFiles := ∅;
     RQ.listCache := {[ "/" := RQ.mkListCacheEntry 1000 ["/a.jpg"; "/gone.jpg"] ]};
     RQ.contentCacheTTL := 30000 |}.

(** A tree on which [/gone.jpg] can no longer be opened. *)
Definition c6_open_fails (name : string) : Error + RQ.File :=
  if String.eqb name "/gone.jpg" then inl (RawError "forced unit test error")
  else inr (RQ.mkFile name 0).

(** A tree on which every name opens. *)
Definition c6_open (name : string) : Error + RQ.File := inr (RQ.mkFile name 0).

(** An overlay with nothing local, nothing queued, and a remote that
    fails. *)
Definition c7_tree : Overlay.Tree :=
  {| Overlay.localHas := fun _ => false;
     Overlay.queue := [];
     Overlay.remote := fun _ => Overlay.RemoteFailure (RawError "forced unit test error") |}.

(** A DAM share with nothing configured, so that the defaults apply. *)
Definition dam_share : DAM.Share :=
  {| DAM.config := DAM.mkConfig None None None;
     DAM.unicodeNormalize := fun s => s;
     DAM.buildContentDamPath := fun s => ("/content/dam" ++ s)%string;
     DAM.jcrUpdateResource := fun _ => [];
     DAM.jcrCreateFileResource := fun _ => [] |}.

(** A file of 5 bytes; every request fails in the transport. *)
Definition env_all_fail : DAM.Env :=
  {| DAM.env_isReadOnly := DAM.ReadOnlyAnswer false;
     DAM.env_stat := DAM.StatSize 5;
     DAM.env_delete := DAM.DeleteFailed "there was an error!";
     DAM.env_chunk := fun _ => DAM.RequestFailed "there was an error!";
     DAM.env_progress := fun _ => [] |}.

(** A file of 5 bytes that uploads at the first request; the monitor
    reports 2 bytes read, then all 5. *)
Definition env_progress_5 : DAM.Env :=
  {| DAM.env_isReadOnly := DAM.ReadOnlyAnswer false;
     DAM.env_stat := DAM.StatSize 5;
     DAM.env_delete := DAM.DeleteResponded 200;
     DAM.env_chunk := fun _ => DAM.Responded 200;
     DAM.env_progress := fun _ => [DAM.mkProgress 2 5 1; DAM.mkProgress 5 5 1] |}.

(** A file of 5 bytes whose first chunk request is aborted. *)
Definition env_abort : DAM.Env :=
  {| DAM.env_isReadOnly := DAM.ReadOnlyAnswer false;
     DAM.env_stat := DAM.StatSize 5;
     DAM.env_delete := DAM.DeleteResponded 200;
     DAM.env_chunk := fun _ => DAM.RequestAborted;
     DAM.env_progress := fun _ => [] |}.

(** An asset that another user has checked out. *)
Definition env_checked_out : DAM.Env :=
  {| DAM.env_isReadOnly := DAM.ReadOnlyAnswer true;
     DAM.env_stat := DAM.StatSize 5;
     DAM.env_delete := DAM.DeleteResponded 200;
     DAM.env_chunk := fun _ => DAM.Responded 200;
     DAM.env_progress := fun _ => [] |}.

(** A file of 5 bytes; the first chunk request is answered with 423, the
    later ones with 200. *)
Definition env_locked_once : DAM.Env :=
  {| DAM.env_isReadOnly := DAM.ReadOnlyAnswer false;
     DAM.env_stat := DAM.StatSize 5;
     DAM.env_delete := DAM.DeleteResponded 200;
     DAM.env_chunk := fun n => match n with
                               | O => DAM.Responded 423
                               | _ => DAM.Responded 200
                               end;
     DAM.env_progress := fun _ => [] |}.

(** A file of 5 bytes; every chunk request is answered with 423. *)
Definition env_locked : DAM.Env :=
  {| DAM.env_isReadOnly := DAM.ReadOnlyAnswer false;
     DAM.env_stat := DAM.StatSize 5;
     DAM.env_delete := DAM.DeleteResponded 200;
     DAM.env_chunk := fun _ => DAM.Responded 423;
     DAM.env_progress := fun _ => [] |}.

(** A share with chunks of 1 MB. *)
Definition dam_share_1mb : DAM.Share :=
  {| DAM.config := DAM.mkConfig (Some 1) None None;
     DAM.unicodeNormalize := fun s => s;
     DAM.buildContentDamPath := fun s => ("/content/dam" ++ s)%string;
     DAM.jcrUpdateResource := fun _ => [];
     DAM.jcrCreateFileResource := fun _ => [] |}.

(** A file of 2.5 MB; the second chunk request fails once in the
    transport, every other request is answered with 200. *)
Definition env_retry_once : DAM.Env :=
  {| DAM.env_isReadOnly := DAM.ReadOnlyAnswer false;
     DAM.env_stat := DAM.StatSize 2621440;
     DAM.env_delete := DAM.DeleteResponded 200;
     DAM.env_chunk := fun n => match n with
                               | 1%nat => DAM.RequestFailed "there was an error!"
                               | _ => DAM.Responded 200
                               end;
     DAM.env_progress := fun _ => [] |}.

(** Options whose [onChunk] cancels at the first call. *)
Definition cancel_at_once : DAM.ChunkOptions :=
  {| DAM.fromOffset := None;
     DAM.onChunk := Some (fun _ _ _ => true);
     DAM.includeLocalPath := false |}.

(** A file of 5 bytes; the first chunk request fails in the transport,
    the later ones are answered with 200. *)
Definition env_fail_once : DAM.Env :=
  {| DAM.env_isReadOnly := DAM.ReadOnlyAnswer false;
     DAM.env_stat := DAM.StatSize 5;
     DAM.env_delete := DAM.DeleteResponded 200;
     DAM.env_chunk := fun n => match n with
                               | O => DAM.RequestFailed "there was an error!"
                               | _ => DAM.Responded 200
                               end;
     DAM.env_progress := fun _ => [] |}.

(** A file of 10 MB; every chunk request is answered with 200. *)
Definition env_10mb : DAM.Env :=
  {| DAM.env_isReadOnly := DAM.ReadOnlyAnswer false;
     DAM.env_stat := DAM.StatSize (10 * 1024 * 1024);
     DAM.env_delete := DAM.DeleteResponded 200;
     DAM.env_chunk := fun _ => DAM.Responded 200;
     DAM.env_progress := fun _ => [] |}.

(** Options that start at 1 MB and whose [onChunk] cancels at the first
    call. *)
Definition cancel_from_1mb : DAM.ChunkOptions :=
  {| DAM.fromOffset := Some (1024 * 1024);
     DAM.onChunk := Some (fun _ _ _ => true);
     DAM.includeLocalPath := false |}.

End Examples.


(** Further concrete inputs: a folder listing of the assets API and trees
    of the SPI. *)

Module MoreExamples.

Import DAMContent.

(** An asset that another user has checked out. *)
Definition locked_asset : Content :=
  mkContent (Some ["assets/asset"]) (Some (mkProperties (Some "locked.jpg") true)) None.

(** An asset that is not checked out. *)
Definition free_asset : Content :=
  mkContent (Some ["assets/asset"]) (Some (mkProperties (Some "free.jpg") false)) None.

(** A second entity with the name of [locked_asset], not checked out. *)
Definition shadowed_asset : Content :=
  mkContent (Some ["assets/asset"]) (Some (mkProperties (Some "locked.jpg") false)) None.

(** An entity without properties, one without a name, and one that is
    neither an asset nor a folder. *)
Definition bare_entity : Content := mkContent (Some ["assets/asset"]) None None.

Definition unnamed_asset : Content :=
  mkContent (Some ["assets/asset"]) (Some (mkProperties None false)) None.

Definition other_entity : Content :=
  mkContent (Some ["other"]) (Some (mkProperties (Some "other.txt") false)) None.

Definition sub_folder : Content :=
  mkContent (Some ["assets/folder"]) (Some (mkProperties (Some "sub") false)) None.

(** The listing of [/folder]. *)
Definition folder_content : Content :=
  mkContent (Some ["assets/folder"]) (Some (mkProperties (Some "folder") false))
    (Some [bare_entity; locked_asset; unnamed_asset; free_asset; other_entity;
           shadowed_asset; sub_folder]).

(** A remote with the folder [/folder]; the listing of [/broken] fails and
    every other folder is not found. Names are compared as they are. *)
Definition dam_world : World :=
  {| CLASS_ASSET := "assets/asset";
     CLASS_FOLDER := "assets/folder";
     getParentPath := PathClassifier.parentOf;
     getPathName := PathClassifier.nameOf;
     unicodeEquals := fun a b => match a with
                                 | Some x => String.eqb x b
                                 | None => false
                                 end;
     folderList := fun p _ =>
                     if String.eqb p "/folder" then inr (Some folder_content)
                     else if String.eqb p "/broken" then inl "GET /broken [500]"
                     else inr None |}.

(** The world of an operation on [path]: [isReadOnly] answers from the
    listing of [dam_world], the delete request is answered with 200. *)
Definition env_of_world (path : string) : DAM.Env :=
  {| DAM.env_isReadOnly := readOnlyResult dam_world path;
     DAM.env_stat := DAM.StatSize 5;
     DAM.env_delete := DAM.DeleteResponded 200;
     DAM.env_chunk := fun _ => DAM.Responded 200;
     DAM.env_progress := fun _ => [] |}.

(** The URL of a path on a local server. *)
Definition local_dam_url (path : string) : string :=
  ("http://localhost:4502/content/dam" ++ path)%string.

(** A tree that defines none of the operations. *)
Definition default_tree : SPITree.Tree string bool :=
  {| SPITree.plainImpl := fun _ => None; SPITree.extImpl := fun _ => None |}.

(** A tree written before the extended operations: it defines the plain
    [exists] only, which finds [/a.txt]. *)
Definition plain_tree : SPITree.Tree string bool :=
  {| SPITree.plainImpl := fun op => match op with
                                    | SPITree.Exists => Some (String.eqb "/a.txt")
                                    | _ => None
                                    end;
     SPITree.extImpl := fun _ => None |}.

(** A tree that defines the extended [exists] only; it finds a name
    exactly in a context without request. *)
Definition ext_tree : SPITree.Tree string bool :=
  {| SPITree.plainImpl := fun _ => None;
     SPITree.extImpl := fun op => match op with
                                  | SPITree.Exists =>
                                      Some (fun c _ => SPITree.isRequestless c)
                                  | _ => None
                                  end |}.

End MoreExamples.
(* ===================================================================== *)
(** * Part II. Properties *)
(* ===================================================================== *)

Local Open Scope list_scope.

(** ** Download coordinator *)

Section DownloadCoordinator.

Import RQ.

Lemma invokeWaiters_map (ws : list Waiter) :
  invokeWaiters ws = map (fun w => Invoked (w_callback w)) ws.
Proof. induction ws as [|w ws IH]; simpl; [reflexivity | now rewrite IH]. Qed.

Lemma isDownloading_setWaits (s : Share) (w : gmap string (list Waiter)) tree path :
  isDownloading (setWaits s w) tree path = isDownloading s tree path.
Proof. reflexivity. Qed.

Lemma isDownloading_any_tree (s : Share) (t1 t2 : Tree) path :
  isDownloading s t1 path = isDownloading s t2 path.
Proof. reflexivity. Qed.

Lemma waiters_setWaits_insert (s : Share) path ws :
  waiters (setWaits s (<[path := ws]> (waits s))) path = ws.
Proof. unfold waiters; simpl. now rewrite lookup_insert_eq. Qed.

(** While a path is downloading, a call of [waitOnDownload] appends one
    waiter and invokes nothing. *)
Lemma waitOnDownload_downloading (s : Share) tree path cb :
  isDownloading s tree path = true ->
  snd (waitOnDownload s tree path cb) = []
  /\ waiters (fst (waitOnDownload s tree path cb)) path
     = (waiters s path ++ [mkWaiter tree cb])%list
  /\ (forall t, isDownloading (fst (waitOnDownload s tree path cb)) t path = true).
Proof.
  intros Hd. unfold waitOnDownload. rewrite Hd. simpl.
  split; [reflexivity|]. split.
  - now rewrite waiters_setWaits_insert.
  - intros t. rewrite isDownloading_setWaits. now rewrite (isDownloading_any_tree s t tree).
Qed.

Lemma waitAll_downloading (regs : list (Tree * Callback)) :
  forall (s : Share) tree path,
    isDownloading s tree path = true ->
    snd (waitAll s path regs) = []
    /\ waiters (fst (waitAll s path regs)) path
       = (waiters s path ++ map (fun r => mkWaiter (fst r) (snd r)) regs)%list
    /\ isDownloading (fst (waitAll s path regs)) tree path = true.
Proof.
  induction regs as [|[t cb] regs IH]; intros s tree path Hd; simpl.
  - rewrite app_nil_r. auto.
  - destruct (waitOnDownload_downloading s t path cb) as (Ha & Hw & Hd').
    { now rewrite (isDownloading_any_tree s t tree). }
    destruct (waitOnDownload s t path cb) as [s1 acts1] eqn:E1. simpl in *.
    destruct (IH s1 tree path (Hd' tree)) as (Ha2 & Hw2 & Hd2).
    destruct (waitAll s1 path regs) as [s2 acts2] eqn:E2. simpl in *.
    subst acts1 acts2. split; [reflexivity|]. split; [|assumption].
    rewrite Hw2, Hw. now rewrite <- app_assoc.
Qed.

(** The transition from downloading to not downloading invokes the
    callbacks of the waiters of the path in order, once each, and empties
    the list. *)
Lemma setDownloading_false_flushes (s : Share) tree path :
  isDownloading s tree path = true ->
  snd (setDownloading s tree path false) = invokeWaiters (waiters s path)
  /\ waiters (fst (setDownloading s tree path false)) path = []
  /\ isDownloading (fst (setDownloading s tree path false)) tree path = false.
Proof.
  intros Hd. unfold setDownloading. rewrite Hd. simpl.
  unfold notifyDownloadComplete, waiters. simpl.
  destruct (waits s !! path) as [ws|] eqn:Ew; simpl.
  - rewrite lookup_insert_eq. split; [reflexivity|]. split; [reflexivity|].
    unfold isDownloading. simpl. rewrite lookup_insert_eq. now destruct (negb _).
  - rewrite Ew. split; [reflexivity|]. split; [reflexivity|].
    unfold isDownloading. simpl. rewrite lookup_insert_eq. now destruct (negb _).
Qed.

(** C1. While a path is downloading, callers that wait on it through
    [waitOnDownload] are queued without being invoked; the call
    [setDownloading(tree, path, false)] that ends the download invokes the
    callback of every waiter of the path (those already waiting and those
    just registered) once each, in the order of registration, and leaves
    the waiter list of the path empty and the path not downloading. A
    [waitOnDownload] on a path that is not downloading invokes its callback
    at once and leaves the share, hence the waiter lists, as it was. *)
Theorem C1_waiters_notified_once :
  forall (s : Share) (tree : Tree) (path : string) (regs : list (Tree * Callback)),
    isDownloading s tree path = true ->
    let registered := waitAll s path regs in
    let finished := setDownloading (fst registered) tree path false in
    snd registered = []
    /\ snd finished
       = map Invoked (map w_callback (waiters s path) ++ map snd regs)%list
    /\ waiters (fst finished) path = []
    /\ isDownloading (fst finished) tree path = false
    /\ (forall (s' : Share) (tree' : Tree) (path' : string) (cb : Callback),
          isDownloading s' tree' path' = false ->
          waitOnDownload s' tree' path' cb = (s', [Invoked cb])).
Proof.
  intros s tree path regs Hd registered finished.
  destruct (waitAll_downloading regs s tree path Hd) as (Ha & Hw & Hd1).
  destruct (setDownloading_false_flushes (fst registered) tree path Hd1) as (Hf & He & Hn).
  split; [exact Ha|]. split; [|split; [exact He|split; [exact Hn|]]].
  - subst finished. rewrite Hf. subst registered. rewrite Hw.
    rewrite invokeWaiters_map, !map_app, !map_map. reflexivity.
  - intros s' tree' path' cb Hnd. unfold waitOnDownload. now rewrite Hnd.
Qed.

Lemma C1_waiters_notified_once_witness :
  isDownloading Examples.c1_share (mkTree 1) "/somefile" = true
  /\ snd (setDownloading
            (fst (waitAll Examples.c1_share "/somefile" [(mkTree 2, 7%nat); (mkTree 3, 8%nat)]))
            (mkTree 1) "/somefile" false)
     = [Invoked 7%nat; Invoked 8%nat].
Proof.
  split; [reflexivity|].
  exact (proj1 (proj2 (C1_waiters_notified_once Examples.c1_share (mkTree 1) "/somefile"
                         [(mkTree 2, 7%nat); (mkTree 3, 8%nat)] eq_refl))).
Defined.

(** C10. For a temp path (one whose last segment begins with a period),
    whatever the share's [downloadingFiles] holds, [isDownloading] answers
    [false]; so [waitOnDownload] invokes the callback at once and leaves the
    share, hence every waiter list, as it was; and marking the path as
    downloading does not make [isDownloading] answer otherwise. *)
Theorem C10_temp_path_never_downloading :
  forall (s : Share) (tree : Tree) (path : string),
    PathClassifier.beginsWithDot (PathClassifier.nameOf path) = true ->
    isDownloading s tree path = false
    /\ (forall cb, waitOnDownload s tree path cb = (s, [Invoked cb]))
    /\ (forall (t : Tree) (b : bool),
          isDownloading (fst (setDownloading s t path b)) tree path = false
          /\ snd (setDownloading s t path b) = []).
Proof.
  intros s tree path Htemp.
  assert (Hnd : forall s0 t0, isDownloading s0 t0 path = false).
  { intros s0 t0. unfold isDownloading, isTempFileName, PathClassifier.isTempName.
    now rewrite Htemp. }
  split; [apply Hnd|]. split.
  - intros cb. unfold waitOnDownload. now rewrite Hnd.
  - intros t b. split; [apply Hnd|].
    unfold setDownloading. now rewrite Hnd.
Qed.

Lemma C10_temp_path_never_downloading_witness :
  PathClassifier.beginsWithDot (PathClassifier.nameOf "/dir/.tmp") = true
  /\ isDownloading
       {| waits := ∅; downloadingFiles := {[ "/dir/.tmp" := true ]};
          listCache := ∅; contentCacheTTL := 30000 |}
       (mkTree 1) "/dir/.tmp" = false.
Proof.
  split; [reflexivity|].
  exact (proj1 (C10_temp_path_never_downloading _ (mkTree 1) "/dir/.tmp" eq_refl)).
Defined.

End DownloadCoordinator.

(** ** List cache *)

Section ListCache.

Import RQ.

Variable open : string -> Error + File.

(** Every name opens: the handles come back in the order of the names. *)
Lemma addFile_all_open (names : list string) :
  forall (acc fs : list File),
    Forall2 (fun n f => open n = inr f) names fs ->
    addFile open names acc = (names, ListFiles (acc ++ fs)%list).
Proof.
  induction names as [|n names IH]; intros acc fs H; inversion H; subst; simpl.
  - now rewrite app_nil_r.
  - match goal with Ho : open n = inr ?f |- _ => rewrite Ho end.
    erewrite IH by eassumption. now rewrite <- app_assoc.
Qed.

(** The first name that does not open ends the walk with its error. *)
Lemma addFile_first_error (pre : list string) :
  forall (acc fs : list File) (n : string) (post : list string) (err : Error),
    Forall2 (fun n f => open n = inr f) pre fs ->
    open n = inl err ->
    addFile open (pre ++ n :: post) acc = ((pre ++ [n])%list, ListError err).
Proof.
  induction pre as [|p pre IH]; intros acc fs n post err H Herr; inversion H; subst; simpl.
  - now rewrite Herr.
  - match goal with Ho : open p = inr ?f |- _ => rewrite Ho end.
    erewrite IH by eassumption. reflexivity.
Qed.

Lemma getListCache_fresh (s : Share) (now : Z) (path : string) (entry : ListCacheEntry) :
  listCache s !! path = Some entry ->
  now - timestamp entry <= contentCacheTTL s ->
  getListCache s now open path
  = (s, fst (addFile open (files entry) []), snd (addFile open (files entry) [])).
Proof.
  intros He Hfresh. unfold getListCache. rewrite He.
  destruct (Z.gtb_spec (now - timestamp entry) (contentCacheTTL s)) as [Hgt|_]; [lia|].
  now destruct (addFile open (files entry) []).
Qed.

Lemma getListCache_expired (s : Share) (now : Z) (path : string) (entry : ListCacheEntry) :
  listCache s !! path = Some entry ->
  contentCacheTTL s < now - timestamp entry ->
  getListCache s now open path = (setListCache s (delete path (listCache s)), [], ListMiss).
Proof.
  intros He Hold. unfold getListCache. rewrite He.
  destruct (Z.gtb_spec (now - timestamp entry) (contentCacheTTL s)) as [_|Hle]; [reflexivity|lia].
Qed.

(** C6, as amended. For a parent path with a cached listing: while
    [now - timestamp] is at most [contentCacheTTL], [getListCache] calls
    [tree.open] on the cached names in stored order and leaves the cache as
    it is; if every name opens it returns the handles in stored order, and
    if a name does not open it stops there and passes that error to the
    callback. When the entry is older than [contentCacheTTL] it is cleared,
    nothing is opened and the lookup is a miss. With every name opening,
    the names are returned exactly when [now - timestamp] is at most
    [contentCacheTTL]. [contentCacheTTL] is 30000 when the configured value
    is not a number, and the configured number otherwise. *)
Theorem C6_list_cache_lookup :
  forall (s : Share) (now : Z) (path : string) (entry : ListCacheEntry),
    listCache s !! path = Some entry ->
    (now - timestamp entry <= contentCacheTTL s ->
       (forall fs : list File,
           Forall2 (fun n f => open n = inr f) (files entry) fs ->
           getListCache s now open path = (s, files entry, ListFiles fs))
       /\ (forall pre n post fs err,
             files entry = (pre ++ n :: post)%list ->
             Forall2 (fun n f => open n = inr f) pre fs ->
             open n = inl err ->
             getListCache s now open path = (s, (pre ++ [n])%list, ListError err)))
    /\ (contentCacheTTL s < now - timestamp entry ->
          getListCache s now open path
          = (setListCache s (delete path (listCache s)), [], ListMiss)
          /\ listCache (fst (fst (getListCache s now open path))) !! path = None)
    /\ (forall fs : list File,
          Forall2 (fun n f => open n = inr f) (files entry) fs ->
          (snd (getListCache s now open path) = ListFiles fs
           <-> now - timestamp entry <= contentCacheTTL s))
    /\ (forall v : JSValue, (forall n, v <> JSNumber n) -> configuredTTL v = 30000)
    /\ (forall n : Z, configuredTTL (JSNumber n) = n).
Proof.
  intros s now path entry He. repeat split.
  - intros fs Hall. rewrite (getListCache_fresh s now path entry He H).
    now rewrite (addFile_all_open (files entry) [] fs Hall).
  - intros pre n post fs err Hfiles Hpre Herr.
    rewrite (getListCache_fresh s now path entry He H), Hfiles.
    now rewrite (addFile_first_error pre [] fs n post err Hpre Herr).
  - now apply getListCache_expired with entry.
  - rewrite (getListCache_expired s now path entry He H). simpl.
    apply lookup_delete_eq.
  - intros Hres.
    destruct (Z.le_gt_cases (now - timestamp entry) (contentCacheTTL s)) as [Hle|Hgt];
      [exact Hle|].
    rewrite (getListCache_expired s now path entry He Hgt) in Hres. discriminate.
  - intros Hle. rewrite (getListCache_fresh s now path entry He Hle).
    now rewrite (addFile_all_open (files entry) [] fs H).
  - intros v Hv. destruct v; try reflexivity. now destruct (Hv n).
Qed.

End ListCache.

(** C6 as stated does not hold: the entry is fresh, yet the lookup passes
    an error to the callback and not the cached names, because one of the
    names no longer opens. *)
Lemma C6_fresh_entry_open_error :
  RQ.listCache Examples.c6_share !! "/" = Some (RQ.mkListCacheEntry 1000 ["/a.jpg"; "/gone.jpg"])
  /\ 2000 - 1000 <= RQ.contentCacheTTL Examples.c6_share
  /\ RQ.getListCache Examples.c6_share 2000 Examples.c6_open_fails "/"
     = (Examples.c6_share, ["/a.jpg"; "/gone.jpg"],
        RQ.ListError (RawError "forced unit test error")).
Proof. split; [reflexivity|]. split; [vm_compute; discriminate|reflexivity]. Qed.

Lemma C6_list_cache_lookup_witness :
  RQ.listCache Examples.c6_share !! "/" = Some (RQ.mkListCacheEntry 1000 ["/a.jpg"; "/gone.jpg"])
  /\ 2000 - 1000 <= RQ.contentCacheTTL Examples.c6_share
  /\ RQ.getListCache Examples.c6_share 2000 Examples.c6_open "/"
     = (Examples.c6_share, ["/a.jpg"; "/gone.jpg"],
        RQ.ListFiles [RQ.mkFile "/a.jpg" 0; RQ.mkFile "/gone.jpg" 0])
  /\ RQ.getListCache Examples.c6_share 40000 Examples.c6_open "/"
     = (RQ.setListCache Examples.c6_share (delete "/" (RQ.listCache Examples.c6_share)),
        [], RQ.ListMiss).
Proof.
  assert (Hle : 2000 - 1000 <= RQ.contentCacheTTL Examples.c6_share)
    by (vm_compute; discriminate).
  assert (Hgt : RQ.contentCacheTTL Examples.c6_share < 40000 - 1000) by reflexivity.
  split; [reflexivity|]. split; [exact Hle|]. split.
  - apply (proj1 (proj1 (C6_list_cache_lookup Examples.c6_open Examples.c6_share 2000 "/"
                            _ eq_refl) Hle)).
    repeat constructor.
  - exact (proj1 (proj1 (proj2 (C6_list_cache_lookup Examples.c6_open Examples.c6_share
                                  40000 "/" _ eq_refl)) Hgt)).
Defined.

(** ** Request queue *)

Section RequestQueueFacts.

Import RequestQueue.












End RequestQueueFacts.

(** ** Overlay: [exists] when the remote fails *)

(** C7. When the lookup of the path on the remote fails, [exists] passes
    no error to its callback, whatever the path; and where the remote is
    what decides (the path is no temp path, the local tree does not have it
    and no [DELETE] is queued for it), the answer is [false]. *)
Theorem C7_exists_remote_failure :
  forall (t : Overlay.Tree) (path : string) (err : Error),
    Overlay.remote t path = Overlay.RemoteFailure err ->
    fst (Overlay.exists_ t path) = None
    /\ (Overlay.consultsRemote t path = true -> Overlay.exists_ t path = (None, false)).
Proof.
  intros t path err Hfail. unfold Overlay.exists_, Overlay.consultsRemote.
  rewrite Hfail.
  destruct (PathClassifier.isTempName path); simpl; [split; [reflexivity|discriminate]|].
  destruct (Overlay.localHas t path); simpl; [split; [reflexivity|discriminate]|].
  destruct (RequestQueue.queued (Overlay.queue t) (RequestQueue.keyOf path)) as [[| |]|];
    simpl; split; try reflexivity; try discriminate.
Qed.

Lemma C7_exists_remote_failure_witness :
  Overlay.remote Examples.c7_tree "/testfile"
  = Overlay.RemoteFailure (RawError "forced unit test error")
  /\ Overlay.consultsRemote Examples.c7_tree "/testfile" = true
  /\ Overlay.exists_ Examples.c7_tree "/testfile" = (None, false).
Proof.
  split; [reflexivity|]. split; [reflexivity|].
  exact (proj2 (C7_exists_remote_failure Examples.c7_tree "/testfile" _ eq_refl) eq_refl).
Defined.

(** ** The dot-file guard of the DAM share *)

Section DotFile.

Import PathClassifier DAM.

Lemma segments_head (p : string) :
  beginsWithDot (hd EmptyString (segments p)) = beginsWithDot p.
Proof.
  destruct p as [|c rest]; simpl; [reflexivity|].
  destruct (Ascii.eqb_spec c "/"%char) as [->|Hc]; simpl; [reflexivity|].
  now destruct (segments rest).
Qed.

Lemma segments_not_nil (p : string) : segments p <> [].
Proof.
  destruct p as [|c rest]; simpl; [discriminate|].
  destruct (Ascii.eqb c "/"%char); [discriminate|].
  now destruct (segments rest).
Qed.

(** The regular expression finds a slash followed by a period exactly when
    a segment after the first begins with a period. *)
Lemma matchesSlashDot_segments (p : string) :
  matchesSlashDot p = existsb beginsWithDot (tl (segments p)).
Proof.
  induction p as [|c rest IH]; simpl; [reflexivity|].
  destruct (Ascii.eqb_spec c "/"%char) as [->|Hc]; simpl.
  - rewrite IH, <- segments_head.
    pose proof (segments_not_nil rest) as Hne.
    now destruct (segments rest).
  - rewrite IH. now destruct (segments rest).
Qed.

(** On a rooted path the first segment is empty, so the regular expression
    sees every segment. *)
Lemma matchesSlashDot_absolute (p : string) :
  isAbsolute p = true -> matchesSlashDot p = hasDotSegment p.
Proof.
  intros Habs. rewrite matchesSlashDot_segments. unfold hasDotSegment.
  destruct p as [|c rest]; [discriminate|]. simpl in Habs.
  simpl. now rewrite Habs.
Qed.

(** C9. For a rooted remote path with a segment, at any depth, that begins
    with a period, [_updateResource], [_createFileResource] and
    [_deleteResource] do two things and nothing else: they emit a sync-file
    error for the path (with the method of the operation), then pass a
    [STATUS_NOT_SUPPORTED] error to the callback. No HTTP request is among
    these actions. *)
Theorem C9_dot_segment_not_supported :
  forall (share : Share) (path : string) (localPath : option string)
         (options : option ChunkOptions) (isFile : bool) (env : Env) (fuel : nat),
    isAbsolute path = true ->
    hasDotSegment path = true ->
    let refusal (method : string) (eventPath : option string) :=
      [SyncFileErr path method
         (RawError ("files containing names beginning with a period are forbidden: " ++ path)%string)
         eventPath;
       CallerCallback
         (Some (SMBError STATUS_NOT_SUPPORTED
                  "files containing names beginning with a period are forbidden"))] in
    updateResource share path localPath env fuel = Some (refusal "PUT" None)
    /\ createFileResource share path localPath options env fuel
       = Some (refusal "POST"
                 match options with
                 | Some o => if includeLocalPath o then localPath else None
                 | None => None
                 end)
    /\ deleteResource share path isFile env = refusal "DELETE" None
    /\ (forall method eventPath,
          count isHttpRequest (refusal method eventPath) = 0%nat
          /\ count isErr (refusal method eventPath) = 1%nat).
Proof.
  intros share path localPath options isFile env fuel Habs Hdot refusal.
  assert (Hm : matchesSlashDot path = true)
    by (now rewrite (matchesSlashDot_absolute path Habs)).
  unfold updateResource, createFileResource, deleteResource, checkDotFile.
  rewrite Hm. simpl. repeat split.
  destruct options as [o|]; reflexivity.
Qed.

Lemma C9_dot_segment_not_supported_witness :
  isAbsolute "/.hidden/asset.jpg" = true
  /\ hasDotSegment "/.hidden/asset.jpg" = true
  /\ deleteResource Examples.dam_share "/.hidden/asset.jpg" true Examples.env_all_fail
     = [SyncFileErr "/.hidden/asset.jpg" "DELETE"
          (RawError "files containing names beginning with a period are forbidden: /.hidden/asset.jpg")
          None;
        CallerCallback
          (Some (SMBError STATUS_NOT_SUPPORTED
                   "files containing names beginning with a period are forbidden"))].
Proof.
  split; [reflexivity|]. split; [reflexivity|].
  exact (proj1 (proj2 (proj2 (C9_dot_segment_not_supported Examples.dam_share
                                "/.hidden/asset.jpg" None None true Examples.env_all_fail 0
                                eq_refl eq_refl)))).
Defined.

End DotFile.

(** ** Progress reports of a chunk *)

(** The [read] that the progress callback of [_uploadChunk] emits is the
    monitor's count for the current chunk, plus the chunk's offset, minus
    the chunk's size. *)
Lemma progressCallback_read (chunkOffset chunkSize : Z) (p : DAM.Progress) :
  DAM.read (DAM.progressCallback chunkOffset chunkSize p)
  = DAM.read p + chunkOffset - chunkSize.
Proof. reflexivity. Qed.

(** C8, evaluated on the code. A file of 5 bytes is uploaded in one chunk
    at offset 0; the monitor reports 2 bytes read, then 5. The reports
    emitted carry [read = -3] and [read = 0], not the 2 and 5 bytes
    transferred so far in the chunk plus the offset 0 of the chunk. *)
Theorem C8_progress_read_first_chunk :
  (exists evs,
      DAM.doChunkUpload Examples.dam_share "/u.jpg" "/local/u.jpg" false DAM.noOptions
        Examples.env_progress_5 10 = Some evs
      /\ DAM.progressReports evs = [DAM.mkProgress (-3) 5 1; DAM.mkProgress 0 5 1])
  /\ DAM.read (DAM.progressCallback 0 (DAM.chunkSizeAt 0 5 (10 * 1024 * 1024))
                 (DAM.mkProgress 5 5 1)) <> 5 + 0.
Proof.
  split.
  - eexists. split; [vm_compute; reflexivity|reflexivity].
  - vm_compute. discriminate.
Qed.

(** ** The loop of the chunked upload *)

Section UploadLoop.

Import DAM.

Variable env : Env.
Variable onChunkOption : option (nat -> Z -> Z -> bool).
Variable replace : bool.
Variables totalSize C maxR retryD : Z.

Local Abbreviation loop := (chunkLoop env onChunkOption replace totalSize C maxR retryD).
Local Abbreviation turnOf := (turn env onChunkOption replace totalSize C maxR retryD).
Local Abbreviation turnEvents := (chunkTurn env replace totalSize C).
Local Abbreviation test := (loopTest totalSize).

(** Unfolding one turn of the loop. *)
Lemma loop_stop (fuel : nat) (st : LoopState) :
  test st = false -> loop fuel st = Some ([], None).
Proof. intros Ht. destruct fuel; simpl; now rewrite Ht. Qed.

Lemma loop_step (fuel : nat) (st : LoopState) :
  test st = true ->
  loop (S fuel) st
  = match turnOf st with
    | EndWith e => Some (turnEvents st, Some e)
    | NextTurn st' evs =>
        match loop fuel st' with
        | Some (rest, r) => Some (turnEvents st ++ evs ++ rest, r)
        | None => None
        end
    end.
Proof. intros Ht. simpl. now rewrite Ht. Qed.

(** Reasoning along a run of the loop. *)
Lemma loop_run_ind (P : LoopState -> list Event -> option ChunkError -> Prop) :
  (forall st, test st = false -> P st [] None) ->
  (forall st e, test st = true -> turnOf st = EndWith e -> P st (turnEvents st) (Some e)) ->
  (forall fuel st st' evs rest r,
      test st = true -> turnOf st = NextTurn st' evs ->
      loop fuel st' = Some (rest, r) -> P st' rest r ->
      P st (turnEvents st ++ evs ++ rest) r) ->
  forall fuel st evs r, loop fuel st = Some (evs, r) -> P st evs r.
Proof.
  intros Hstop Hend Hnext. induction fuel as [|fuel IH]; intros st evs r Hrun.
  - destruct (test st) eqn:Ht.
    + simpl in Hrun. rewrite Ht in Hrun. discriminate.
    + rewrite (loop_stop 0 st Ht) in Hrun. injection Hrun as <- <-. now apply Hstop.
  - destruct (test st) eqn:Ht.
    + rewrite (loop_step fuel st Ht) in Hrun.
      destruct (turnOf st) as [e|st' tevs] eqn:Hturn.
      * injection Hrun as <- <-. now apply Hend.
      * destruct (loop fuel st') as [[rest r']|] eqn:Hrest; [|discriminate].
        injection Hrun as <- <-. eapply Hnext; eauto.
    + rewrite (loop_stop (S fuel) st Ht) in Hrun. injection Hrun as <- <-. now apply Hstop.
Qed.

(** More fuel does not change the result of a run. *)
Lemma loop_more_fuel (fuel : nat) :
  forall st res k, loop fuel st = Some res -> loop (fuel + k) st = Some res.
Proof.
  induction fuel as [|fuel IH]; intros st res k Hrun.
  - destruct (test st) eqn:Ht.
    + simpl in Hrun. rewrite Ht in Hrun. discriminate.
    + rewrite (loop_stop 0 st Ht) in Hrun. rewrite loop_stop; assumption.
  - destruct (test st) eqn:Ht.
    + rewrite (loop_step fuel st Ht) in Hrun.
      change (S fuel + k)%nat with (S (fuel + k)). rewrite (loop_step _ st Ht).
      destruct (turnOf st) as [e|st' tevs]; [assumption|].
      destruct (loop fuel st') as [res'|] eqn:Hrest; [|discriminate].
      now rewrite (IH st' res' k Hrest).
    + rewrite (loop_stop (S fuel) st Ht) in Hrun. rewrite loop_stop; assumption.
Qed.

(** The three ways a turn can go, by the outcome of its request. *)
Lemma turn_success (st : LoopState) :
  chunkError (env_chunk env (issued st)) = None ->
  exists st' evs,
    turnOf st = NextTurn st' evs
    /\ chunkOffset st' = chunkOffset st + chunkSizeAt (chunkOffset st) totalSize C
    /\ retries st' = 0 /\ currDelay st' = 0 /\ issued st' = S (issued st)
    /\ (evs = [] \/ exists cancel, evs = [OnChunk (chunkOffset st') totalSize cancel]
                                   /\ continueUpload st' = negb cancel).
Proof.
  intros Herr. unfold turn, turnUpload, uploadChunk, afterChunk. cbn beta iota zeta. rewrite Herr.
  destruct (0 >=? maxR); [|destruct onChunkOption as [f|]];
    eexists; eexists; (split; [reflexivity|]); simpl; repeat split; eauto.
Qed.

Lemma turn_failure (st : LoopState) (e : Error) :
  chunkError (env_chunk env (issued st)) = Some (PlainError e) ->
  (maxR <= retries st + 1 /\ turnOf st = EndWith (PlainError e))
  \/ (retries st + 1 < maxR
      /\ exists st' evs,
           turnOf st = NextTurn st' evs
           /\ chunkOffset st' = chunkOffset st
           /\ retries st' = retries st + 1 /\ currDelay st' = retryD
           /\ issued st' = S (issued st)
           /\ (evs = [] \/ exists cancel, evs = [OnChunk (chunkOffset st') totalSize cancel]
                                          /\ continueUpload st' = negb cancel)).
Proof.
  intros Herr. unfold turn, turnUpload, uploadChunk, afterChunk. cbn beta iota zeta. rewrite Herr.
  destruct (Z.geb_spec (retries st + 1) maxR) as [Hge|Hlt].
  - left. split; [lia|reflexivity].
  - right. split; [lia|].
    destruct onChunkOption as [f|];
      eexists; eexists; (split; [reflexivity|]); simpl; repeat split; eauto.
Qed.

(** A failed request, seen from a turn whose test passed: the loop ends
    when the retry count reaches [maxRetries]; otherwise the next turn is at
    the same offset, one retry further, [retryDelay] later, and it takes
    place unless [onChunk] asks to cancel. *)
Lemma turn_failure_step (st : LoopState) (e : Error) :
  test st = true ->
  chunkError (env_chunk env (issued st)) = Some (PlainError e) ->
  (maxR <= retries st + 1 /\ turnOf st = EndWith (PlainError e))
  \/ (retries st + 1 < maxR
      /\ exists st' evs,
           turnOf st = NextTurn st' evs
           /\ chunkOffset st' = chunkOffset st
           /\ retries st' = retries st + 1 /\ currDelay st' = retryD
           /\ issued st' = S (issued st)
           /\ test st' = match onChunkOption with
                         | Some f => negb (f (issued st) (chunkOffset st) totalSize)
                         | None => true
                         end).
Proof.
  intros Ht Herr. unfold loopTest in Ht. apply andb_true_iff in Ht as [Hoff Hcont].
  unfold turn, turnUpload, uploadChunk, afterChunk. cbn beta iota zeta. rewrite Herr.
  destruct (Z.geb_spec (retries st + 1) maxR) as [Hge|Hlt].
  - left. split; [lia|reflexivity].
  - right. split; [lia|].
    destruct onChunkOption as [f|];
      eexists; eexists; (split; [reflexivity|]); unfold loopTest; simpl;
      rewrite Hoff; repeat split; auto.
Qed.

Lemma turn_abort (st : LoopState) (e : Error) (ignoreEmit : bool) :
  chunkError (env_chunk env (issued st)) = Some (WrappedError e ignoreEmit) ->
  turnOf st = EndWith (WrappedError e ignoreEmit).
Proof.
  intros Herr. unfold turn, turnUpload, uploadChunk, afterChunk. cbn beta iota zeta. rewrite Herr.
  destruct (Z.geb_spec maxR maxR) as [_|Hlt]; [reflexivity|lia].
Qed.

(** A turn that ends the loop does so with the error of its request. *)
Lemma turn_end_error (st : LoopState) (e : ChunkError) :
  turnOf st = EndWith e -> chunkError (env_chunk env (issued st)) = Some e.
Proof.
  unfold turn, turnUpload, uploadChunk, afterChunk. cbn beta iota zeta.
  destruct (chunkError (env_chunk env (issued st))) as [[e0|e0 ig]|];
    match goal with
    | |- context [?a >=? ?b] => destruct (a >=? b)
    end; try destruct onChunkOption; try discriminate; now intros [= <-].
Qed.

(** The actions a turn adds after the callback of [_uploadChunk]: nothing,
    or the call of [onChunk], whose answer decides whether the loop goes
    on. *)
Lemma turn_next_events (st st' : LoopState) (evs : list Event) :
  turnOf st = NextTurn st' evs ->
  issued st' = S (issued st)
  /\ (evs = []
      \/ exists cancel, evs = [OnChunk (chunkOffset st') totalSize cancel]
                        /\ continueUpload st' = negb cancel).
Proof.
  destruct (chunkError (env_chunk env (issued st))) as [[e|e ig]|] eqn:Herr.
  - destruct (turn_failure st e Herr) as [[_ Hend]|(_ & st1 & evs1 & Ht & _ & _ & _ & Hi & Hev)];
      intros H; rewrite H in *; [discriminate|].
    injection Ht as <- <-. auto.
  - rewrite (turn_abort st e ig Herr). discriminate.
  - destruct (turn_success st Herr) as (st1 & evs1 & Ht & _ & _ & _ & Hi & Hev).
    intros H; rewrite H in Ht. injection Ht as <- <-. auto.
Qed.

(** *** Reading the trace of the loop *)

Lemma chunkRequests_app (a b : list Event) :
  chunkRequests (a ++ b) = chunkRequests a ++ chunkRequests b.
Proof.
  induction a as [|e a IH]; simpl; [reflexivity|].
  destruct e; simpl; now rewrite IH.
Qed.

Lemma timeouts_app (a b : list Event) : timeouts (a ++ b) = timeouts a ++ timeouts b.
Proof.
  induction a as [|e a IH]; simpl; [reflexivity|].
  destruct e; simpl; now rewrite IH.
Qed.

Lemma callbackResults_app (a b : list Event) :
  callbackResults (a ++ b) = callbackResults a ++ callbackResults b.
Proof.
  induction a as [|e a IH]; simpl; [reflexivity|].
  destruct e; simpl; now rewrite IH.
Qed.

Lemma count_app (f : Event -> bool) (a b : list Event) :
  count f (a ++ b) = (count f a + count f b)%nat.
Proof. unfold count. now rewrite List.filter_app, length_app. Qed.

Lemma count_cons (f : Event -> bool) (e : Event) (l : list Event) :
  count f (e :: l) = ((if f e then 1 else 0) + count f l)%nat.
Proof. unfold count. simpl. now destruct (f e). Qed.

Lemma chunkRequests_progress (g : Progress -> Progress) (ps : list Progress) :
  chunkRequests (map (fun p => SyncFileProgress (g p)) ps) = [].
Proof. induction ps; simpl; auto. Qed.

Lemma timeouts_progress (g : Progress -> Progress) (ps : list Progress) :
  timeouts (map (fun p => SyncFileProgress (g p)) ps) = [].
Proof. induction ps; simpl; auto. Qed.

Lemma chunkRequests_turnEvents (st : LoopState) :
  chunkRequests (turnEvents st)
  = [chunkRequest (headers st && negb (0 <? chunkOffset st)) replace
       (chunkOffset st) totalSize C].
Proof. unfold chunkTurn, turnUpload, uploadChunk. simpl. now rewrite chunkRequests_progress. Qed.

Lemma timeouts_turnEvents (st : LoopState) : timeouts (turnEvents st) = [currDelay st].
Proof. unfold chunkTurn, turnUpload, uploadChunk. simpl. now rewrite timeouts_progress. Qed.

Lemma turnEvents_loop_events (st : LoopState) :
  forallb isLoopEvent (turnEvents st) = true.
Proof.
  unfold chunkTurn, turnUpload, uploadChunk. simpl. induction (env_progress env (issued st)); simpl; auto.
Qed.

(** The loop emits no sync-file start, end or error and does not call the
    caller back: its actions are timers, chunk requests, progress reports
    and calls of [onChunk]. *)
Lemma loop_events_kind (fuel : nat) (st : LoopState) (evs : list Event) (r : option ChunkError) :
  loop fuel st = Some (evs, r) -> forallb isLoopEvent evs = true.
Proof.
  revert fuel st evs r.
  apply (loop_run_ind (fun _ evs _ => forallb isLoopEvent evs = true)).
  - reflexivity.
  - intros st e _ _. apply turnEvents_loop_events.
  - intros fuel st st' tevs rest r _ Hturn _ IH.
    rewrite !forallb_app, turnEvents_loop_events, IH. simpl.
    destruct (turn_next_events st st' tevs Hturn) as [_ [->|(c & -> & _)]]; reflexivity.
Qed.

Lemma loop_events_counts (evs : list Event) :
  forallb isLoopEvent evs = true ->
  count isStart evs = 0%nat /\ count isEnd evs = 0%nat /\ count isErr evs = 0%nat
  /\ callbackResults evs = [].
Proof.
  unfold count. induction evs as [|e evs IH]; simpl; [auto|].
  intros H. apply andb_true_iff in H as [He Hrest].
  destruct (IH Hrest) as (H1 & H2 & H3 & H4).
  destruct e; simpl in *; try discriminate; auto.
Qed.

(** *** Termination *)

Lemma loopTest_true (st : LoopState) :
  test st = true -> chunkOffset st < totalSize /\ continueUpload st = true.
Proof.
  unfold loopTest. intros H. apply andb_true_iff in H as [H1 H2].
  apply Z.ltb_lt in H1. auto.
Qed.

(** With a positive chunk size, a chunk that is sent has at least one byte
    and does not go past the end of the file. *)
Lemma chunkSizeAt_bounds (offset : Z) :
  0 < C -> offset < totalSize ->
  1 <= chunkSizeAt offset totalSize C <= totalSize - offset.
Proof.
  intros HC Hoff. unfold chunkSizeAt.
  destruct (Z.ltb_spec (offset + C) totalSize); lia.
Qed.

(** With a positive chunk size the loop ends: every turn either sends at
    least one more byte for good or uses up one of the retries of the
    chunk. *)
Lemma loop_terminates_from (fuel : nat) :
  0 < C ->
  forall st,
    0 <= retries st < Z.max 1 maxR ->
    (Z.to_nat (totalSize - chunkOffset st) * Z.to_nat (Z.max 1 maxR)
     + Z.to_nat (Z.max 1 maxR - retries st) < fuel)%nat ->
    exists res, loop fuel st = Some res.
Proof.
  intros HC. induction fuel as [|fuel IH]; intros st Hret Hfuel;
    [exfalso; exact (Nat.nlt_0_r _ Hfuel)|].
  destruct (test st) eqn:Ht; [|rewrite (loop_stop _ st Ht); eauto].
  rewrite (loop_step fuel st Ht).
  destruct (loopTest_true st Ht) as [Hoff _].
  pose proof (chunkSizeAt_bounds (chunkOffset st) HC Hoff) as Hcs.
  destruct (chunkError (env_chunk env (issued st))) as [[e|e ig]|] eqn:Herr.
  - destruct (turn_failure st e Herr)
      as [[_ ->]|(Hlt & st' & evs & -> & Ho & Hr & _)]; [eauto|].
    destruct (IH st') as [[rest r] ->]; [lia| |eauto].
    rewrite Ho, Hr.
    replace (Z.to_nat (Z.max 1 maxR - (retries st + 1)))
      with (Z.to_nat (Z.max 1 maxR - retries st) - 1)%nat by lia.
    lia.
  - rewrite (turn_abort st e ig Herr). eauto.
  - destruct (turn_success st Herr) as (st' & evs & -> & Ho & Hr & _).
    destruct (IH st') as [[rest r] ->]; [lia| |eauto].
    rewrite Ho, Hr, Z.sub_0_r.
    assert (Hle : (Z.to_nat (totalSize - (chunkOffset st
                                            + chunkSizeAt (chunkOffset st) totalSize C)) + 1
                   <= Z.to_nat (totalSize - chunkOffset st))%nat) by lia.
    apply (Nat.mul_le_mono_r _ _ (Z.to_nat (Z.max 1 maxR))) in Hle.
    lia.
Qed.

(** *** Offsets, lengths, delays and retries along a run *)

Lemma chunkSucceeds_error (o : ChunkOutcome) :
  chunkSucceeds o = match chunkError o with None => true | Some _ => false end.
Proof. reflexivity. Qed.

Lemma chunkRequests_onchunk_events (st st' : LoopState) (tevs : list Event) :
  turnOf st = NextTurn st' tevs -> chunkRequests tevs = [] /\ timeouts tevs = [].
Proof.
  intros Hturn.
  destruct (turn_next_events st st' tevs Hturn) as [_ [->|(c & -> & _)]]; auto.
Qed.

(** The invariant of the loop, [off0] being the offset the upload starts
    from: the offset has advanced by one chunk size for every request that
    ended well (or the file is done), the retry count is the number of
    requests in a row that just failed, it is below the bound, and the delay
    of the next timer is the one that the last outcome asks for. Along a run
    from such a state every request and every timer is the one that the
    outcomes of the earlier requests determine. *)
Lemma loop_run_invariant (off0 : Z) (fuel : nat) (st : LoopState)
  (evs : list Event) (r : option ChunkError) :
  loop fuel st = Some (evs, r) ->
  (chunkOffset st = off0 + C * succeededBefore env (issued st) \/ totalSize <= chunkOffset st) ->
  retries st = failedInARow env (issued st) ->
  retries st < Z.max 1 maxR ->
  currDelay st = delayBefore env retryD (issued st) ->
  (forall (i : nat) (q : ChunkRequest),
      chunkRequests evs !! i = Some q ->
      streamStart q = off0 + C * succeededBefore env (issued st + i)
      /\ chunkLength q = chunkSizeAt (streamStart q) totalSize C
      /\ fileLength q = totalSize
      /\ failedInARow env (issued st + i) < Z.max 1 maxR)
  /\ (forall (i : nat) (d : Z),
        timeouts evs !! i = Some d -> d = delayBefore env retryD (issued st + i))
  /\ length (timeouts evs) = length (chunkRequests evs)
  /\ (forall e, r = Some e ->
        exists n, length (chunkRequests evs) = S n
                  /\ chunkError (env_chunk env (issued st + n)) = Some e
                  /\ match e with
                     | PlainError _ => maxR <= failedInARow env (issued st + S n)
                     | WrappedError _ _ => True
                     end).
Proof.
  revert fuel st evs r.
  apply (loop_run_ind
           (fun st evs r =>
              (chunkOffset st = off0 + C * succeededBefore env (issued st)
               \/ totalSize <= chunkOffset st) ->
              retries st = failedInARow env (issued st) ->
              retries st < Z.max 1 maxR ->
              currDelay st = delayBefore env retryD (issued st) ->
              (forall (i : nat) (q : ChunkRequest),
                  chunkRequests evs !! i = Some q ->
                  streamStart q = off0 + C * succeededBefore env (issued st + i)
                  /\ chunkLength q = chunkSizeAt (streamStart q) totalSize C
                  /\ fileLength q = totalSize
                  /\ failedInARow env (issued st + i) < Z.max 1 maxR)
              /\ (forall (i : nat) (d : Z),
                    timeouts evs !! i = Some d -> d = delayBefore env retryD (issued st + i))
              /\ length (timeouts evs) = length (chunkRequests evs)
              /\ (forall e, r = Some e ->
                    exists n, length (chunkRequests evs) = S n
                              /\ chunkError (env_chunk env (issued st + n)) = Some e
                              /\ match e with
                                 | PlainError _ => maxR <= failedInARow env (issued st + S n)
                                 | WrappedError _ _ => True
                                 end))).
  - intros st _ _ _ _ _. simpl. repeat split; try discriminate.
  - intros st e Ht Hturn Hoff Hret Hbound Hdelay.
    destruct (loopTest_true st Ht) as [Hlt _].
    destruct Hoff as [Hoff|Hoff]; [|lia].
    rewrite chunkRequests_turnEvents, timeouts_turnEvents.
    split; [|split; [|split; [reflexivity|]]].
    + intros [|i] q Hq; [|discriminate]. injection Hq as <-. simpl.
      rewrite Nat.add_0_r. repeat split; [exact Hoff|lia].
    + intros [|i] d Hd; [|discriminate]. injection Hd as <-.
      now rewrite Nat.add_0_r.
    + intros e' [= <-]. exists 0%nat. rewrite Nat.add_0_r.
      pose proof (turn_end_error st e Hturn) as Herr.
      split; [reflexivity|]. split; [exact Herr|].
      destruct e as [e0|e0 ig]; [|exact I].
      destruct (turn_failure st e0 Herr) as [[Hge _]|(_ & st' & tevs & Hn & _)];
        [|rewrite Hturn in Hn; discriminate].
      rewrite Nat.add_1_r. simpl. rewrite chunkSucceeds_error, Herr. lia.
  - intros fuel st st' tevs rest r Ht Hturn _ IH Hoff Hret Hbound Hdelay.
    destruct (loopTest_true st Ht) as [Hlt _].
    destruct Hoff as [Hoff|Hoff]; [|lia].
    destruct (chunkRequests_onchunk_events st st' tevs Hturn) as [Hq0 Ht0].
    rewrite !chunkRequests_app, !timeouts_app, Hq0, Ht0,
      chunkRequests_turnEvents, timeouts_turnEvents. simpl.
    assert (Hinv' :
              (chunkOffset st' = off0 + C * succeededBefore env (issued st')
               \/ totalSize <= chunkOffset st')
              /\ retries st' = failedInARow env (issued st')
              /\ retries st' < Z.max 1 maxR
              /\ currDelay st' = delayBefore env retryD (issued st')
              /\ issued st' = S (issued st)).
    { destruct (chunkError (env_chunk env (issued st))) as [[e|e ig]|] eqn:Herr.
      - destruct (turn_failure st e Herr)
          as [[_ Hend]|(Hlt' & st1 & tevs1 & Hn & Ho & Hr & Hd & Hi & _)];
          rewrite Hturn in *; [discriminate|]. injection Hn as <- <-.
        rewrite Hi, Ho, Hr, Hd. simpl. rewrite chunkSucceeds_error, Herr.
        repeat split; lia.
      - rewrite (turn_abort st e ig Herr) in Hturn. discriminate.
      - destruct (turn_success st Herr) as (st1 & tevs1 & Hn & Ho & Hr & Hd & Hi & _).
        rewrite Hturn in Hn. injection Hn as <- <-.
        rewrite Hi, Ho, Hr, Hd. simpl. rewrite chunkSucceeds_error, Herr.
        repeat split; try lia.
        unfold chunkSizeAt. destruct (Z.ltb_spec (chunkOffset st + C) totalSize); lia. }
    destruct Hinv' as (Hoff' & Hret' & Hbound' & Hdelay' & Hi).
    destruct (IH Hoff' Hret' Hbound' Hdelay') as (IHq & IHt & IHlen & IHr).
    split; [|split; [|split]].
    + intros [|i] q Hq.
      * injection Hq as <-. simpl. rewrite Nat.add_0_r. repeat split; [exact Hoff|lia].
      * rewrite Nat.add_succ_r, <- Nat.add_succ_l, <- Hi. now apply IHq.
    + intros [|i] d Hd.
      * injection Hd as <-. now rewrite Nat.add_0_r.
      * rewrite Nat.add_succ_r, <- Nat.add_succ_l, <- Hi. now apply IHt.
    + now rewrite IHlen.
    + intros e He. destruct (IHr e He) as (n & Hlen & Herr & Hmax).
      exists (S n). rewrite Hlen. split; [reflexivity|].
      rewrite !Nat.add_succ_r, <- !Nat.add_succ_l, <- Hi.
      rewrite Nat.add_succ_r in Hmax. auto.
Qed.

(** A call of [onChunk] that answers "cancel" is the last action of the
    loop, and the loop then ends without an error. *)
Lemma loop_cancel_ends (fuel : nat) (st : LoopState) (evs : list Event) (r : option ChunkError) :
  loop fuel st = Some (evs, r) ->
  forall next size, In (OnChunk next size true) evs ->
    r = None /\ exists before, evs = before ++ [OnChunk next size true].
Proof.
  revert fuel st evs r.
  apply (loop_run_ind
           (fun _ evs r =>
              forall next size, In (OnChunk next size true) evs ->
                r = None /\ exists before, evs = before ++ [OnChunk next size true])).
  - intros st _ next size [].
  - intros st e _ _ next size Hin. exfalso.
    unfold chunkTurn, turnUpload, uploadChunk in Hin. simpl in Hin.
    destruct Hin as [Hin|[Hin|Hin]]; try discriminate.
    apply in_map_iff in Hin as (p & Hp & _). discriminate.
  - intros fuel st st' tevs rest r _ Hturn Hrest IH next size Hin.
    apply in_app_or in Hin as [Hin|Hin].
    { exfalso. unfold chunkTurn, turnUpload, uploadChunk in Hin. simpl in Hin.
      destruct Hin as [Hin|[Hin|Hin]]; try discriminate.
      apply in_map_iff in Hin as (p & Hp & _). discriminate. }
    apply in_app_or in Hin as [Hin|Hin].
    + destruct (turn_next_events st st' tevs Hturn) as [_ [->|(c & -> & Hc)]]; [destruct Hin|].
      destruct Hin as [[= <- <- ->]|[]]. simpl in Hc.
      assert (Hstop : test st' = false).
      { unfold loopTest. rewrite Hc. apply andb_false_r. }
      rewrite (loop_stop fuel st' Hstop) in Hrest. injection Hrest as <- <-.
      split; [reflexivity|]. exists (turnEvents st). now rewrite app_nil_r.
    + destruct (IH next size Hin) as [-> (before & ->)].
      split; [reflexivity|]. exists (turnEvents st ++ tevs ++ before).
      now rewrite <- !app_assoc.
Qed.

(** *** A remote that answers every request with 423 *)

Lemma chunkError_locked :
  chunkError (Responded 423)
  = Some (PlainError (SMBError STATUS_ACCESS_DENIED "Asset is checked out by another user")).
Proof. reflexivity. Qed.

(** Only an aborted request gives the wrapped error, and it asks for no
    sync-file error. *)
Lemma chunkError_wrapped (o : ChunkOutcome) (e : Error) (ignoreEmit : bool) :
  chunkError o = Some (WrappedError e ignoreEmit) -> o = RequestAborted /\ ignoreEmit = true.
Proof.
  destruct o as [c|code| |c]; simpl; try discriminate.
  - destruct (code =? 423); [discriminate|].
    destruct (negb (code =? 200) && negb (code =? 201)); discriminate.
  - intros [= _ <-]. auto.
Qed.

(** Without [onChunk], a failed request that leaves retries keeps the
    offset and the flag of the loop, counts one more retry and sets the
    delay. *)
Lemma turn_failure_no_onChunk (st : LoopState) (e : Error) :
  onChunkOption = None ->
  chunkError (env_chunk env (issued st)) = Some (PlainError e) ->
  retries st + 1 < maxR ->
  turnOf st
  = NextTurn (mkLoopState (chunkOffset st) (continueUpload st) (retries st + 1) retryD
                (headers st && negb (0 <? chunkOffset st)) (S (issued st))) [].
Proof.
  intros Hn Herr Hlt. unfold turn, turnUpload, uploadChunk, afterChunk. cbn beta iota zeta. rewrite Herr, Hn.
  destruct (Z.geb_spec (retries st + 1) maxR); [lia|reflexivity].
Qed.

(** When every request is answered with 423 and there is no [onChunk], a
    loop at a chunk that is still to be sent issues the request again and
    again at the same offset, [retryDelay] apart, until the retry count
    reaches [maxRetries], and ends with the [STATUS_ACCESS_DENIED] error. *)
Lemma loop_all_locked (k : nat) :
  onChunkOption = None ->
  (forall n, env_chunk env n = Responded 423) ->
  forall st,
    test st = true ->
    k = Z.to_nat (maxR - (retries st + 1)) ->
    exists evs,
      loop (S k) st
      = Some (evs, Some (PlainError (SMBError STATUS_ACCESS_DENIED
                                       "Asset is checked out by another user")))
      /\ map streamStart (chunkRequests evs) = repeat (chunkOffset st) (S k)
      /\ timeouts evs = currDelay st :: repeat retryD k.
Proof.
  intros Hn Hlocked. induction k as [|k IH]; intros st Ht Hk.
  - rewrite (loop_step 0 st Ht).
    destruct (turn_failure st _ (eq_trans (f_equal chunkError (Hlocked (issued st)))
                                   chunkError_locked))
      as [[_ ->]|(Hlt & _)]; [|lia].
    eexists. split; [reflexivity|].
    now rewrite chunkRequests_turnEvents, timeouts_turnEvents.
  - rewrite (loop_step (S k) st Ht).
    rewrite (turn_failure_no_onChunk st _ Hn
               (eq_trans (f_equal chunkError (Hlocked (issued st))) chunkError_locked))
      by lia.
    edestruct (IH (mkLoopState (chunkOffset st) (continueUpload st) (retries st + 1) retryD
                     (headers st && negb (0 <? chunkOffset st)) (S (issued st))))
      as (evs & -> & Hq & Hd).
    { exact Ht. }
    { simpl. lia. }
    eexists. split; [reflexivity|]. simpl in Hq, Hd.
    rewrite !chunkRequests_app, !timeouts_app, chunkRequests_turnEvents,
      timeouts_turnEvents. simpl. now rewrite Hq, Hd.
Qed.

End UploadLoop.

(** ** The chunked upload as a whole *)

Section ChunkedUpload.

Import DAM.

Variable share : Share.
Variables remotePath localPath : string.
Variable replace : bool.
Variable opts : ChunkOptions.
Variable env : Env.

Local Abbreviation C := (chunkSizeFixedOf (config share)).
Local Abbreviation maxR := (maxRetriesOf (config share)).
Local Abbreviation delay := (retryDelayOf (config share)).
Local Abbreviation from := (orDefault (fromOffset opts) 0).
Local Abbreviation path := (unicodeNormalize share remotePath).
Local Abbreviation method := (if replace then "PUT" else "POST")%string.
Local Abbreviation eventPath := (if includeLocalPath opts then Some localPath else None).

(** Past the check for a checked-out asset and the [stat] of the local
    file, the upload is: the sync-file start, the loop, [_completeUpload]. *)
Lemma doChunkUpload_started (size : Z) (fuel : nat) :
  replace = false \/ env_isReadOnly env = ReadOnlyAnswer false ->
  env_stat env = StatSize size ->
  doChunkUpload share remotePath localPath replace opts env fuel
  = match uploadLoop share replace opts env size fuel with
    | Some (levs, r) =>
        Some (SyncFileStart path method eventPath
                :: levs ++ completeUpload path method eventPath r)
    | None => None
    end.
Proof.
  intros Hpre Hstat. unfold doChunkUpload. rewrite Hstat.
  destruct Hpre as [->|Hro]; [reflexivity|].
  destruct replace; [now rewrite Hro|reflexivity].
Qed.

(** With a positive chunk size the loop of an upload ends. *)
Lemma uploadLoop_terminates (size : Z) :
  0 < C -> exists fuel res, uploadLoop share replace opts env size fuel = Some res.
Proof.
  intros HC. unfold uploadLoop.
  eexists (S (Z.to_nat (size - from) * Z.to_nat (Z.max 1 maxR)
              + Z.to_nat (Z.max 1 maxR - 0))).
  apply loop_terminates_from; [exact HC|simpl; lia|simpl; lia].
Qed.

(** What [_completeUpload] does, by the [err] that the loop hands it. *)
Lemma completeUpload_events (r : option ChunkError) :
  count isStart (completeUpload path method eventPath r) = 0%nat
  /\ count isHttpRequest (completeUpload path method eventPath r) = 0%nat
  /\ match r with
     | None =>
         count isEnd (completeUpload path method eventPath r) = 1%nat
         /\ count isErr (completeUpload path method eventPath r) = 0%nat
         /\ callbackResults (completeUpload path method eventPath r) = [None]
     | Some (PlainError e) =>
         count isEnd (completeUpload path method eventPath r) = 0%nat
         /\ count isErr (completeUpload path method eventPath r) = 1%nat
         /\ callbackResults (completeUpload path method eventPath r) = [Some e]
     | Some (WrappedError e ignoreEmit) =>
         count isEnd (completeUpload path method eventPath r) = 0%nat
         /\ count isErr (completeUpload path method eventPath r)
            = (if ignoreEmit then 0 else 1)%nat
         /\ callbackResults (completeUpload path method eventPath r) = [Some e]
     end.
Proof.
  destruct r as [[e|e [|]]|]; simpl; auto.
Qed.

Lemma completeUpload_last (before : list Event) (e : Error) (d : Event) :
  List.last (before ++ completeUpload path method eventPath (Some (PlainError e))) d
  = CallerCallback (Some e).
Proof.
  simpl.
  replace (before ++ [SyncFileErr path method e eventPath; CallerCallback (Some e)])
    with ((before ++ [SyncFileErr path method e eventPath]) ++ [CallerCallback (Some e)])
    by (now rewrite <- app_assoc).
  apply List.last_last.
Qed.

(** C3, as amended. An update of an asset whose read-only check fails or
    finds it checked out emits a sync-file error, passes the error to the
    callback and emits no sync-file start; an upload whose [stat] of the
    local file fails only passes the error to the callback. An upload that
    gets past these two guards ends (with a positive chunk size) and emits
    the sync-file start exactly once, as its first action, hence before
    every chunk request. It then ends in one of three ways. The loop ends
    without error (every byte was sent, or [onChunk] asked to cancel):
    exactly one sync-file end, no sync-file error, and the callback gets no
    error. A failed request exhausts the retries: exactly one sync-file
    error, no sync-file end, and the callback gets that error. A request is
    aborted: neither a sync-file end nor a sync-file error, and the callback
    gets the error of the abort. A call of [onChunk] that asks to cancel is
    the last action of the loop: no chunk request follows it and the upload
    ends in the first way. *)
Theorem C3_upload_lifecycle_events :
  (forall cause fuel,
      replace = true -> env_isReadOnly env = ReadOnlyFailed cause ->
      doChunkUpload share remotePath localPath replace opts env fuel
      = Some [SyncFileErr path "PUT" (RawError cause) eventPath;
              CallerCallback (Some (RawError cause))])
  /\ (forall fuel,
        replace = true -> env_isReadOnly env = ReadOnlyAnswer true ->
        doChunkUpload share remotePath localPath replace opts env fuel
        = Some [SyncFileErr path "PUT"
                  (SMBError STATUS_ACCESS_DENIED "Asset is checked out by another user")
                  eventPath;
                CallerCallback
                  (Some (SMBError STATUS_ACCESS_DENIED
                           "Asset is checked out by another user"))])
  /\ (forall cause fuel,
        replace = false \/ env_isReadOnly env = ReadOnlyAnswer false ->
        env_stat env = StatFailed cause ->
        doChunkUpload share remotePath localPath replace opts env fuel
        = Some [CallerCallback
                  (Some (FromSystemError cause ("unable to stat file " ++ localPath)%string))])
  /\ (forall size : Z,
        replace = false \/ env_isReadOnly env = ReadOnlyAnswer false ->
        env_stat env = StatSize size ->
        (0 < C ->
         exists fuel evs,
           doChunkUpload share remotePath localPath replace opts env fuel = Some evs)
        /\ (forall fuel evs,
              doChunkUpload share remotePath localPath replace opts env fuel = Some evs ->
              exists levs r,
                uploadLoop share replace opts env size fuel = Some (levs, r)
                /\ evs = SyncFileStart path method eventPath
                           :: levs ++ completeUpload path method eventPath r
                /\ count isStart evs = 1%nat
                /\ count isStart (levs ++ completeUpload path method eventPath r) = 0%nat
                /\ chunkRequests evs = chunkRequests levs
                /\ match r with
                   | None =>
                       count isEnd evs = 1%nat /\ count isErr evs = 0%nat
                       /\ callbackResults evs = [None]
                   | Some (PlainError e) =>
                       count isEnd evs = 0%nat /\ count isErr evs = 1%nat
                       /\ callbackResults evs = [Some e]
                       /\ maxR <= failedInARow env (length (chunkRequests levs))
                   | Some (WrappedError e ignoreEmit) =>
                       count isEnd evs = 0%nat /\ count isErr evs = 0%nat
                       /\ callbackResults evs = [Some e]
                       /\ exists n, length (chunkRequests levs) = S n
                                    /\ env_chunk env n = RequestAborted
                   end
                /\ (forall next total,
                      In (OnChunk next total true) evs ->
                      r = None
                      /\ callbackResults evs = [None]
                      /\ exists before, levs = before ++ [OnChunk next total true]))).
Proof.
  split; [|split; [|split]].
  - intros cause fuel Hrep Hro. unfold doChunkUpload. now rewrite Hrep, Hro.
  - intros fuel Hrep Hro. unfold doChunkUpload. now rewrite Hrep, Hro.
  - intros cause fuel Hpre Hstat. unfold doChunkUpload. rewrite Hstat.
    destruct Hpre as [->|Hro]; [reflexivity|].
    destruct replace; [now rewrite Hro|reflexivity].
  - intros size Hpre Hstat. split.
    + intros HC. destruct (uploadLoop_terminates size HC) as (fuel & [levs r] & Hrun).
      exists fuel. rewrite (doChunkUpload_started size fuel Hpre Hstat), Hrun. eauto.
    + intros fuel evs Hup. rewrite (doChunkUpload_started size fuel Hpre Hstat) in Hup.
      destruct (uploadLoop share replace opts env size fuel) as [[levs r]|] eqn:Hrun;
        [|discriminate].
      injection Hup as <-. exists levs, r. split; [reflexivity|]. split; [reflexivity|].
      pose proof Hrun as Hkind. unfold uploadLoop in Hkind.
      apply loop_events_kind, loop_events_counts in Hkind as (Hs & He & Hr & Hcb).
      destruct (completeUpload_events r) as (Hcs & Hch & Hcr).
      assert (Hinv := Hrun). unfold uploadLoop in Hinv.
      apply (loop_run_invariant _ _ _ _ _ _ _ from) in Hinv
          as (_ & _ & _ & Hlast); [|left; simpl; lia|reflexivity|simpl; lia|reflexivity].
      assert (Hreq : chunkRequests (completeUpload path method eventPath r) = []).
      { destruct r as [[e|e [|]]|]; reflexivity. }
      split; [|split; [|split; [|split]]].
      * now rewrite count_cons, count_app, Hs, Hcs.
      * now rewrite count_app, Hs, Hcs.
      * simpl. now rewrite chunkRequests_app, Hreq, app_nil_r.
      * rewrite !count_cons, !count_app, He, Hr. simpl.
        rewrite callbackResults_app, Hcb.
        destruct r as [[e|e ig]|].
        -- destruct Hcr as (-> & -> & ->).
           destruct (Hlast _ eq_refl) as (n & Hlen & _ & Hmax).
           rewrite Hlen. simpl in Hmax. repeat split; auto.
        -- destruct (Hlast _ eq_refl) as (n & Hlen & Herr & _).
           apply chunkError_wrapped in Herr as [Hab ->].
           destruct Hcr as (-> & -> & ->). repeat split; eauto.
        -- destruct Hcr as (-> & -> & ->). auto.
      * intros next total Hin.
        assert (Hin' : In (OnChunk next total true) levs).
        { destruct Hin as [Hin|Hin]; [discriminate|].
          apply in_app_or in Hin as [Hin|Hin]; [exact Hin|].
          destruct r as [[e|e [|]]|]; simpl in Hin; intuition discriminate. }
        unfold uploadLoop in Hrun.
        destruct (loop_cancel_ends _ _ _ _ _ _ _ _ _ _ _ Hrun next total Hin')
          as [-> Hbefore].
        split; [reflexivity|]. split; [|exact Hbefore].
        simpl. now rewrite callbackResults_app, Hcb.
Qed.

(** C4, as amended. A chunk request that is answered with 423 fails with
    a [STATUS_ACCESS_DENIED] error, and that failure is handled like any
    other failed chunk: when the retry count has not reached [maxRetries]
    the same chunk is sent again [retryDelay] later (unless [onChunk] asks
    to cancel), and the loop ends with the error when it has. When every
    chunk request of an upload without [onChunk] is answered with 423, the
    upload issues [max(1, maxRetries)] chunk requests, all at the offset the
    upload starts from, the first at once and the others [retryDelay] after
    the one before; only then does it fail: one sync-file error is emitted
    and the callback gets the [STATUS_ACCESS_DENIED] error. *)
Theorem C4_locked_chunk_is_retried :
  forall size : Z,
    let denied := SMBError STATUS_ACCESS_DENIED "Asset is checked out by another user" in
    let attempts := Z.to_nat (Z.max 1 maxR) in
    chunkError (Responded 423) = Some (PlainError denied)
    /\ (forall st : LoopState,
          loopTest size st = true ->
          env_chunk env (issued st) = Responded 423 ->
          (maxR <= retries st + 1
           /\ turn env (onChunk opts) replace size C maxR delay st
              = EndWith (PlainError denied))
          \/ (retries st + 1 < maxR
              /\ exists st' evs,
                   turn env (onChunk opts) replace size C maxR delay st = NextTurn st' evs
                   /\ chunkOffset st' = chunkOffset st
                   /\ retries st' = retries st + 1
                   /\ currDelay st' = delay
                   /\ loopTest size st'
                      = match onChunk opts with
                        | Some f => negb (f (issued st) (chunkOffset st) size)
                        | None => true
                        end))
    /\ (replace = false \/ env_isReadOnly env = ReadOnlyAnswer false ->
        env_stat env = StatSize size ->
        from < size ->
        onChunk opts = None ->
        (forall n, env_chunk env n = Responded 423) ->
        exists fuel evs,
          doChunkUpload share remotePath localPath replace opts env fuel = Some evs
          /\ map streamStart (chunkRequests evs) = repeat from attempts
          /\ timeouts evs = 0 :: repeat delay (attempts - 1)
          /\ count isErr evs = 1%nat
          /\ count isEnd evs = 0%nat
          /\ callbackResults evs = [Some denied]
          /\ List.last evs (CallerCallback None) = CallerCallback (Some denied)).
Proof.
  intros size denied attempts.
  split; [reflexivity|]. split.
  - intros st Ht Hlocked.
    assert (Herr : chunkError (env_chunk env (issued st)) = Some (PlainError denied))
      by (now rewrite Hlocked).
    destruct (turn_failure_step env (onChunk opts) replace size C maxR delay st denied Ht Herr)
      as [Hend|(Hlt & st' & evs & Hturn & Ho & Hr & Hd & _ & Hgo)]; [left; exact Hend|].
    right. split; [exact Hlt|]. exists st', evs. auto.
  - intros Hpre Hstat Hfrom Hn Hlocked.
    destruct (loop_all_locked env (onChunk opts) replace size C maxR delay
                (Z.to_nat (maxR - 1)) Hn Hlocked (initialState opts))
      as (levs & Hrun & Hq & Hd).
    { unfold loopTest. simpl. apply andb_true_iff. split; [now apply Z.ltb_lt|reflexivity]. }
    { simpl. f_equal; lia. }
    exists (S (Z.to_nat (maxR - 1))).
    rewrite (doChunkUpload_started size _ Hpre Hstat). unfold uploadLoop. rewrite Hrun.
    eexists. split; [reflexivity|].
    pose proof (loop_events_counts _ (loop_events_kind _ _ _ _ _ _ _ _ _ _ _ Hrun))
      as (Hs & He & Hr & Hcb).
    assert (Hatt : attempts = S (Z.to_nat (maxR - 1))) by (subst attempts; lia).
    simpl in Hq, Hd. rewrite Hatt.
    replace (S (Z.to_nat (maxR - 1)) - 1)%nat with (Z.to_nat (maxR - 1)) by lia.
    split; [|split; [|split; [|split; [|split]]]].
    + simpl. rewrite chunkRequests_app. simpl. now rewrite app_nil_r.
    + simpl. rewrite timeouts_app. simpl. now rewrite app_nil_r.
    + now rewrite count_cons, count_app, Hr.
    + now rewrite count_cons, count_app, He.
    + simpl. now rewrite callbackResults_app, Hcb.
    + rewrite app_comm_cons. apply completeUpload_last.
Qed.

(** C5, as amended. The chunk size is [chunkUploadSize] MB, 10 MB when it
    is not set; [maxRetries] is 3 and [retryDelay] 3000 ms when not set.
    With a positive chunk size the loop of the upload ends. Along a run,
    request number [i] starts at the offset the upload starts from plus one
    chunk size for every earlier request that ended well, so the requests
    that end well are at [fromOffset], [fromOffset + C], ... and a request
    after one that failed is at the same offset; its length is [C], or the
    rest of the file when less than that is left. The timer before a request
    is 0 for the first request and after one that ended well, and
    [retryDelay] after one that failed. The retry count is the number of
    requests in a row that failed: it starts again from zero after a request
    that ended well, it stays below [maxRetries] for every request that is
    issued, and an upload that ends with the error of a failed request has
    reached [maxRetries]. In terms of the variables of the loop: a request
    that ends well advances the offset by the length of the chunk and sets
    the retry count and the delay to zero; a request that fails keeps the
    offset, adds one to the retry count and sets the delay to [retryDelay],
    and the loop goes on to send the chunk again unless [onChunk] asks to
    cancel; when that count reaches [maxRetries] the loop ends with the
    error instead; a request that is aborted ends the loop at once. *)
Theorem C5_chunk_offsets_and_retries :
  forall size : Z,
    (chunkUploadSize (config share) = None -> C = 10 * 1024 * 1024)
    /\ (maxRetries (config share) = None -> maxR = 3)
    /\ (retryDelay (config share) = None -> delay = 3000)
    /\ (0 < C ->
        exists fuel evs r, uploadLoop share replace opts env size fuel = Some (evs, r))
    /\ (forall fuel evs r,
          uploadLoop share replace opts env size fuel = Some (evs, r) ->
          (forall (i : nat) (q : ChunkRequest),
              chunkRequests evs !! i = Some q ->
              streamStart q = from + C * succeededBefore env i
              /\ chunkLength q
                 = (if streamStart q + C <? size then C else size - streamStart q)
              /\ fileLength q = size
              /\ failedInARow env i < Z.max 1 maxR)
          /\ (forall (i : nat) (d : Z),
                timeouts evs !! i = Some d -> d = delayBefore env delay i)
          /\ length (timeouts evs) = length (chunkRequests evs)
          /\ (forall e, r = Some (PlainError e) ->
                maxR <= failedInARow env (length (chunkRequests evs))))
    /\ (forall st : LoopState,
          chunkSucceeds (env_chunk env (issued st)) = true ->
          exists st' evs,
            turn env (onChunk opts) replace size C maxR delay st = NextTurn st' evs
            /\ chunkOffset st' = chunkOffset st + chunkSizeAt (chunkOffset st) size C
            /\ retries st' = 0 /\ currDelay st' = 0)
    /\ (forall (st : LoopState) (e : Error),
          loopTest size st = true ->
          chunkError (env_chunk env (issued st)) = Some (PlainError e) ->
          (maxR <= retries st + 1
           /\ turn env (onChunk opts) replace size C maxR delay st = EndWith (PlainError e))
          \/ (retries st + 1 < maxR
              /\ exists st' evs,
                   turn env (onChunk opts) replace size C maxR delay st = NextTurn st' evs
                   /\ chunkOffset st' = chunkOffset st
                   /\ retries st' = retries st + 1 /\ currDelay st' = delay
                   /\ loopTest size st'
                      = match onChunk opts with
                        | Some f => negb (f (issued st) (chunkOffset st) size)
                        | None => true
                        end))
    /\ (forall st : LoopState,
          env_chunk env (issued st) = RequestAborted ->
          turn env (onChunk opts) replace size C maxR delay st
          = EndWith (WrappedError (SMBError STATUS_UNSUCCESSFUL "upload was aborted") true)).
Proof.
  intros size.
  split; [intros H; unfold chunkSizeFixedOf; now rewrite H|].
  split; [intros H; unfold maxRetriesOf; now rewrite H|].
  split; [intros H; unfold retryDelayOf; now rewrite H|].
  split; [intros HC; destruct (uploadLoop_terminates size HC) as (fuel & [evs r] & Hrun);
          eauto|].
  split; [|split; [|split]].
  - intros fuel evs r Hrun. unfold uploadLoop in Hrun.
    apply (loop_run_invariant _ _ _ _ _ _ _ from) in Hrun
        as (Hq & Hd & Hlen & Hlast); [|left; simpl; lia|reflexivity|simpl; lia|reflexivity].
    simpl in Hq, Hd, Hlast. split; [|split; [|split]].
    + intros i q Hi. destruct (Hq i q Hi) as (H1 & H2 & H3 & H4).
      unfold chunkSizeAt in H2. auto.
    + exact Hd.
    + exact Hlen.
    + intros e ->. destruct (Hlast _ eq_refl) as (n & Hn & _ & Hmax).
      rewrite Hn. exact Hmax.
  - intros st Hok. rewrite chunkSucceeds_error in Hok.
    destruct (chunkError (env_chunk env (issued st))) eqn:Herr; [discriminate|].
    destruct (turn_success env (onChunk opts) replace size C maxR delay st Herr)
      as (st' & evs & Ht & Ho & Hr & Hd & _).
    eauto 8.
  - intros st e Htest Herr.
    destruct (turn_failure_step env (onChunk opts) replace size C maxR delay st e Htest Herr)
      as [Hend|(Hlt & st' & evs & Ht & Ho & Hr & Hd & _ & Hgo)]; [left; exact Hend|].
    right. split; [exact Hlt|]. exists st', evs. auto.
  - intros st Hab. apply turn_abort. now rewrite Hab.
Qed.

End ChunkedUpload.

(** C3 as stated does not hold of every upload. An upload whose chunk
    request is aborted emits the sync-file start and then neither a
    sync-file end nor a sync-file error. An update of an asset that another
    user has checked out emits a sync-file error and no sync-file start. *)
Lemma C3_abort_and_checked_out_uploads :
  (exists evs,
      DAM.doChunkUpload Examples.dam_share "/u.jpg" "/local/u.jpg" false DAM.noOptions
        Examples.env_abort 10 = Some evs
      /\ DAM.count DAM.isStart evs = 1%nat
      /\ DAM.count DAM.isEnd evs = 0%nat
      /\ DAM.count DAM.isErr evs = 0%nat)
  /\ (exists evs,
        DAM.doChunkUpload Examples.dam_share "/u.jpg" "/local/u.jpg" true DAM.noOptions
          Examples.env_checked_out 10 = Some evs
        /\ DAM.count DAM.isStart evs = 0%nat
        /\ DAM.count DAM.isErr evs = 1%nat).
Proof.
  split; eexists; (split; [vm_compute; reflexivity|]); repeat split; reflexivity.
Qed.

Lemma C3_upload_lifecycle_events_witness :
  DAM.env_stat Examples.env_all_fail = DAM.StatSize 5
  /\ 0 < DAM.chunkSizeFixedOf (DAM.config Examples.dam_share)
  /\ exists fuel evs,
       DAM.doChunkUpload Examples.dam_share "/u.jpg" "/local/u.jpg" false DAM.noOptions
         Examples.env_all_fail fuel = Some evs.
Proof.
  split; [reflexivity|]. split; [reflexivity|].
  exact (proj1 (proj2 (proj2 (proj2
                  (C3_upload_lifecycle_events Examples.dam_share "/u.jpg" "/local/u.jpg" false
                     DAM.noOptions Examples.env_all_fail)))
                  5 (or_introl eq_refl) eq_refl)
           eq_refl).
Defined.

(** C4 as stated does not hold: the first chunk request is answered with
    423, the chunk is sent again after the retry delay, the second request
    is answered with 200, and the upload ends well: the callback gets no
    error. *)
Lemma C4_locked_then_uploaded :
  exists evs,
    DAM.doChunkUpload Examples.dam_share "/u.jpg" "/local/u.jpg" false DAM.noOptions
      Examples.env_locked_once 10 = Some evs
    /\ DAM.env_chunk Examples.env_locked_once 0 = DAM.Responded 423
    /\ map DAM.streamStart (DAM.chunkRequests evs) = [0; 0]
    /\ DAM.timeouts evs = [0; 3000]
    /\ DAM.count DAM.isErr evs = 0%nat
    /\ DAM.callbackResults evs = [None].
Proof.
  eexists. split; [vm_compute; reflexivity|]. repeat split; reflexivity.
Qed.

Lemma C4_locked_chunk_is_retried_witness :
  DAM.env_stat Examples.env_locked = DAM.StatSize 5
  /\ DAM.onChunk DAM.noOptions = None
  /\ (forall n, DAM.env_chunk Examples.env_locked n = DAM.Responded 423)
  /\ exists fuel evs,
       DAM.doChunkUpload Examples.dam_share "/u.jpg" "/local/u.jpg" false DAM.noOptions
         Examples.env_locked fuel = Some evs
       /\ map DAM.streamStart (DAM.chunkRequests evs) = [0; 0; 0]
       /\ DAM.timeouts evs = [0; 3000; 3000].
Proof.
  split; [reflexivity|]. split; [reflexivity|]. split; [reflexivity|].
  destruct (proj2 (proj2 (C4_locked_chunk_is_retried Examples.dam_share "/u.jpg"
                            "/local/u.jpg" false DAM.noOptions Examples.env_locked 5))
              (or_introl eq_refl) eq_refl eq_refl eq_refl (fun _ => eq_refl))
    as (fuel & evs & Hup & Hq & Hd & _).
  exists fuel, evs. split; [exact Hup|]. split; [exact Hq|exact Hd].
Defined.

(** C5 as stated does not hold of every failed chunk. The first request
    fails and two retries are left, yet [onChunk] asks to cancel and the
    chunk is not sent again: the upload ends, without error, after one
    request. An aborted request is not sent again either. *)
Lemma C5_failed_chunk_not_retried :
  (exists evs,
      DAM.doChunkUpload Examples.dam_share "/u.jpg" "/local/u.jpg" false
        Examples.cancel_at_once Examples.env_all_fail 10 = Some evs
      /\ DAM.chunkSucceeds (DAM.env_chunk Examples.env_all_fail 0) = false
      /\ DAM.failedInARow Examples.env_all_fail 1
         < DAM.maxRetriesOf (DAM.config Examples.dam_share)
      /\ length (DAM.chunkRequests evs) = 1%nat
      /\ DAM.callbackResults evs = [None])
  /\ (exists evs,
        DAM.doChunkUpload Examples.dam_share "/u.jpg" "/local/u.jpg" false DAM.noOptions
          Examples.env_abort 10 = Some evs
        /\ DAM.chunkSucceeds (DAM.env_chunk Examples.env_abort 0) = false
        /\ length (DAM.chunkRequests evs) = 1%nat).
Proof.
  split; eexists; (split; [vm_compute; reflexivity|]); repeat split; reflexivity.
Qed.

Lemma C5_chunk_offsets_and_retries_witness :
  0 < DAM.chunkSizeFixedOf (DAM.config Examples.dam_share_1mb)
  /\ (exists fuel evs r,
         DAM.uploadLoop Examples.dam_share_1mb false DAM.noOptions Examples.env_retry_once
           2621440 fuel = Some (evs, r))
  /\ exists evs,
       DAM.uploadLoop Examples.dam_share_1mb false DAM.noOptions Examples.env_retry_once
         2621440 10 = Some (evs, None)
       /\ map DAM.streamStart (DAM.chunkRequests evs) = [0; 1048576; 1048576; 2097152]
       /\ map DAM.chunkLength (DAM.chunkRequests evs) = [1048576; 1048576; 1048576; 524288]
       /\ DAM.timeouts evs = [0; 0; 3000; 0]
       /\ forall (i : nat) (q : DAM.ChunkRequest),
            DAM.chunkRequests evs !! i = Some q ->
            DAM.streamStart q
            = 0 + 1048576 * DAM.succeededBefore Examples.env_retry_once i.
Proof.
  pose proof (C5_chunk_offsets_and_retries Examples.dam_share_1mb false DAM.noOptions
                Examples.env_retry_once 2621440) as (_ & _ & _ & Hend & Hrun & _).
  split; [reflexivity|]. split; [exact (Hend eq_refl)|].
  eexists. split; [vm_compute; reflexivity|].
  split; [reflexivity|]. split; [reflexivity|]. split; [reflexivity|].
  intros i q Hq.
  exact (proj1 (proj1 (Hrun 10%nat _ None eq_refl) i q Hq)).
Defined.

(** ** The scenarios of the test suites, on the embedding *)

Section Scenarios.

Import DAM Examples.

(** [testCreateAssetRetry]: the first request fails, the second ends well:
    one sync-file start, one sync-file end, no sync-file error, no error
    for the caller. *)
Example testCreateAssetRetry :
  exists evs,
    doChunkUpload dam_share "/uploadassetretry_remote.jpg" "/uploadassetretry.jpg" false
      noOptions env_fail_once 10 = Some evs
    /\ count isStart evs = 1%nat /\ count isEnd evs = 1%nat /\ count isErr evs = 0%nat
    /\ callbackResults evs = [None]
    /\ timeouts evs = [0; 3000].
Proof. eexists. split; [vm_compute; reflexivity|]. repeat split; reflexivity. Qed.

(** [testCreateAssetRetriesExceeded]: every request fails: one sync-file
    start, no sync-file end, one sync-file error, an error for the caller,
    after three requests. *)
Example testCreateAssetRetriesExceeded :
  exists evs,
    doChunkUpload dam_share "/uploadassetretryexceeded_remote.jpg"
      "/uploadassetretryexceeded.jpg" false noOptions env_all_fail 10 = Some evs
    /\ count isStart evs = 1%nat /\ count isEnd evs = 0%nat /\ count isErr evs = 1%nat
    /\ callbackResults evs
       = [Some (FromSystemError "there was an error!"
                  "unexpected error in request while uploading")]
    /\ length (chunkRequests evs) = 3%nat.
Proof. eexists. split; [vm_compute; reflexivity|]. repeat split; reflexivity. Qed.

(** [testCreateAssetOnChunk]: a file of 10 MB in chunks of 1 MB; [onChunk]
    is called with the next offset 1 MB and the total size and cancels: one
    request, sync-file start and end, no error for the caller. *)
Example testCreateAssetOnChunk :
  exists evs,
    doChunkUpload dam_share_1mb "/uploadassetchunk_remote.jpg" "/uploadassetchunk.jpg" false
      cancel_at_once env_10mb 20 = Some evs
    /\ In (OnChunk (1024 * 1024) (10 * 1024 * 1024) true) evs
    /\ length (chunkRequests evs) = 1%nat
    /\ count isStart evs = 1%nat /\ count isEnd evs = 1%nat
    /\ callbackResults evs = [None].
Proof.
  eexists. split; [vm_compute; reflexivity|].
  split; [simpl; tauto|]. repeat split; reflexivity.
Qed.

(** [testCreateAssetOnChunkOffset]: the same upload from offset 1 MB:
    [onChunk] is called with the next offset 2 MB. *)
Example testCreateAssetOnChunkOffset :
  exists evs,
    doChunkUpload dam_share_1mb "/uploadassetchunk_remote.jpg" "/uploadassetchunk.jpg" false
      cancel_from_1mb env_10mb 20 = Some evs
    /\ In (OnChunk (2 * 1024 * 1024) (10 * 1024 * 1024) true) evs
    /\ map streamStart (chunkRequests evs) = [1024 * 1024]
    /\ callbackResults evs = [None].
Proof.
  eexists. split; [vm_compute; reflexivity|].
  split; [simpl; tauto|]. repeat split; reflexivity.
Qed.

(** [testCreateAssetPauseRetry]: the request fails, [onChunk] is called
    with the next offset 0 and cancels: sync-file start and end, no
    sync-file error, no error for the caller. *)
Example testCreateAssetPauseRetry :
  exists evs,
    doChunkUpload dam_share "/uploadassetpauseretry_remote.jpg" "/uploadassetpauseretry.jpg"
      false cancel_at_once env_all_fail 10 = Some evs
    /\ In (OnChunk 0 5 true) evs
    /\ count isStart evs = 1%nat /\ count isEnd evs = 1%nat /\ count isErr evs = 0%nat
    /\ callbackResults evs = [None].
Proof.
  eexists. split; [vm_compute; reflexivity|].
  split; [simpl; tauto|]. repeat split; reflexivity.
Qed.

End Scenarios.

Section QueueScenarios.

Import RequestQueue.

(** The [QueueData] tests of the tree: what [expectQueuedMethod] finds
    for the source and for the destination. *)
Example testQueueData :
  queued (queueData [] "/testfile" (Plain PUT) None) (keyOf "/testfile") = Some PUT.
Proof. reflexivity. Qed.

Example testQueueDataNewName :
  queued (queueData [] "/testfile" (Plain PUT) (Some "/testfile2")) (keyOf "/testfile")
  = Some PUT.
Proof. reflexivity. Qed.

Example testQueueDataTempFile :
  queueData [] "/.tempfile" (Plain PUT) None = [].
Proof. reflexivity. Qed.

Example testQueueDataTempFileDestTempFile :
  queueData [] "/.tempfile" MOVE (Some "/.tempfile2") = [].
Proof. reflexivity. Qed.

Example testQueueDataTempFileDestNormalFile :
  queueData [] "/.tempfile" MOVE (Some "/testfile") = [mkEntry "/" "testfile" PUT].
Proof. reflexivity. Qed.

Example testQueueDataNormalFileDestTempFile :
  queueData (queueData [] "/testfile" (Plain PUT) None) "/testfile" MOVE (Some "/.tempfile")
  = [].
Proof. reflexivity. Qed.

Example testQueueDataNormalFileDestNormalFile :
  queueData [] "/testfile" MOVE (Some "/testfile2")
  = [mkEntry "/" "testfile" DELETE; mkEntry "/" "testfile2" PUT].
Proof. reflexivity. Qed.

Example testQueueDataCopyTempFileDestTempFile :
  queueData [] "/.tempfile" COPY (Some "/.tempfile2") = [].
Proof. reflexivity. Qed.

Example testQueueDataCopyTempFileDestNormalFile :
  queueData [] "/.tempfile" COPY (Some "/testfile") = [mkEntry "/" "testfile" PUT].
Proof. reflexivity. Qed.

Example testQueueDataCopyNormalFileDestTempFile :
  queueData (queueData [] "/testfile" (Plain PUT) None) "/testfile" COPY (Some "/.tempfile")
  = [mkEntry "/" "testfile" PUT].
Proof. reflexivity. Qed.

Example testQueueDataCopyNormalFileDestNormalFile :
  queueData [] "/testfile" COPY (Some "/testfile2") = [mkEntry "/" "testfile2" PUT].
Proof. reflexivity. Qed.

End QueueScenarios.

Section ExistsScenarios.

Import Overlay.

(** [testExistsFalse], [testExistsRemoteOnly] and [testExistsLocalOnly] *)
Example testExistsFalse :
  exists_ (mkTree (fun _ => false) [] (fun _ => RemoteMissing)) "/testfile" = (None, false).
Proof. reflexivity. Qed.

Example testExistsRemoteOnly :
  exists_ (mkTree (fun _ => false) [] (fun _ => RemoteFound)) "/testfile" = (None, true).
Proof. reflexivity. Qed.

Example testExistsLocalOnly :
  exists_ (mkTree (fun _ => true) [] (fun _ => RemoteMissing)) "/testfile" = (None, true).
Proof. reflexivity. Qed.

(** [testExistsDeleted]: the file is on the remote, its local copy was
    deleted and the [DELETE] is queued. *)
Example testExistsDeleted :
  exists_ (mkTree (fun _ => false)
             [RequestQueue.mkEntry "/" "testfile" RequestQueue.DELETE]
             (fun _ => RemoteFound)) "/testfile"
  = (None, false).
Proof. reflexivity. Qed.

(** [testListRemoteTempFile]: a temp file that only the remote has does
    not exist for the tree. *)
Example testExistsRemoteTempFile :
  exists_ (mkTree (fun _ => false) [] (fun _ => RemoteFound)) "/.temp" = (None, false).
Proof. reflexivity. Qed.

End ExistsScenarios.

Section MoveScenarios.

Import RequestQueue.

(** [testRenameCachedToTempFile]: a cached file with no entry is moved to a
    temp path: its [DELETE] is queued. A cached file with a queued update
    keeps an entry, which becomes a [DELETE]. *)
Example moveCachedToTemp :
  queueData [] "/file" MOVE (Some "/.temp") = [mkEntry "/" "file" DELETE]
  /\ queueData [mkEntry "/" "file" POST] "/file" MOVE (Some "/.temp")
     = [mkEntry "/" "file" DELETE].
Proof. split; reflexivity. Qed.

End MoveScenarios.

(* ===================================================================== *)
(** * Part III. Further properties of the code *)
(* ===================================================================== *)

(** ** Download coordinator: sequences of calls *)

Section CoordinatorRuns.

Import RQ RQRun.

(** The callbacks of a list of waiters. *)
Local Abbreviation callbacksOf := (map w_callback).

Lemma invokedOn_app (path : string) (a b : list (string * Action)) :
  invokedOn path (a ++ b) = invokedOn path a ++ invokedOn path b.
Proof.
  induction a as [|[p [cb]] a IH]; simpl; [reflexivity|].
  destruct (String.eqb p path); simpl; now rewrite IH.
Qed.

Lemma invokedOn_tagged_same (path : string) (acts : list Action) :
  invokedOn path (map (fun a => (path, a)) acts)
  = map (fun a => match a with Invoked cb => cb end) acts.
Proof.
  induction acts as [|[cb] acts IH]; simpl; [reflexivity|].
  now rewrite String.eqb_refl, IH.
Qed.

Lemma invokedOn_tagged_other (path other : string) (acts : list Action) :
  other <> path -> invokedOn path (map (fun a => (other, a)) acts) = [].
Proof.
  intros Hne. induction acts as [|[cb] acts IH]; simpl; [reflexivity|].
  destruct (String.eqb_spec other path); [contradiction|exact IH].
Qed.

Lemma invokeWaiters_callbacks (ws : list Waiter) :
  map (fun a => match a with Invoked cb => cb end) (invokeWaiters ws) = callbacksOf ws.
Proof. induction ws as [|w ws IH]; simpl; [reflexivity|now rewrite IH]. Qed.

(** A call on one path leaves the waiters and the mark of every other path
    as they are; no call touches the list cache or its lifetime. *)
Lemma call_frame (s : Share) (c : Call) (path : string) :
  callPath c <> path ->
  waiters (fst (call s c)) path = waiters s path
  /\ downloadingFiles (fst (call s c)) !! path = downloadingFiles s !! path
  /\ (forall t, isDownloading (fst (call s c)) t path = isDownloading s t path).
Proof.
  intros Hne.
  assert (Hgoal : waiters (fst (call s c)) path = waiters s path
                  /\ downloadingFiles (fst (call s c)) !! path = downloadingFiles s !! path).
  { destruct c as [t p cb|t p b]; simpl in *.
    - unfold waitOnDownload. destruct (isDownloading s t p); simpl; [|auto].
      unfold waiters; simpl. now rewrite lookup_insert_ne.
    - unfold setDownloading, notifyDownloadComplete.
      destruct (isDownloading s t p && negb b); simpl.
      + destruct (waits s !! p); simpl; unfold waiters; simpl;
          rewrite ?lookup_insert_ne by assumption; auto.
      + unfold waiters; simpl. now rewrite lookup_insert_ne. }
  destruct Hgoal as [Hw Hd]. split; [exact Hw|]. split; [exact Hd|].
  intros t. unfold isDownloading. now rewrite Hd.
Qed.

Lemma call_listCache (s : Share) (c : Call) :
  listCache (fst (call s c)) = listCache s
  /\ contentCacheTTL (fst (call s c)) = contentCacheTTL s.
Proof.
  destruct c as [t p cb|t p b]; simpl.
  - unfold waitOnDownload. now destruct (isDownloading s t p).
  - unfold setDownloading, notifyDownloadComplete.
    destruct (isDownloading s t p && negb b); simpl; [|auto].
    now destruct (waits s !! p).
Qed.

(** One call, seen from a path: the callbacks invoked on the path followed
    by those still waiting are those that were waiting followed by the one
    the call registers; and a path with waiters stays marked. *)
Lemma call_step (s : Share) (c : Call) (path : string) (t0 : Tree) :
  (waiters s path <> [] -> isDownloading s t0 path = true) ->
  (waiters (fst (call s c)) path <> [] -> isDownloading (fst (call s c)) t0 path = true)
  /\ invokedOn path (map (fun a => (callPath c, a)) (snd (call s c)))
       ++ callbacksOf (waiters (fst (call s c)) path)
     = callbacksOf (waiters s path) ++ registeredOn path [c].
Proof.
  intros Hinv.
  destruct (String.eqb_spec (callPath c) path) as [Heq|Hne].
  - destruct c as [t p cb|t p b]; simpl in Heq; subst p; simpl.
    + rewrite String.eqb_refl. unfold waitOnDownload.
      destruct (isDownloading s t path) eqn:Hd; simpl.
      * split; [intros _; exact Hd|].
        fold (waiters s path). rewrite waiters_setWaits_insert, map_app. reflexivity.
      * rewrite String.eqb_refl. split; [exact Hinv|].
        destruct (waiters s path) as [|w ws] eqn:Hw; [reflexivity|].
        assert (Htrue : isDownloading s t0 path = true) by (apply Hinv; discriminate).
        rewrite (isDownloading_any_tree s t0 t) in Htrue. congruence.
    + unfold setDownloading.
      destruct (isDownloading s t path) eqn:Hd; destruct b; simpl.
      * split; [intros _|now rewrite app_nil_r].
        unfold isDownloading, isTempFileName in *. simpl. rewrite lookup_insert_eq.
        now destruct (PathClassifier.isTempName path).
      * unfold notifyDownloadComplete. simpl.
        destruct (waits s !! path) as [ws|] eqn:Hw; simpl.
        -- unfold waiters. simpl. rewrite lookup_insert_eq, Hw.
           split; [intros H; now destruct H|].
           rewrite invokedOn_tagged_same, invokeWaiters_callbacks.
           now rewrite !app_nil_r.
        -- unfold waiters. simpl. rewrite Hw. split; [intros H; now destruct H|reflexivity].
      * assert (Hnil : waiters s path = []).
        { destruct (waiters s path) eqn:Hw; [reflexivity|].
          assert (Htrue : isDownloading s t0 path = true) by (apply Hinv; discriminate).
          rewrite (isDownloading_any_tree s t0 t) in Htrue. congruence. }
        unfold waiters in *. simpl. rewrite Hnil.
        split; [intros H; now destruct H|reflexivity].
      * assert (Hnil : waiters s path = []).
        { destruct (waiters s path) eqn:Hw; [reflexivity|].
          assert (Htrue : isDownloading s t0 path = true) by (apply Hinv; discriminate).
          rewrite (isDownloading_any_tree s t0 t) in Htrue. congruence. }
        unfold waiters in *. simpl. rewrite Hnil.
        split; [intros H; now destruct H|reflexivity].
  - destruct (call_frame s c path Hne) as (Hw & _ & Hd).
    rewrite Hw, Hd, (invokedOn_tagged_other path (callPath c) _ Hne).
    split; [exact Hinv|].
    destruct c as [t p cb|t p b]; simpl in *;
      [destruct (String.eqb_spec p path); [contradiction|]|]; now rewrite app_nil_r.
Qed.

Lemma run_invariant (cs : list Call) :
  forall (s : Share) (path : string) (t0 : Tree),
    (waiters s path <> [] -> isDownloading s t0 path = true) ->
    (waiters (fst (run s cs)) path <> [] -> isDownloading (fst (run s cs)) t0 path = true)
    /\ invokedOn path (snd (run s cs)) ++ callbacksOf (waiters (fst (run s cs)) path)
       = callbacksOf (waiters s path) ++ registeredOn path cs.
Proof.
  induction cs as [|c cs IH]; intros s path t0 Hinv; simpl.
  - split; [exact Hinv|now rewrite app_nil_r].
  - destruct (call_step s c path t0 Hinv) as [Hinv1 Hstep].
    destruct (call s c) as [s1 acts1] eqn:Hc. simpl in Hinv1, Hstep.
    destruct (IH s1 path t0 Hinv1) as [Hinv2 Hrun].
    destruct (run s1 cs) as [s2 acts2] eqn:Hr. simpl in *.
    split; [exact Hinv2|].
    rewrite invokedOn_app, <- app_assoc, Hrun, app_assoc, Hstep, <- app_assoc.
    f_equal. destruct c as [t p cb|t p b]; simpl; [|reflexivity].
    now destruct (String.eqb p path).
Qed.

Lemma run_frame (cs : list Call) :
  forall s : Share,
    listCache (fst (run s cs)) = listCache s
    /\ contentCacheTTL (fst (run s cs)) = contentCacheTTL s.
Proof.
  induction cs as [|c cs IH]; intros s; simpl; [auto|].
  destruct (call_listCache s c) as [Hl Ht].
  destruct (call s c) as [s1 acts1]. simpl in *.
  destruct (IH s1) as [Hl2 Ht2].
  destruct (run s1 cs) as [s2 acts2]. simpl in *. split; congruence.
Qed.

(** X1. After any sequence of calls of [waitOnDownload] and
    [setDownloading] on a share as the constructor makes it, a path that has
    a waiter is a path that [isDownloading] reports as downloading: no
    callback waits on a path whose download has ended or that is a temp
    path. *)
Theorem X1_waiters_only_while_downloading :
  forall (configTTL : JSValue) (cs : list Call) (path : string) (tree : Tree),
    waiters (fst (run (newShare configTTL) cs)) path <> [] ->
    isDownloading (fst (run (newShare configTTL) cs)) tree path = true
    /\ PathClassifier.isTempName path = false.
Proof.
  intros configTTL cs path tree Hw.
  destruct (run_invariant cs (newShare configTTL) path tree) as [Hinv _].
  { intros H. now destruct H. }
  pose proof (Hinv Hw) as Hd. split; [exact Hd|].
  unfold isDownloading, isTempFileName in Hd.
  now destruct (PathClassifier.isTempName path).
Qed.

Lemma X1_waiters_only_while_downloading_witness :
  waiters (fst (run (newShare JSUndefined)
                  [SetDownloading (mkTree 1) "/f" true; WaitOnDownload (mkTree 2) "/f" 7%nat]))
    "/f" <> []
  /\ isDownloading (fst (run (newShare JSUndefined)
                           [SetDownloading (mkTree 1) "/f" true;
                            WaitOnDownload (mkTree 2) "/f" 7%nat]))
       (mkTree 3) "/f" = true.
Proof.
  assert (Hw : waiters (fst (run (newShare JSUndefined)
                               [SetDownloading (mkTree 1) "/f" true;
                                WaitOnDownload (mkTree 2) "/f" 7%nat])) "/f" <> [])
    by (vm_compute; discriminate).
  split; [exact Hw|].
  exact (proj1 (X1_waiters_only_while_downloading JSUndefined _ "/f" (mkTree 3) Hw)).
Defined.

(** X2. Over any sequence of calls on a fresh share, and for every path:
    the callbacks invoked on the path, in the order they are invoked,
    followed by the callbacks still waiting on it, are exactly the callbacks
    handed to [waitOnDownload] for the path, in the order of the calls. So
    no callback is lost, none is invoked twice, and they are served first
    come, first served. *)
Theorem X2_callbacks_first_come_first_served :
  forall (configTTL : JSValue) (cs : list Call) (path : string),
    invokedOn path (snd (run (newShare configTTL) cs))
      ++ map w_callback (waiters (fst (run (newShare configTTL) cs)) path)
    = registeredOn path cs.
Proof.
  intros configTTL cs path.
  destruct (run_invariant cs (newShare configTTL) path (mkTree 0)) as [_ Hrun].
  { intros H. now destruct H. }
  exact Hrun.
Qed.

(** X3. A call of [waitOnDownload] or [setDownloading] on one path leaves
    the waiters and the downloading state of every other path as they were,
    and no sequence of such calls changes the list cache or its lifetime. *)
Theorem X3_coordinator_frame :
  forall (s : Share) (c : Call) (cs : list Call) (path : string) (tree : Tree),
    callPath c <> path ->
    waiters (fst (call s c)) path = waiters s path
    /\ isDownloading (fst (call s c)) tree path = isDownloading s tree path
    /\ listCache (fst (run s cs)) = listCache s
    /\ contentCacheTTL (fst (run s cs)) = contentCacheTTL s.
Proof.
  intros s c cs path tree Hne.
  destruct (call_frame s c path Hne) as (Hw & _ & Hd).
  destruct (run_frame cs s) as [Hl Ht].
  auto.
Qed.

Lemma X3_coordinator_frame_witness :
  callPath (SetDownloading (mkTree 1) "/other" false) <> "/somefile"
  /\ isDownloading (fst (call Examples.c1_share (SetDownloading (mkTree 1) "/other" false)))
       (mkTree 1) "/somefile"
     = isDownloading Examples.c1_share (mkTree 1) "/somefile".
Proof.
  assert (Hne : callPath (SetDownloading (mkTree 1) "/other" false) <> "/somefile")
    by discriminate.
  split; [exact Hne|].
  exact (proj1 (proj2 (X3_coordinator_frame Examples.c1_share _ [] "/somefile"
                         (mkTree 1) Hne))).
Defined.

End CoordinatorRuns.

(** ** List cache: storing, looking up, invalidating *)

Section ListCacheLifecycle.

Import RQ RQRun.

Lemma getListCache_absent (s : Share) (now : Z) (open : string -> Error + File)
  (path : string) :
  listCache s !! path = None -> getListCache s now open path = (s, [], ListMiss).
Proof. intros Hn. unfold getListCache. now rewrite Hn. Qed.

(** X4. A listing stored by [cacheList] and looked up by [getListCache]
    while [now - timestamp] is at most [contentCacheTTL]: [tree.open] is
    called on the paths of the stored files, in their order, and when they
    all open the handles come back in that order and the cache is left as it
    is. The listing replaces any listing stored for the path before. A
    stored empty listing is a hit with no file, not a miss. *)
Theorem X4_cacheList_then_getListCache :
  forall (s : Share) (stored now : Z) (open : string -> Error + File) (path : string)
         (fs handles : list File),
    now - stored <= contentCacheTTL s ->
    Forall2 (fun n h => open n = inr h) (map filePath fs) handles ->
    getListCache (cacheList s stored path fs) now open path
    = (cacheList s stored path fs, map filePath fs, ListFiles handles)
    /\ getListCache (cacheList s stored path []) now open path
       = (cacheList s stored path [], [], ListFiles []).
Proof.
  intros s stored now open path fs handles Hfresh Hopen.
  assert (Hentry : forall l, listCache (cacheList s stored path l) !! path
                             = Some (mkListCacheEntry stored (map filePath l))).
  { intros l. unfold cacheList. simpl. apply lookup_insert_eq. }
  split.
  - rewrite (getListCache_fresh open _ now path _ (Hentry fs)) by exact Hfresh.
    simpl. now rewrite (addFile_all_open open _ [] handles Hopen).
  - rewrite (getListCache_fresh open _ now path _ (Hentry [])) by exact Hfresh.
    reflexivity.
Qed.

Lemma X4_cacheList_then_getListCache_witness :
  1500 - 1000 <= contentCacheTTL Examples.c6_share
  /\ getListCache (cacheList Examples.c6_share 1000 "/dir" [mkFile "/dir/a.jpg" 0]) 1500
       Examples.c6_open "/dir"
     = (cacheList Examples.c6_share 1000 "/dir" [mkFile "/dir/a.jpg" 0],
        ["/dir/a.jpg"], ListFiles [mkFile "/dir/a.jpg" 0]).
Proof.
  assert (Hle : 1500 - 1000 <= contentCacheTTL Examples.c6_share)
    by (vm_compute; discriminate).
  split; [exact Hle|].
  apply (proj1 (X4_cacheList_then_getListCache Examples.c6_share 1000 1500 Examples.c6_open
                  "/dir" [mkFile "/dir/a.jpg" 0] [mkFile "/dir/a.jpg" 0] Hle
                  ltac:(repeat constructor))).
Defined.

(** X5. After [invalidateContentCache(path, deep)] a lookup of the path is
    a miss that opens nothing, whatever the time. The listing of every
    other path stays in the cache, also the listings of the folders below
    the path when [deep] is set: [deep] only reaches the remote share, which
    is called, with the same arguments, when it has an
    [invalidateContentCache] and not otherwise. The waiters and the
    downloading marks are left as they are. *)
Theorem X5_invalidateContentCache :
  forall (s : Share) (remoteInvalidates deep : bool) (path : string),
    let s' := fst (invalidateContentCache s remoteInvalidates path deep) in
    (forall now open, getListCache s' now open path = (s', [], ListMiss))
    /\ (forall other, other <> path -> listCache s' !! other = listCache s !! other)
    /\ snd (invalidateContentCache s remoteInvalidates path deep)
       = (if remoteInvalidates then [RemoteInvalidateContentCache path deep] else [])
    /\ waits s' = waits s
    /\ downloadingFiles s' = downloadingFiles s.
Proof.
  intros s remoteInvalidates deep path s'. split; [|split; [|auto]].
  - intros now open. apply getListCache_absent. subst s'. simpl. apply lookup_delete_eq.
  - intros other Hne. subst s'. simpl. now apply lookup_delete_ne.
Qed.

Lemma X5_invalidateContentCache_witness :
  "/a/b" <> "/a"
  /\ listCache (fst (invalidateContentCache
                       (cacheList (cacheList Examples.c6_share 1 "/a" []) 1 "/a/b"
                          [mkFile "/a/b/c.jpg" 0])
                       true "/a" true)) !! "/a/b"
     = Some (mkListCacheEntry 1 ["/a/b/c.jpg"]).
Proof.
  assert (Hne : "/a/b" <> "/a") by discriminate.
  split; [exact Hne|].
  rewrite (proj1 (proj2 (X5_invalidateContentCache
                           (cacheList (cacheList Examples.c6_share 1 "/a" []) 1 "/a/b"
                              [mkFile "/a/b/c.jpg" 0])
                           true true "/a")) "/a/b" Hne).
  reflexivity.
Defined.

(** X6. A lookup that finds the listing of a path older than
    [contentCacheTTL] removes it for good: every later lookup of the path,
    at any time and with any tree, is a miss that opens nothing and leaves
    the share as it is, and the listings of the other paths are those of
    before. *)
Theorem X6_expired_listing_is_removed :
  forall (s : Share) (now : Z) (open : string -> Error + File) (path : string)
         (entry : ListCacheEntry),
    listCache s !! path = Some entry ->
    contentCacheTTL s < now - timestamp entry ->
    let s' := fst (fst (getListCache s now open path)) in
    (forall later open', getListCache s' later open' path = (s', [], ListMiss))
    /\ (forall other, other <> path -> listCache s' !! other = listCache s !! other)
    /\ contentCacheTTL s' = contentCacheTTL s.
Proof.
  intros s now open path entry He Hold s'.
  assert (Hs' : s' = setListCache s (delete path (listCache s))).
  { subst s'. now rewrite (getListCache_expired open s now path entry He Hold). }
  rewrite Hs'. split; [|split; [|reflexivity]].
  - intros later open'. apply getListCache_absent. simpl. apply lookup_delete_eq.
  - intros other Hne. simpl. now apply lookup_delete_ne.
Qed.

Lemma X6_expired_listing_is_removed_witness :
  listCache Examples.c6_share !! "/" = Some (mkListCacheEntry 1000 ["/a.jpg"; "/gone.jpg"])
  /\ contentCacheTTL Examples.c6_share < 40000 - 1000
  /\ getListCache (fst (fst (getListCache Examples.c6_share 40000 Examples.c6_open "/")))
       1001 Examples.c6_open "/"
     = (fst (fst (getListCache Examples.c6_share 40000 Examples.c6_open "/")), [], ListMiss).
Proof.
  split; [reflexivity|]. split; [reflexivity|].
  exact (proj1 (X6_expired_listing_is_removed Examples.c6_share 40000 Examples.c6_open "/"
                  _ eq_refl eq_refl) 1001 Examples.c6_open).
Defined.

End ListCacheLifecycle.

(** ** Deleting a resource *)

Section DeleteResource.

Import DAM.

Variable share : Share.

(** The read-only check of [_deleteResource] lets the deletion through:
    it is skipped for a directory and must answer "not checked out" for a
    file. *)
Local Abbreviation deletable isFile env :=
  (isFile = true -> env_isReadOnly env = ReadOnlyAnswer false).

Lemma deleteResource_dot (path : string) (isFile : bool) (env : Env) :
  matchesSlashDot path = true ->
  deleteResource share path isFile env = snd (checkDotFile path "DELETE" None noOptions).
Proof. intros Hdot. unfold deleteResource, checkDotFile. now rewrite Hdot. Qed.

Lemma deleteResource_directory (path : string) (env : Env) :
  matchesSlashDot path = false ->
  deleteResource share path false env
  = DeleteRequested (buildContentDamPath share path)
      :: match env_delete env with
         | DeleteFailed cause =>
             [CallerCallback
                (Some (FromSystemError cause "unable to delete file due to unexpected error"))]
         | DeleteResponded statusCode =>
             if statusCode =? 200 then [InvalidateContentCache path false; CallerCallback None]
             else [CallerCallback
                     (Some (SMBError STATUS_UNSUCCESSFUL
                              ("cannot delete file due to " ++ pretty statusCode
                                 ++ " response code")%string))]
         end.
Proof.
  intros Hdot. unfold deleteResource, checkDotFile. rewrite Hdot. simpl.
  destruct (env_delete env) as [cause|statusCode]; [reflexivity|].
  now destruct (statusCode =? 200).
Qed.

Ltac delete_cases path isFile env :=
  unfold deleteResource, checkDotFile;
  destruct (matchesSlashDot path) eqn:Hdot;
  [|destruct isFile;
    [destruct (env_isReadOnly env) as [cause|[|]] eqn:Hro|];
    try (destruct (env_delete env) as [cause'|statusCode] eqn:Hdel;
         [|destruct (Z.eqb_spec statusCode 200) as [H200|H200]])];
  cbn [sendCallback app fst snd].

(** X7. Every call of [_deleteResource] calls the callback exactly once,
    as its last action, and issues at most one request. For a file it emits
    exactly one of syncfileend and syncfileerr, syncfileend exactly when the
    callback gets no error, and a syncfilestart exactly when it issues the
    request. For a directory it emits no sync-file event, but for the
    syncfileerr of a path with a name that begins with a period, which
    [checkDotFile] emits for files and directories alike. *)
Theorem X7_delete_trace_shape :
  forall (path : string) (isFile : bool) (env : Env),
    let evs := deleteResource share path isFile env in
    exists result : option Error,
      callbackResults evs = [result]
      /\ List.last evs (CallerCallback None) = CallerCallback result
      /\ (count isHttpRequest evs <= 1)%nat
      /\ count isStart evs = (if isFile then count isHttpRequest evs else 0%nat)
      /\ count isEnd evs
         = (if isFile && match result with None => true | Some _ => false end
            then 1%nat else 0%nat)
      /\ count isErr evs
         = (if (isFile || matchesSlashDot path)
               && match result with None => false | Some _ => true end
            then 1%nat else 0%nat).
Proof.
  intros path isFile env evs. subst evs.
  delete_cases path isFile env;
    eexists; (split; [reflexivity|]); cbn; repeat split; try lia; now destruct isFile.
Qed.

(** X8. [_deleteResource] reports success exactly when the path has no
    name that begins with a period, the asset is not checked out (which is
    asked for files only) and the server answers the request with 200. The
    request is issued exactly when the first two hold, is the delete command
    for the DAM path of the resource, and no chunk is ever uploaded. The
    content cache of the path is invalidated, not deeply, exactly when the
    deletion succeeds. *)
Theorem X8_delete_succeeds_iff :
  forall (path : string) (isFile : bool) (env : Env),
    let evs := deleteResource share path isFile env in
    (callbackResults evs = [None]
     <-> matchesSlashDot path = false /\ deletable isFile env
         /\ env_delete env = DeleteResponded 200)
    /\ (count isHttpRequest evs = 1%nat
        <-> matchesSlashDot path = false /\ deletable isFile env)
    /\ (forall e, In e evs -> isHttpRequest e = true ->
                  e = DeleteRequested (buildContentDamPath share path))
    /\ (forall deep, In (InvalidateContentCache path deep) evs
                     <-> deep = false /\ callbackResults evs = [None]).
Proof.
  intros path isFile env evs. subst evs.
  delete_cases path isFile env.
  all: split; [|split; [|split]].
  all: try (intros e He Hreq; cbn in He;
            repeat (destruct He as [<-|He]; [try discriminate Hreq; try reflexivity|]);
            now destruct He).
  all: try (intros deep; cbn; split;
            [ intros He; repeat (destruct He as [He|He]; [try discriminate He|]);
              try (now destruct He);
              injection He as <-; now split
            | intros [Hd Hc]; try discriminate Hc; subst deep; auto ]).
  all: cbn; split.
  all: try (intros [H1 [H2 H3]]); try (intros [H1 H2]); try (intros H1).
  all: try discriminate.
  all: try (specialize (H2 eq_refl)); try discriminate.
  all: try reflexivity.
  all: try (injection H3 as H3; contradiction).
  all: try (repeat split; try reflexivity; try (intros _; reflexivity);
            try (intros Hf; discriminate Hf); congruence).
Qed.

End DeleteResource.

Lemma X8_delete_succeeds_iff_witness :
  DAM.matchesSlashDot "/folder/asset.jpg" = false
  /\ DAM.env_isReadOnly Examples.env_progress_5 = DAM.ReadOnlyAnswer false
  /\ DAM.env_delete Examples.env_progress_5 = DAM.DeleteResponded 200
  /\ DAM.callbackResults
       (DAM.deleteResource Examples.dam_share "/folder/asset.jpg" true Examples.env_progress_5)
     = [None].
Proof.
  split; [reflexivity|]. split; [reflexivity|]. split; [reflexivity|].
  apply (proj1 (X8_delete_succeeds_iff Examples.dam_share "/folder/asset.jpg" true
                  Examples.env_progress_5)).
  split; [reflexivity|]. split; [intros _; reflexivity | reflexivity].
Defined.

(** ** More on the loop of the chunked upload *)

Section UploadLoopTrace.

Import DAM DAMTrace.

Variable env : Env.
Variable onChunkOption : option (nat -> Z -> Z -> bool).
Variable replace : bool.
Variables totalSize C maxR retryD : Z.

Local Abbreviation loop := (chunkLoop env onChunkOption replace totalSize C maxR retryD).
Local Abbreviation turnOf := (turn env onChunkOption replace totalSize C maxR retryD).
Local Abbreviation turnEvents := (chunkTurn env replace totalSize C).
Local Abbreviation test := (loopTest totalSize).
Local Abbreviation run_ind := (loop_run_ind env onChunkOption replace totalSize C maxR retryD).

(** The bytes that the request of a turn gets through. *)
Local Abbreviation sentBy st :=
  (if chunkSucceeds (env_chunk env (issued st))
   then chunkSizeAt (chunkOffset st) totalSize C else 0).

(** The variables of the closure after a turn that lets the loop go on. *)
Lemma turn_next_state (st st' : LoopState) (tevs : list Event) :
  turnOf st = NextTurn st' tevs ->
  issued st' = S (issued st)
  /\ headers st' = headers st && negb (0 <? chunkOffset st)
  /\ chunkOffset st' = chunkOffset st + sentBy st
  /\ ((tevs = [] /\ continueUpload st' = continueUpload st
       /\ (onChunkOption = None \/ maxR <= 0))
      \/ exists cancel,
           tevs = [OnChunk (chunkOffset st') totalSize cancel]
           /\ continueUpload st' = negb cancel /\ onChunkOption <> None).
Proof.
  unfold turn, turnUpload, uploadChunk, afterChunk. cbn beta iota zeta.
  rewrite chunkSucceeds_error.
  destruct (chunkError (env_chunk env (issued st))) as [[e|e ig]|];
    match goal with
    | |- context [?a >=? ?b] => destruct (Z.geb_spec a b)
    end; try discriminate; destruct onChunkOption as [f|]; intros [= <- <-]; simpl;
    (split; [reflexivity|]); (split; [reflexivity|]); (split; [lia|]);
    try (left; repeat split; auto; right; lia);
    right; eexists; repeat split; discriminate.
Qed.

Lemma turnEvents_no_onChunk (st : LoopState) (next size : Z) (cancel : bool) :
  ~ In (OnChunk next size cancel) (turnEvents st).
Proof.
  unfold chunkTurn, turnUpload, uploadChunk. simpl.
  intros [Hin|[Hin|Hin]]; try discriminate.
  apply in_map_iff in Hin as (p & Hp & _). discriminate.
Qed.

Lemma cancelled_app (a b : list Event) : cancelled (a ++ b) = cancelled a || cancelled b.
Proof. apply existsb_app. Qed.

Lemma cancelled_turnEvents (st : LoopState) : cancelled (turnEvents st) = false.
Proof.
  unfold cancelled, chunkTurn, turnUpload, uploadChunk. simpl.
  induction (env_progress env (issued st)); simpl; auto.
Qed.

Lemma onChunkCalls_app (a b : list Event) :
  onChunkCalls (a ++ b) = onChunkCalls a ++ onChunkCalls b.
Proof.
  induction a as [|e a IH]; simpl; [reflexivity|].
  destruct e; simpl; now rewrite IH.
Qed.

Lemma onChunkCalls_turnEvents (st : LoopState) : onChunkCalls (turnEvents st) = [].
Proof.
  unfold chunkTurn, turnUpload, uploadChunk. simpl.
  induction (env_progress env (issued st)); simpl; auto.
Qed.

Lemma bytesSent_turn (st : LoopState) (rest : list ChunkRequest) :
  bytesSent env (issued st)
    (chunkRequests (turnEvents st) ++ rest)
  = sentBy st + bytesSent env (S (issued st)) rest.
Proof. now rewrite chunkRequests_turnEvents. Qed.

(** The bytes of the requests of a run that ended well: never more than
    what is left of the file; all that is left when the loop ends without
    error and without a cancel; less when it ends with an error. *)
Lemma loop_bytesSent (fuel : nat) (st : LoopState) (evs : list Event)
  (r : option ChunkError) :
  0 < C ->
  loop fuel st = Some (evs, r) ->
  0 <= bytesSent env (issued st) (chunkRequests evs) <= Z.max 0 (totalSize - chunkOffset st)
  /\ (r = None -> cancelled evs = false -> continueUpload st = true ->
      bytesSent env (issued st) (chunkRequests evs) = Z.max 0 (totalSize - chunkOffset st))
  /\ (r <> None ->
      bytesSent env (issued st) (chunkRequests evs) < totalSize - chunkOffset st).
Proof.
  intros HC. revert fuel st evs r.
  apply (run_ind
           (fun st evs r =>
              0 <= bytesSent env (issued st) (chunkRequests evs)
                <= Z.max 0 (totalSize - chunkOffset st)
              /\ (r = None -> cancelled evs = false -> continueUpload st = true ->
                  bytesSent env (issued st) (chunkRequests evs)
                  = Z.max 0 (totalSize - chunkOffset st))
              /\ (r <> None ->
                  bytesSent env (issued st) (chunkRequests evs)
                  < totalSize - chunkOffset st))).
  - intros st Ht. simpl. split; [lia|]. split; [|congruence].
    intros _ _ Hc. unfold loopTest in Ht. rewrite Hc, andb_true_r in Ht.
    apply Z.ltb_ge in Ht. lia.
  - intros st e Ht Hturn. destruct (loopTest_true _ st Ht) as [Hoff _].
    pose proof (bytesSent_turn st []) as Hb. rewrite app_nil_r in Hb. rewrite Hb.
    rewrite chunkSucceeds_error, (turn_end_error _ _ _ _ _ _ _ _ _ Hturn). simpl.
    split; [lia|]. split; [discriminate|]. intros _. lia.
  - intros fuel st st' tevs rest r Ht Hturn _ (IHb & IHall & IHerr).
    destruct (loopTest_true _ st Ht) as [Hoff _].
    pose proof (chunkSizeAt_bounds totalSize C (chunkOffset st) HC Hoff) as Hcs.
    destruct (turn_next_state st st' tevs Hturn) as (Hi & _ & Ho & Hev).
    destruct (chunkRequests_onchunk_events _ _ _ _ _ _ _ _ _ _ Hturn) as [Hq0 _].
    rewrite !chunkRequests_app, Hq0, app_nil_l, bytesSent_turn, <- Hi.
    rewrite Ho in IHb, IHall, IHerr.
    split; [|split].
    + destruct (chunkSucceeds (env_chunk env (issued st))); lia.
    + intros Hr Hnc Hcont. rewrite !cancelled_app, cancelled_turnEvents in Hnc.
      apply orb_false_iff in Hnc as [_ Hnc]. apply orb_false_iff in Hnc as [Hnt Hnr].
      assert (Hcont' : continueUpload st' = true).
      { destruct Hev as [(_ & -> & _)|(c & -> & -> & _)]; [exact Hcont|].
        simpl in Hnt. now destruct c. }
      rewrite (IHall Hr Hnr Hcont').
      destruct (chunkSucceeds (env_chunk env (issued st))); lia.
    + intros Hr. specialize (IHerr Hr).
      destruct (chunkSucceeds (env_chunk env (issued st))); lia.
Qed.

(** Every request of a run, the headers of the first chunk being on the
    request options or the offset being past zero when it starts: the
    request carries those headers exactly when it starts at offset zero (or
    before); its chunk has at least one byte, at most [C], and ends before
    the end of the file; the form never has [file@Completed]; it has
    [file@Offset] exactly when the file is larger than [C]. *)
Lemma loop_requests_wellformed (fuel : nat) (st : LoopState) (evs : list Event)
  (r : option ChunkError) :
  0 < C ->
  loop fuel st = Some (evs, r) ->
  headers st = true \/ 0 < chunkOffset st ->
  forall q, In q (chunkRequests evs) ->
    (initialChunkHeaders q = true <-> streamStart q <= 0)
    /\ fileCompleted q = false
    /\ 1 <= chunkLength q <= C
    /\ chunkOffset st <= streamStart q
    /\ streamEnd q = streamStart q + chunkLength q - 1
    /\ streamEnd q < totalSize
    /\ replaceAsset q = replace
    /\ fileOffset q = (if C <? totalSize then Some (streamStart q) else None)
    /\ fileLength q = totalSize.
Proof.
  intros HC. revert fuel st evs r.
  assert (Hfirst : forall st,
             test st = true -> headers st = true \/ 0 < chunkOffset st ->
             forall q, In q (chunkRequests (turnEvents st)) ->
               (initialChunkHeaders q = true <-> streamStart q <= 0)
               /\ fileCompleted q = false
               /\ 1 <= chunkLength q <= C
               /\ chunkOffset st <= streamStart q
               /\ streamEnd q = streamStart q + chunkLength q - 1
               /\ streamEnd q < totalSize
               /\ replaceAsset q = replace
               /\ fileOffset q = (if C <? totalSize then Some (streamStart q) else None)
               /\ fileLength q = totalSize).
  { intros st Ht Hh q Hq. rewrite chunkRequests_turnEvents in Hq.
    destruct Hq as [<-|[]]. destruct (loopTest_true _ st Ht) as [Hoff _].
    pose proof (chunkSizeAt_bounds totalSize C (chunkOffset st) HC Hoff) as Hcs.
    simpl. split; [|split; [|split; [|split; [|split; [|split]]]]].
    - destruct (Z.ltb_spec 0 (chunkOffset st)) as [Hpos|Hnon].
      + rewrite andb_false_r. split; [discriminate|lia].
      + destruct Hh as [->|Hpos]; [|lia]. split; [intros _; exact Hnon|reflexivity].
    - apply Z.leb_gt. exact Hoff.
    - split; [lia|]. unfold chunkSizeAt.
      destruct (Z.ltb_spec (chunkOffset st + C) totalSize); lia.
    - lia.
    - lia.
    - lia.
    - auto. }
  apply (run_ind
           (fun st evs r =>
              headers st = true \/ 0 < chunkOffset st ->
              forall q, In q (chunkRequests evs) ->
                (initialChunkHeaders q = true <-> streamStart q <= 0)
                /\ fileCompleted q = false
                /\ 1 <= chunkLength q <= C
                /\ chunkOffset st <= streamStart q
                /\ streamEnd q = streamStart q + chunkLength q - 1
                /\ streamEnd q < totalSize
                /\ replaceAsset q = replace
                /\ fileOffset q = (if C <? totalSize then Some (streamStart q) else None)
                /\ fileLength q = totalSize)).
  - intros st _ _ q [].
  - intros st e Ht _ Hh q Hq. now apply Hfirst.
  - intros fuel st st' tevs rest r Ht Hturn _ IH Hh q Hq.
    destruct (loopTest_true _ st Ht) as [Hoff _].
    pose proof (chunkSizeAt_bounds totalSize C (chunkOffset st) HC Hoff) as Hcs.
    destruct (turn_next_state st st' tevs Hturn) as (_ & Hh' & Ho & _).
    destruct (chunkRequests_onchunk_events _ _ _ _ _ _ _ _ _ _ Hturn) as [Hq0 _].
    rewrite !chunkRequests_app, Hq0, app_nil_l in Hq.
    apply in_app_or in Hq as [Hq|Hq]; [now apply Hfirst|].
    assert (Hle : chunkOffset st <= chunkOffset st').
    { rewrite Ho. destruct (chunkSucceeds (env_chunk env (issued st))); lia. }
    assert (Hinv : headers st' = true \/ 0 < chunkOffset st').
    { destruct (headers st') eqn:Hs; [now left|right].
      symmetry in Hh'. apply andb_false_iff in Hh' as [Hs'|Hs'].
      - destruct Hh as [Hh|Hh]; [congruence|lia].
      - apply negb_false_iff, Z.ltb_lt in Hs'. lia. }
    destruct (IH Hinv q Hq) as (H1 & H2 & H3 & H4 & H5).
    repeat split; try tauto; try lia.
Qed.

(** Every call of [onChunk] of a run gets the total size of the file and,
    as the next offset, the offset the run started from plus the bytes of
    the requests so far that ended well. *)
Lemma loop_onChunk_offsets (fuel : nat) (st : LoopState) (evs : list Event)
  (r : option ChunkError) :
  loop fuel st = Some (evs, r) ->
  forall (k : nat) (next total : Z) (cancel : bool),
    evs !! k = Some (OnChunk next total cancel) ->
    total = totalSize
    /\ next = chunkOffset st + bytesSent env (issued st) (chunkRequests (take k evs)).
Proof.
  revert fuel st evs r.
  apply (run_ind
           (fun st evs r =>
              forall (k : nat) (next total : Z) (cancel : bool),
                evs !! k = Some (OnChunk next total cancel) ->
                total = totalSize
                /\ next = chunkOffset st
                          + bytesSent env (issued st) (chunkRequests (take k evs)))).
  - intros st _ k next total cancel Hk. now rewrite lookup_nil in Hk.
  - intros st e _ _ k next total cancel Hk. exfalso.
    apply list_elem_of_lookup_2, list_elem_of_In in Hk.
    exact (turnEvents_no_onChunk st _ _ _ Hk).
  - intros fuel st st' tevs rest r _ Hturn _ IH k next total cancel Hk.
    destruct (turn_next_state st st' tevs Hturn) as (Hi & _ & Ho & Hev).
    apply lookup_app_Some in Hk as [Hk|[Hlen Hk]].
    { exfalso. apply list_elem_of_lookup_2, list_elem_of_In in Hk.
      exact (turnEvents_no_onChunk st _ _ _ Hk). }
    rewrite (take_app_ge (turnEvents st) _ k Hlen), chunkRequests_app, bytesSent_turn.
    apply lookup_app_Some in Hk as [Hk|[Hlen' Hk]].
    + destruct Hev as [(-> & _)|(c & -> & _)]; [now rewrite lookup_nil in Hk|].
      destruct (k - length (turnEvents st))%nat as [|j] eqn:Hj; [|discriminate].
      injection Hk as <- <- <-. simpl. split; [reflexivity|lia].
    + rewrite (take_app_ge tevs _ _ Hlen'), chunkRequests_app.
      destruct (chunkRequests_onchunk_events _ _ _ _ _ _ _ _ _ _ Hturn) as [-> _].
      rewrite app_nil_l, <- Hi.
      destruct (IH _ next total cancel Hk) as [-> ->]. split; [reflexivity|lia].
Qed.

(** With [onChunk] given and [maxRetries] positive, [onChunk] is called
    after every request but the one whose error ends the loop; without
    [onChunk] nothing is called. *)
Lemma loop_onChunk_count (fuel : nat) (st : LoopState) (evs : list Event)
  (r : option ChunkError) :
  loop fuel st = Some (evs, r) ->
  (onChunkOption = None -> onChunkCalls evs = [])
  /\ (onChunkOption <> None -> 0 < maxR ->
      length (chunkRequests evs)
      = (length (onChunkCalls evs) + match r with Some _ => 1 | None => 0 end)%nat).
Proof.
  revert fuel st evs r.
  apply (run_ind
           (fun st evs r =>
              (onChunkOption = None -> onChunkCalls evs = [])
              /\ (onChunkOption <> None -> 0 < maxR ->
                  length (chunkRequests evs)
                  = (length (onChunkCalls evs)
                     + match r with Some _ => 1 | None => 0 end)%nat))).
  - intros st _. split; reflexivity.
  - intros st e _ _. rewrite onChunkCalls_turnEvents, chunkRequests_turnEvents.
    split; reflexivity.
  - intros fuel st st' tevs rest r _ Hturn _ [IHn IHs].
    destruct (turn_next_state st st' tevs Hturn) as (_ & _ & _ & Hev).
    rewrite !onChunkCalls_app, !chunkRequests_app, onChunkCalls_turnEvents,
      chunkRequests_turnEvents.
    split.
    + intros Hn. destruct Hev as [(-> & _)|(c & _ & _ & Hsome)]; [|contradiction].
      simpl. auto.
    + intros Hsome Hmax. specialize (IHs Hsome Hmax).
      destruct Hev as [(_ & _ & [Hn|Hle])|(c & -> & _)]; [contradiction|lia|].
      simpl. now rewrite IHs.
Qed.

(** *** Reports of progress along a run *)

Lemma progressReports_app (a b : list Event) :
  progressReports (a ++ b) = progressReports a ++ progressReports b.
Proof.
  induction a as [|e a IH]; simpl; [reflexivity|].
  destruct e; simpl; now rewrite IH.
Qed.

Lemma progressReports_turnEvents (st : LoopState) :
  progressReports (turnEvents st)
  = map (progressCallback (chunkOffset st) (chunkSizeAt (chunkOffset st) totalSize C))
      (env_progress env (issued st)).
Proof.
  unfold chunkTurn, turnUpload, uploadChunk. simpl.
  induction (env_progress env (issued st)) as [|p ps IH]; simpl; [reflexivity|].
  now rewrite IH.
Qed.

(** Every report of progress of a run is the report of the monitor for
    one of its requests, rewritten with the offset and the size of the chunk
    of that request; [off0] is the offset the upload starts from. *)
Lemma loop_progress_reports (off0 : Z) (fuel : nat) (st : LoopState) (evs : list Event)
  (r : option ChunkError) :
  loop fuel st = Some (evs, r) ->
  (chunkOffset st = off0 + C * succeededBefore env (issued st)
   \/ totalSize <= chunkOffset st) ->
  forall p, In p (progressReports evs) ->
    exists (n : nat) (q : Progress),
      In q (env_progress env n)
      /\ off0 + C * succeededBefore env n < totalSize
      /\ p = progressCallback (off0 + C * succeededBefore env n)
               (chunkSizeAt (off0 + C * succeededBefore env n) totalSize C) q.
Proof.
  revert fuel st evs r.
  assert (Hfirst : forall st,
             test st = true ->
             (chunkOffset st = off0 + C * succeededBefore env (issued st)
              \/ totalSize <= chunkOffset st) ->
             forall p, In p (progressReports (turnEvents st)) ->
               exists (n : nat) (q : Progress),
                 In q (env_progress env n)
                 /\ off0 + C * succeededBefore env n < totalSize
                 /\ p = progressCallback (off0 + C * succeededBefore env n)
                          (chunkSizeAt (off0 + C * succeededBefore env n) totalSize C) q).
  { intros st Ht Hoff p Hp. destruct (loopTest_true _ st Ht) as [Hlt _].
    destruct Hoff as [Hoff|Hoff]; [|lia].
    rewrite progressReports_turnEvents in Hp.
    apply in_map_iff in Hp as (q & <- & Hq).
    exists (issued st), q. rewrite <- Hoff. auto. }
  apply (run_ind
           (fun st evs r =>
              (chunkOffset st = off0 + C * succeededBefore env (issued st)
               \/ totalSize <= chunkOffset st) ->
              forall p, In p (progressReports evs) ->
                exists (n : nat) (q : Progress),
                  In q (env_progress env n)
                  /\ off0 + C * succeededBefore env n < totalSize
                  /\ p = progressCallback (off0 + C * succeededBefore env n)
                           (chunkSizeAt (off0 + C * succeededBefore env n) totalSize C) q)).
  - intros st _ _ p [].
  - intros st e Ht _ Hoff p Hp. exact (Hfirst st Ht Hoff p Hp).
  - intros fuel st st' tevs rest r Ht Hturn _ IH Hoff p Hp.
    rewrite !progressReports_app in Hp.
    apply in_app_or in Hp as [Hp|Hp]; [exact (Hfirst st Ht Hoff p Hp)|].
    apply in_app_or in Hp as [Hp|Hp].
    { exfalso. destruct (turn_next_state st st' tevs Hturn)
        as (_ & _ & _ & [(-> & _)|(c & -> & _)]); simpl in Hp; tauto. }
    apply IH; [|exact Hp].
    destruct (loopTest_true _ st Ht) as [Hlt _].
    destruct Hoff as [Hoff|Hoff]; [|lia].
    destruct (turn_next_state st st' tevs Hturn) as (Hi & _ & Ho & _).
    rewrite Hi, Ho. simpl. unfold chunkSizeAt.
    destruct (chunkSucceeds (env_chunk env (issued st)));
      [destruct (Z.ltb_spec (chunkOffset st + C) totalSize)|]; lia.
Qed.

End UploadLoopTrace.

(** ** More on the chunked upload as a whole *)

Section ChunkedUploadTrace.

Import DAM DAMTrace.

Variable share : Share.
Variables remotePath localPath : string.
Variable replace : bool.
Variable opts : ChunkOptions.
Variable env : Env.

Local Abbreviation C := (chunkSizeFixedOf (config share)).
Local Abbreviation maxR := (maxRetriesOf (config share)).
Local Abbreviation from := (orDefault (fromOffset opts) 0).
Local Abbreviation path := (unicodeNormalize share remotePath).
Local Abbreviation method := (if replace then "PUT" else "POST")%string.
Local Abbreviation eventPath := (if includeLocalPath opts then Some localPath else None).

(** X9. With a positive chunk size, the bytes of the chunk requests of an
    upload that ended well (status 200 or 201) are never more than what the
    file has from [fromOffset] on. They are exactly that, [size - fromOffset]
    (nothing when [fromOffset] is at or past the end), when the loop ends
    without error and no call of [onChunk] asked to cancel: no byte is
    skipped and none is counted twice, whatever requests failed and were
    sent again on the way. They are less than that when the loop ends with
    an error. *)
Theorem X9_bytes_uploaded :
  forall (size : Z) (fuel : nat) (evs : list Event) (r : option ChunkError),
    0 < C ->
    uploadLoop share replace opts env size fuel = Some (evs, r) ->
    0 <= bytesSent env 0 (chunkRequests evs) <= Z.max 0 (size - from)
    /\ (r = None -> cancelled evs = false ->
        bytesSent env 0 (chunkRequests evs) = Z.max 0 (size - from))
    /\ (r <> None -> bytesSent env 0 (chunkRequests evs) < size - from).
Proof.
  intros size fuel evs r HC Hrun. unfold uploadLoop in Hrun.
  destruct (loop_bytesSent _ _ _ _ _ _ _ _ _ _ _ HC Hrun) as (Hb & Hall & Herr).
  simpl in Hb, Hall, Herr. auto.
Qed.

(** X10. The headers [x-chunked-content-type] and [x-chunked-total-size]
    are set once on the request options that all chunk requests of an
    upload share, and deleted from them by the first request whose offset is
    past zero. With a positive chunk size a chunk request of an upload
    carries them exactly when it starts at offset zero: every attempt at the
    first chunk of a file uploaded from its beginning has them, and no later
    chunk and no request of an upload resumed from a positive [fromOffset]
    does. *)
Theorem X10_first_chunk_headers :
  forall (size : Z) (fuel : nat) (evs : list Event) (r : option ChunkError)
         (q : ChunkRequest),
    0 < C ->
    uploadLoop share replace opts env size fuel = Some (evs, r) ->
    In q (chunkRequests evs) ->
    (initialChunkHeaders q = true <-> streamStart q <= 0)
    /\ (0 < from -> initialChunkHeaders q = false).
Proof.
  intros size fuel evs r q HC Hrun Hq. unfold uploadLoop in Hrun.
  destruct (loop_requests_wellformed _ _ _ _ _ _ _ _ _ _ _ HC Hrun (or_introl eq_refl) q Hq)
    as (Hh & _ & _ & Hfrom & _).
  split; [exact Hh|]. simpl in Hfrom. intros Hpos.
  destruct (initialChunkHeaders q); [|reflexivity].
  pose proof (proj1 Hh eq_refl). lia.
Qed.

(** X11. With a positive chunk size, every chunk request of an upload is
    for a range of the file that is not empty: its chunk has at least one
    byte and at most [C], it starts at or after [fromOffset], the read
    stream goes from the offset to the last byte of the chunk, and that byte
    is within the file. The form carries the total size and [replaceAsset]
    exactly for an update; it carries [file@Offset] exactly when the file is
    larger than [C]; [file@Completed] is never sent. *)
Theorem X11_chunk_request_fields :
  forall (size : Z) (fuel : nat) (evs : list Event) (r : option ChunkError)
         (q : ChunkRequest),
    0 < C ->
    uploadLoop share replace opts env size fuel = Some (evs, r) ->
    In q (chunkRequests evs) ->
    fileCompleted q = false
    /\ 1 <= chunkLength q <= C
    /\ from <= streamStart q
    /\ streamEnd q = streamStart q + chunkLength q - 1
    /\ streamEnd q < size
    /\ replaceAsset q = replace
    /\ fileOffset q = (if C <? size then Some (streamStart q) else None)
    /\ fileLength q = size.
Proof.
  intros size fuel evs r q HC Hrun Hq. unfold uploadLoop in Hrun.
  destruct (loop_requests_wellformed _ _ _ _ _ _ _ _ _ _ _ HC Hrun (or_introl eq_refl) q Hq)
    as (_ & H). exact H.
Qed.

(** X12. Every call of [onChunk] gets the size of the file and, as the
    next offset, [fromOffset] plus the bytes of the chunk requests so far
    that ended well: the offset from which a later upload can take up the
    file. After a failed request that is the offset of the chunk that
    failed. When [onChunk] is given and [maxRetries] is positive it is
    called once after every chunk request, but for the request whose error
    ends the upload; when it is not given nothing is called. *)
Theorem X12_onChunk_calls :
  forall (size : Z) (fuel : nat) (evs : list Event) (r : option ChunkError),
    uploadLoop share replace opts env size fuel = Some (evs, r) ->
    (forall (k : nat) (next total : Z) (cancel : bool),
        evs !! k = Some (OnChunk next total cancel) ->
        total = size
        /\ next = from + bytesSent env 0 (chunkRequests (take k evs)))
    /\ (onChunk opts = None -> onChunkCalls evs = [])
    /\ (onChunk opts <> None -> 0 < maxR ->
        length (chunkRequests evs)
        = (length (onChunkCalls evs) + match r with Some _ => 1 | None => 0 end)%nat).
Proof.
  intros size fuel evs r Hrun. unfold uploadLoop in Hrun.
  split; [|exact (loop_onChunk_count _ _ _ _ _ _ _ _ _ _ _ Hrun)].
  intros k next total cancel Hk.
  exact (loop_onChunk_offsets _ _ _ _ _ _ _ _ _ _ _ Hrun k next total cancel Hk).
Qed.

(** X13. An upload that has nothing to send, the file being empty or
    [fromOffset] being at or past its end, issues no chunk request and sets
    no timer, whatever the remote would answer: it emits the sync-file
    start, invalidates the content cache of the parent folder, emits the
    sync-file end and calls back without error. *)
Theorem X13_nothing_to_upload :
  forall (size : Z) (fuel : nat),
    replace = false \/ env_isReadOnly env = ReadOnlyAnswer false ->
    env_stat env = StatSize size ->
    size <= from ->
    doChunkUpload share remotePath localPath replace opts env fuel
    = Some [SyncFileStart path method eventPath;
            InvalidateContentCache (PathClassifier.parentOf path) true;
            SyncFileEnd path method eventPath;
            CallerCallback None].
Proof.
  intros size fuel Hpre Hstat Hle.
  rewrite (doChunkUpload_started share remotePath localPath replace opts env size fuel
             Hpre Hstat).
  unfold uploadLoop. rewrite loop_stop; [reflexivity|].
  unfold loopTest. simpl. apply andb_false_iff. left. now apply Z.ltb_ge.
Qed.

(** X22. Every sync-file progress that an upload emits is a report of the
    transfer monitor for one of its chunk requests, with its total and its
    rate, and with a read of: the monitor's count, plus the offset of the
    chunk, minus the size of the chunk. As the monitor counts the bytes of
    the chunk's stream, at most the size of the chunk, the read that is
    emitted is at most the offset at which the chunk starts: the bytes of
    the chunk in flight are never in it, and it stays below the size of the
    file even when the last byte has been read. *)
Theorem X22_progress_stays_behind :
  forall (size : Z) (fuel : nat) (evs : list Event) (r : option ChunkError) (p : Progress),
    uploadLoop share replace opts env size fuel = Some (evs, r) ->
    In p (progressReports evs) ->
    exists (n : nat) (q : Progress),
      let offset := from + C * succeededBefore env n in
      let length := chunkSizeAt offset size C in
      In q (env_progress env n)
      /\ total p = total q /\ rate p = rate q
      /\ read p = read q + offset - length
      /\ offset < size
      /\ (read q <= length -> read p <= offset /\ read p < size).
Proof.
  intros size fuel evs r p Hrun Hp. unfold uploadLoop in Hrun.
  destruct (loop_progress_reports _ _ _ _ _ _ _ from _ _ _ _ Hrun
              ltac:(left; simpl; lia) p Hp) as (n & q & Hq & Hlt & ->).
  exists n, q. simpl. repeat split; auto; lia.
Qed.

End ChunkedUploadTrace.

Lemma X9_bytes_uploaded_witness :
  0 < DAM.chunkSizeFixedOf (DAM.config Examples.dam_share_1mb)
  /\ exists evs,
       DAM.uploadLoop Examples.dam_share_1mb false DAM.noOptions Examples.env_retry_once
         2621440 10 = Some (evs, None)
       /\ length (DAM.chunkRequests evs) = 4%nat
       /\ DAMTrace.bytesSent Examples.env_retry_once 0 (DAM.chunkRequests evs) = 2621440.
Proof.
  split; [reflexivity|]. eexists. split; [vm_compute; reflexivity|].
  split; [reflexivity|].
  exact (proj1 (proj2 (X9_bytes_uploaded Examples.dam_share_1mb false DAM.noOptions
                         Examples.env_retry_once 2621440 10 _ None eq_refl eq_refl))
           eq_refl eq_refl).
Defined.

Lemma X10_first_chunk_headers_witness :
  0 < DAM.chunkSizeFixedOf (DAM.config Examples.dam_share_1mb)
  /\ exists evs,
       DAM.uploadLoop Examples.dam_share_1mb false DAM.noOptions Examples.env_retry_once
         2621440 10 = Some (evs, None)
       /\ map DAM.initialChunkHeaders (DAM.chunkRequests evs) = [true; false; false; false]
       /\ forall q, In q (DAM.chunkRequests evs) ->
            DAM.initialChunkHeaders q = true <-> DAM.streamStart q <= 0.
Proof.
  split; [reflexivity|]. eexists. split; [vm_compute; reflexivity|].
  split; [reflexivity|]. intros q Hq.
  exact (proj1 (X10_first_chunk_headers Examples.dam_share_1mb false DAM.noOptions
                  Examples.env_retry_once 2621440 10 _ None q eq_refl eq_refl Hq)).
Defined.

Lemma X11_chunk_request_fields_witness :
  0 < DAM.chunkSizeFixedOf (DAM.config Examples.dam_share_1mb)
  /\ exists evs,
       DAM.uploadLoop Examples.dam_share_1mb false DAM.noOptions Examples.env_retry_once
         2621440 10 = Some (evs, None)
       /\ map DAM.streamEnd (DAM.chunkRequests evs) = [1048575; 2097151; 2097151; 2621439]
       /\ forall q, In q (DAM.chunkRequests evs) ->
            DAM.fileCompleted q = false /\ DAM.streamEnd q < 2621440.
Proof.
  split; [reflexivity|]. eexists. split; [vm_compute; reflexivity|].
  split; [reflexivity|]. intros q Hq.
  destruct (X11_chunk_request_fields Examples.dam_share_1mb false DAM.noOptions
              Examples.env_retry_once 2621440 10 _ None q eq_refl eq_refl Hq)
    as (H1 & _ & _ & _ & H5 & _).
  split; [exact H1|exact H5].
Defined.

Lemma X12_onChunk_calls_witness :
  exists evs,
    DAM.uploadLoop Examples.dam_share_1mb false Examples.cancel_from_1mb Examples.env_10mb
      (10 * 1024 * 1024) 10 = Some (evs, None)
    /\ DAMTrace.onChunkCalls evs = [(2 * 1024 * 1024, 10 * 1024 * 1024, true)]
    /\ forall (k : nat) (next total : Z) (cancel : bool),
         evs !! k = Some (DAM.OnChunk next total cancel) ->
         total = 10 * 1024 * 1024
         /\ next = 1024 * 1024
                   + DAMTrace.bytesSent Examples.env_10mb 0 (DAM.chunkRequests (take k evs)).
Proof.
  eexists. split; [vm_compute; reflexivity|]. split; [reflexivity|].
  exact (proj1 (X12_onChunk_calls Examples.dam_share_1mb false Examples.cancel_from_1mb
                  Examples.env_10mb (10 * 1024 * 1024) 10 _ None eq_refl)).
Defined.

Lemma X13_nothing_to_upload_witness :
  DAM.env_stat Examples.env_progress_5 = DAM.StatSize 5
  /\ 5 <= DAM.orDefault (DAM.fromOffset (DAM.mkChunkOptions (Some 5) None false)) 0
  /\ DAM.doChunkUpload Examples.dam_share "/folder/u.jpg" "/local/u.jpg" false
       (DAM.mkChunkOptions (Some 5) None false) Examples.env_progress_5 0
     = Some [DAM.SyncFileStart "/folder/u.jpg" "POST" None;
             DAM.InvalidateContentCache "/folder" true;
             DAM.SyncFileEnd "/folder/u.jpg" "POST" None;
             DAM.CallerCallback None].
Proof.
  split; [reflexivity|]. split; [vm_compute; discriminate|].
  exact (X13_nothing_to_upload Examples.dam_share "/folder/u.jpg" "/local/u.jpg" false
           (DAM.mkChunkOptions (Some 5) None false) Examples.env_progress_5 5 0
           (or_introl eq_refl) eq_refl ltac:(vm_compute; discriminate)).
Defined.

Lemma X22_progress_stays_behind_witness :
  exists evs,
    DAM.uploadLoop Examples.dam_share false DAM.noOptions Examples.env_progress_5 5 10
    = Some (evs, None)
    /\ DAM.progressReports evs = [DAM.mkProgress (-3) 5 1; DAM.mkProgress 0 5 1]
    /\ forall p, In p (DAM.progressReports evs) ->
         exists (n : nat) (q : DAM.Progress),
           In q (DAM.env_progress Examples.env_progress_5 n)
           /\ DAM.read p
              = DAM.read q
                + (0 + 10485760 * DAM.succeededBefore Examples.env_progress_5 n)
                - DAM.chunkSizeAt
                    (0 + 10485760 * DAM.succeededBefore Examples.env_progress_5 n) 5 10485760.
Proof.
  eexists. split; [vm_compute; reflexivity|]. split; [reflexivity|].
  intros p Hp.
  destruct (X22_progress_stays_behind Examples.dam_share false DAM.noOptions
              Examples.env_progress_5 5 10 _ None p eq_refl Hp)
    as (n & q & Hq & _ & _ & Hread & _).
  exists n, q. split; [exact Hq|exact Hread].
Defined.

(** ** The dot-file guard, exactly *)

Section DotGuard.

Import PathClassifier DAM.

(** X14. [checkDotFile] refuses a path exactly when a slash-delimited
    segment after the first begins with a period: the regular expression
    wants a slash before the period, so on a path that does not begin with
    a slash a period at the start of the first segment goes unnoticed. A
    path that is not refused costs no event, and [_createFileResource] and
    [_updateResource] then are: the chunked upload (as a creation with the
    options given, as an update with no options) when a local path is given
    and not empty, and the method of the JCR share otherwise. *)
Theorem X14_dot_guard_exact :
  forall (share : Share) (path : string) (localPath : option string)
         (options : option ChunkOptions) (env : Env) (fuel : nat),
    (forall method lp opts,
        fst (checkDotFile path method lp opts) = existsb beginsWithDot (tl (segments path)))
    /\ (existsb beginsWithDot (tl (segments path)) = false ->
        (forall method lp opts, checkDotFile path method lp opts = (false, []))
        /\ createFileResource share path localPath options env fuel
           = match truthyPath localPath with
             | Some lp =>
                 doChunkUpload share path lp false
                   match options with Some o => o | None => noOptions end env fuel
             | None => Some (jcrCreateFileResource share path)
             end
        /\ updateResource share path localPath env fuel
           = match truthyPath localPath with
             | Some lp => doChunkUpload share path lp true noOptions env fuel
             | None => Some (jcrUpdateResource share path)
             end).
Proof.
  intros share path localPath options env fuel. split.
  - intros method lp opts. unfold checkDotFile.
    rewrite <- matchesSlashDot_segments. now destruct (matchesSlashDot path).
  - intros Hno. rewrite <- matchesSlashDot_segments in Hno.
    unfold createFileResource, updateResource, checkDotFile. rewrite Hno.
    repeat split.
Qed.

Lemma X14_dot_guard_exact_witness :
  existsb beginsWithDot (tl (segments ".hidden/asset.jpg")) = false
  /\ hasDotSegment ".hidden/asset.jpg" = true
  /\ checkDotFile ".hidden/asset.jpg" "POST" None noOptions = (false, []).
Proof.
  split; [reflexivity|]. split; [reflexivity|].
  exact (proj1 (proj2 (X14_dot_guard_exact Examples.dam_share ".hidden/asset.jpg" None None
                         Examples.env_all_fail 0) eq_refl) "POST" None noOptions).
Defined.

End DotGuard.

(** ** The content of a path and the checked-out status *)

Section Content.

Import DAM DAMContent.

Variable w : World.

(** No entity of the list has properties with the name looked for. *)
Local Abbreviation noneNamed name entities :=
  (Forall (fun x => entityNamed w name x = false) entities).

Lemma findEntity_Some (name : string) (entities : list Content) (e : Content) :
  findEntity w name entities = Some e
  <-> exists before after,
        entities = before ++ e :: after
        /\ entityNamed w name e = true
        /\ noneNamed name before.
Proof.
  induction entities as [|x rest IH]; simpl.
  - split; [discriminate|]. intros (before & after & Heq & _). now destruct before.
  - destruct (entityNamed w name x) eqn:Hx.
    + split.
      * intros [= <-]. exists [], rest. auto.
      * intros (before & after & Heq & He & Hb).
        destruct before as [|y before]; simpl in Heq; injection Heq as <- Hrest.
        -- reflexivity.
        -- apply Forall_cons in Hb as [Hy _]. congruence.
    + rewrite IH. split.
      * intros (before & after & -> & He & Hb). exists (x :: before), after. auto.
      * intros (before & after & Heq & He & Hb).
        destruct before as [|y before]; simpl in Heq; injection Heq as <- Hrest.
        -- congruence.
        -- apply Forall_cons in Hb as [_ Hb]. eauto.
Qed.

Lemma findEntity_None (name : string) (entities : list Content) :
  findEntity w name entities = None <-> noneNamed name entities.
Proof.
  induction entities as [|x rest IH]; simpl.
  - split; auto.
  - destruct (entityNamed w name x) eqn:Hx.
    + split; [discriminate|]. intros H. apply Forall_cons in H as [H _]. congruence.
    + rewrite IH. split; [auto|]. intros H. now apply Forall_cons in H as [_ H].
Qed.

(** [getContent] of a path that is not its own parent, the listing of the
    parent having entities. *)
Lemma getContent_entities (path : string) (force : bool) (pc : Content)
  (entities : list Content) :
  getParentPath w path <> path ->
  folderList w (getParentPath w path) force = inr (Some pc) ->
  entitiesOf pc = Some entities ->
  getContent w path false force = inr (findEntity w (getPathName w path) entities).
Proof.
  intros Hroot Hlist Hent. unfold getContent. rewrite Hlist.
  destruct (String.eqb_spec (getParentPath w path) path) as [Heq|_]; [contradiction|].
  now rewrite Hent.
Qed.

(** X15. [getContent] of a single path (not deep) asks for the listing of
    the parent folder and makes no request of its own. For the root, which
    is its own parent, the answer is that listing. For any other path: an
    error of the listing is passed on; a listing that is null or has no
    entities gives null; otherwise the answer is the first entity of the
    listing that has properties and whose name [unicodeEquals] finds equal
    to the name of the path, later entities of that name being ignored, and
    null when no entity has the name. *)
Theorem X15_getContent_of_entity :
  forall (path : string) (force : bool),
    (getParentPath w path = path ->
     getContent w path false force = folderList w path force)
    /\ (getParentPath w path <> path ->
        (forall err, folderList w (getParentPath w path) force = inl err ->
                     getContent w path false force = inl err)
        /\ (folderList w (getParentPath w path) force = inr None ->
            getContent w path false force = inr None)
        /\ (forall pc, folderList w (getParentPath w path) force = inr (Some pc) ->
                       entitiesOf pc = None ->
                       getContent w path false force = inr None)
        /\ (forall pc entities,
               folderList w (getParentPath w path) force = inr (Some pc) ->
               entitiesOf pc = Some entities ->
               (forall e, getContent w path false force = inr (Some e)
                          <-> exists before after,
                                entities = before ++ e :: after
                                /\ entityNamed w (getPathName w path) e = true
                                /\ noneNamed (getPathName w path) before)
               /\ (getContent w path false force = inr None
                   <-> noneNamed (getPathName w path) entities))).
Proof.
  intros path force. split.
  - intros Hroot. unfold getContent. rewrite Hroot.
    destruct (folderList w path force) as [err|c]; [reflexivity|].
    now rewrite String.eqb_refl.
  - intros Hroot.
    assert (Hne : String.eqb (getParentPath w path) path = false)
      by (now apply String.eqb_neq).
    split; [|split; [|split]].
    + intros err Hlist. unfold getContent. now rewrite Hlist.
    + intros Hlist. unfold getContent. now rewrite Hlist, Hne.
    + intros pc Hlist Hent. unfold getContent. now rewrite Hlist, Hne, Hent.
    + intros pc entities Hlist Hent.
      rewrite (getContent_entities path force pc entities Hroot Hlist Hent). split.
      * intros e. rewrite <- findEntity_Some. split; [now intros [= ->]|now intros ->].
      * rewrite <- findEntity_None. split; [now intros [= ->]|now intros ->].
Qed.

(** [getContent] of a path that is not its own parent, by the listing of
    the parent. *)
Lemma getContent_cases (path : string) (force : bool) :
  getParentPath w path <> path ->
  getContent w path false force
  = match folderList w (getParentPath w path) force with
    | inl err => inl err
    | inr None => inr None
    | inr (Some pc) =>
        match entitiesOf pc with
        | None => inr None
        | Some entities => inr (findEntity w (getPathName w path) entities)
        end
    end.
Proof.
  intros Hroot. unfold getContent.
  destruct (folderList w (getParentPath w path) force) as [err|[pc|]]; [reflexivity| |].
  - destruct (String.eqb_spec (getParentPath w path) path) as [Heq|_]; [contradiction|].
    reflexivity.
  - destruct (String.eqb_spec (getParentPath w path) path) as [Heq|_]; [contradiction|].
    reflexivity.
Qed.

(** X16. [isReadOnly] of a path that is not the root always has the
    listing of the parent folder refreshed. It fails exactly when that
    listing fails, with the error of the listing. It answers that the path
    is checked out exactly when the listing has entities and the first
    entity that carries the name of the path has a truthy [asset:readonly];
    so a path that the listing does not have, or whose folder is not found,
    is not checked out. *)
Theorem X16_isReadOnly_iff :
  forall path : string,
    getParentPath w path <> path ->
    (forall err, isReadOnly w path = inl err
                 <-> folderList w (getParentPath w path) true = inl err)
    /\ (isReadOnly w path = inr true
        <-> exists pc before e after,
              folderList w (getParentPath w path) true = inr (Some pc)
              /\ entitiesOf pc = Some (before ++ e :: after)
              /\ entityNamed w (getPathName w path) e = true
              /\ noneNamed (getPathName w path) before
              /\ readOnlyProperty e = true)
    /\ (folderList w (getParentPath w path) true = inr None ->
        isReadOnly w path = inr false)
    /\ (forall pc,
          folderList w (getParentPath w path) true = inr (Some pc) ->
          noneNamed (getPathName w path)
            match entitiesOf pc with Some l => l | None => [] end ->
          isReadOnly w path = inr false).
Proof.
  intros path Hroot. unfold isReadOnly. rewrite (getContent_cases path true Hroot).
  destruct (folderList w (getParentPath w path) true) as [err0|[pc|]] eqn:Hlist.
  - split; [|split; [|split]].
    + intros err. split; intros [= ->]; reflexivity.
    + split; [discriminate|]. intros (pc & b & e & a & Hl & _). discriminate.
    + discriminate.
    + discriminate.
  - destruct (entitiesOf pc) as [entities|] eqn:Hent.
    + destruct (findEntity w (getPathName w path) entities) as [e|] eqn:Hfind.
      * split; [|split; [|split]].
        -- intros err. split; discriminate.
        -- split.
           ++ intros [= Hro]. apply findEntity_Some in Hfind as (b & a & -> & He & Hb).
              exists pc, b, e, a. auto.
           ++ intros (pc' & b & e' & a & [= <-] & Hent' & He & Hb & Hro).
              rewrite Hent in Hent'. injection Hent' as ->.
              assert (Hsome : findEntity w (getPathName w path) (b ++ e' :: a) = Some e')
                by (apply findEntity_Some; eauto).
              rewrite Hfind in Hsome. injection Hsome as ->. now rewrite Hro.
        -- discriminate.
        -- intros pc' [= <-]. rewrite Hent. intros Hnone.
           apply findEntity_None in Hnone. congruence.
      * split; [|split; [|split]].
        -- intros err. split; discriminate.
        -- split; [discriminate|].
           intros (pc' & b & e' & a & [= <-] & Hent' & He & Hb & Hro).
           rewrite Hent in Hent'. injection Hent' as ->.
           assert (Hsome : findEntity w (getPathName w path) (b ++ e' :: a) = Some e')
             by (apply findEntity_Some; eauto).
           congruence.
        -- discriminate.
        -- reflexivity.
    + split; [|split; [|split]].
      * intros err. split; discriminate.
      * split; [discriminate|].
        intros (pc' & b & e' & a & [= <-] & Hent' & _). congruence.
      * discriminate.
      * reflexivity.
  - split; [|split; [|split]].
    + intros err. split; discriminate.
    + split; [discriminate|]. intros (pc & b & e & a & Hl & _). discriminate.
    + reflexivity.
    + discriminate.
Qed.

(** X17. The operations of the share fail closed on the checked-out
    status. When [isReadOnly] of a file answers that it is checked out, or
    fails, [_deleteResource] sends no request and emits no sync-file start:
    the callback gets an error. The same holds of the chunked upload of an
    update, which asks for the normalized path. [_deleteResource] of a
    directory never asks: what it does is the same whatever [isReadOnly]
    would answer. *)
Theorem X17_checked_out_fails_closed :
  forall (share : Share) (path localPath : string) (opts : ChunkOptions) (env : Env)
         (fuel : nat),
    (env_isReadOnly env = readOnlyResult w path ->
     isReadOnly w path <> inr false ->
     exists e,
       callbackResults (deleteResource share path true env) = [Some e]
       /\ count isHttpRequest (deleteResource share path true env) = 0%nat
       /\ count isStart (deleteResource share path true env) = 0%nat
       /\ count isErr (deleteResource share path true env) = 1%nat)
    /\ (env_isReadOnly env = readOnlyResult w (unicodeNormalize share path) ->
        isReadOnly w (unicodeNormalize share path) <> inr false ->
        exists evs e,
          doChunkUpload share path localPath true opts env fuel = Some evs
          /\ callbackResults evs = [Some e]
          /\ count isHttpRequest evs = 0%nat
          /\ count isStart evs = 0%nat
          /\ count isErr evs = 1%nat)
    /\ (forall env',
          env_delete env' = env_delete env ->
          deleteResource share path false env' = deleteResource share path false env).
Proof.
  intros share path localPath opts env fuel. split; [|split].
  - intros Henv Hro. unfold readOnlyResult in Henv.
    unfold deleteResource, checkDotFile.
    destruct (matchesSlashDot path); [eexists; repeat split|].
    rewrite Henv. destruct (isReadOnly w path) as [err|[|]]; [| |contradiction];
      eexists; repeat split.
  - intros Henv Hro. unfold readOnlyResult in Henv. unfold doChunkUpload. rewrite Henv.
    destruct (isReadOnly w (unicodeNormalize share path)) as [err|[|]]; [| |contradiction];
      eexists; eexists; repeat split.
  - intros env' Hdel. unfold deleteResource.
    destruct (checkDotFile path "DELETE" None noOptions) as [[|] evs]; [reflexivity|].
    now rewrite Hdel.
Qed.

(** X18. [parseContentChildEntries] hands to the iterator, in the order
    of the listing and once for each, exactly the entities that have a name
    that is not empty and the class of an asset or of a folder, each with
    its name; a content without entities hands over nothing. *)
Theorem X18_parseContentChildEntries_filter :
  forall content : Content,
    map snd (parseContentChildEntries w content)
    = List.filter
        (fun e => match truthyName e with Some _ => true | None => false end
                  && (isAssetClass w (Some e) || isFolderClass w (Some e)))
        match entitiesOf content with Some l => l | None => [] end
    /\ (forall nm e, In (nm, e) (parseContentChildEntries w content) ->
                     nm <> EmptyString
                     /\ (exists p, propertiesOf e = Some p /\ propName p = Some nm)
                     /\ (exists cls, classOf e = Some cls
                                     /\ (In (CLASS_ASSET w) cls \/ In (CLASS_FOLDER w) cls)))
    /\ (entitiesOf content = None -> parseContentChildEntries w content = []).
Proof.
  intros content. unfold parseContentChildEntries.
  split; [|split; [|now intros ->]].
  - induction (match entitiesOf content with Some l => l | None => [] end) as [|x rest IH];
      [reflexivity|].
    cbn [childEntries List.filter].
    destruct (truthyName x) as [nm|]; cbn [andb]; [|exact IH].
    destruct (isAssetClass w (Some x) || isFolderClass w (Some x)); [|exact IH].
    cbn [map snd]. now rewrite IH.
  - induction (match entitiesOf content with Some l => l | None => [] end) as [|x rest IH];
      [intros nm e []|].
    intros nm e Hin. cbn [childEntries] in Hin.
    destruct (truthyName x) as [nm'|] eqn:Hname; [|now apply IH].
    destruct (isAssetClass w (Some x) || isFolderClass w (Some x)) eqn:Hcls; [|now apply IH].
    destruct Hin as [[= <- <-]|Hin]; [|now apply IH].
    unfold truthyName in Hname.
    destruct (propertiesOf x) as [p|] eqn:Hp; [|discriminate].
    destruct (propName p) as [[|c r]|] eqn:Hn; try discriminate.
    injection Hname as <-.
    split; [discriminate|]. split; [eauto|].
    unfold isAssetClass, isFolderClass, hasClass in Hcls.
    destruct (classOf x) as [cls|]; [|discriminate]. exists cls. split; [reflexivity|].
    apply orb_true_iff in Hcls as [H|H]; apply existsb_exists in H as (c' & Hc & He);
      apply String.eqb_eq in He; subst c'; auto.
Qed.

End Content.

Lemma X15_getContent_of_entity_witness :
  DAMContent.getParentPath MoreExamples.dam_world "/folder/locked.jpg" <> "/folder/locked.jpg"
  /\ DAMContent.folderList MoreExamples.dam_world
       (DAMContent.getParentPath MoreExamples.dam_world "/folder/locked.jpg") false
     = inr (Some MoreExamples.folder_content)
  /\ DAMContent.getContent MoreExamples.dam_world "/folder/locked.jpg" false false
     = inr (Some MoreExamples.locked_asset).
Proof.
  assert (Hroot : DAMContent.getParentPath MoreExamples.dam_world "/folder/locked.jpg"
                  <> "/folder/locked.jpg") by (vm_compute; discriminate).
  split; [exact Hroot|]. split; [reflexivity|].
  apply (proj1 (proj2 (proj2 (proj2 (proj2 (X15_getContent_of_entity MoreExamples.dam_world
                                              "/folder/locked.jpg" false) Hroot)))
                 MoreExamples.folder_content _ eq_refl eq_refl)).
  exists [MoreExamples.bare_entity],
    [MoreExamples.unnamed_asset; MoreExamples.free_asset; MoreExamples.other_entity;
     MoreExamples.shadowed_asset; MoreExamples.sub_folder].
  split; [reflexivity|]. split; [reflexivity|]. repeat constructor.
Defined.

Lemma X16_isReadOnly_iff_witness :
  DAMContent.getParentPath MoreExamples.dam_world "/folder/locked.jpg" <> "/folder/locked.jpg"
  /\ DAMContent.isReadOnly MoreExamples.dam_world "/folder/locked.jpg" = inr true.
Proof.
  assert (Hroot : DAMContent.getParentPath MoreExamples.dam_world "/folder/locked.jpg"
                  <> "/folder/locked.jpg") by (vm_compute; discriminate).
  split; [exact Hroot|].
  apply (proj1 (proj2 (X16_isReadOnly_iff MoreExamples.dam_world "/folder/locked.jpg" Hroot))).
  exists MoreExamples.folder_content, [MoreExamples.bare_entity], MoreExamples.locked_asset,
    [MoreExamples.unnamed_asset; MoreExamples.free_asset; MoreExamples.other_entity;
     MoreExamples.shadowed_asset; MoreExamples.sub_folder].
  split; [reflexivity|]. split; [reflexivity|]. split; [reflexivity|].
  split; [repeat constructor|reflexivity].
Defined.

Lemma X17_checked_out_fails_closed_witness :
  DAM.env_isReadOnly (MoreExamples.env_of_world "/broken/a.jpg")
  = DAMContent.readOnlyResult MoreExamples.dam_world "/broken/a.jpg"
  /\ DAMContent.isReadOnly MoreExamples.dam_world "/broken/a.jpg" <> inr false
  /\ exists e,
       DAM.callbackResults
         (DAM.deleteResource Examples.dam_share "/broken/a.jpg" true
            (MoreExamples.env_of_world "/broken/a.jpg")) = [Some e]
       /\ DAM.count DAM.isHttpRequest
            (DAM.deleteResource Examples.dam_share "/broken/a.jpg" true
               (MoreExamples.env_of_world "/broken/a.jpg")) = 0%nat.
Proof.
  assert (Hro : DAMContent.isReadOnly MoreExamples.dam_world "/broken/a.jpg" <> inr false)
    by (vm_compute; discriminate).
  split; [reflexivity|]. split; [exact Hro|].
  destruct (proj1 (X17_checked_out_fails_closed MoreExamples.dam_world Examples.dam_share
                     "/broken/a.jpg" "/local/a.jpg" DAM.noOptions
                     (MoreExamples.env_of_world "/broken/a.jpg") 0) eq_refl Hro)
    as (e & Hcb & Hreq & _).
  exists e. split; [exact Hcb|exact Hreq].
Defined.

Lemma X18_parseContentChildEntries_filter_witness :
  In ("locked.jpg"%string, MoreExamples.locked_asset)
    (DAMContent.parseContentChildEntries MoreExamples.dam_world MoreExamples.folder_content)
  /\ map fst (DAMContent.parseContentChildEntries MoreExamples.dam_world
                MoreExamples.folder_content)
     = ["locked.jpg"; "free.jpg"; "locked.jpg"; "sub"]%string
  /\ exists p, DAMContent.propertiesOf MoreExamples.locked_asset = Some p
               /\ DAMContent.propName p = Some "locked.jpg"%string.
Proof.
  assert (Hin : In ("locked.jpg"%string, MoreExamples.locked_asset)
                  (DAMContent.parseContentChildEntries MoreExamples.dam_world
                     MoreExamples.folder_content)) by (left; reflexivity).
  split; [exact Hin|]. split; [reflexivity|].
  exact (proj1 (proj2 (proj1 (proj2 (X18_parseContentChildEntries_filter
                                       MoreExamples.dam_world MoreExamples.folder_content))
                         _ _ Hin))).
Defined.

(** ** The URL of the create-asset servlet *)

Section CreateAssetPath.

Import DAMContent.

Lemma endsWithSlash_app_slash (s : string) : endsWithSlash (s ++ "/") = true.
Proof.
  induction s as [|c s IH]; [reflexivity|].
  simpl. destruct s; [reflexivity|exact IH].
Qed.

Lemma dropLast_app_slash (s : string) : dropLast (s ++ "/") = s.
Proof.
  induction s as [|c s IH]; [reflexivity|].
  simpl. destruct s as [|c' s]; [reflexivity|]. simpl in *. now rewrite IH.
Qed.

Lemma endsWithSlash_inv (s : string) :
  endsWithSlash s = true -> exists prefix, s = (prefix ++ "/")%string.
Proof.
  induction s as [|c s IH]; [discriminate|].
  destruct s as [|c' s].
  - simpl. intros Hc. apply Ascii.eqb_eq in Hc as ->. now exists EmptyString.
  - intros H. destruct (IH H) as (prefix & Hp). exists (String c prefix).
    now rewrite Hp.
Qed.

(** X19. [buildCreateAssetPath] cuts one slash off the end of the URL of
    the path, if there is one, and appends [.createasset.html]: the URL of
    a folder gives the same result with and without a slash at its end, a
    URL that does not end with a slash (the empty one among them) is kept
    whole, and of several slashes at the end only the last is cut. *)
Theorem X19_buildCreateAssetPath_slash :
  forall (buildContentDamUrl : string -> string) (path : string),
    (forall prefix, buildContentDamUrl path = (prefix ++ "/")%string ->
                    buildCreateAssetPath buildContentDamUrl path
                    = (prefix ++ ".createasset.html")%string)
    /\ (endsWithSlash (buildContentDamUrl path) = false ->
        buildCreateAssetPath buildContentDamUrl path
        = (buildContentDamUrl path ++ ".createasset.html")%string)
    /\ exists kept,
         buildCreateAssetPath buildContentDamUrl path = (kept ++ ".createasset.html")%string
         /\ (buildContentDamUrl path = kept \/ buildContentDamUrl path = (kept ++ "/")%string).
Proof.
  intros url path. unfold buildCreateAssetPath. split; [|split].
  - intros prefix ->. now rewrite endsWithSlash_app_slash, dropLast_app_slash.
  - now intros ->.
  - destruct (endsWithSlash (url path)) eqn:Hs.
    + destruct (endsWithSlash_inv _ Hs) as (prefix & ->).
      rewrite dropLast_app_slash. exists prefix. auto.
    + exists (url path). auto.
Qed.

Lemma X19_buildCreateAssetPath_slash_witness :
  MoreExamples.local_dam_url "/folder/" = ("http://localhost:4502/content/dam/folder" ++ "/")%string
  /\ buildCreateAssetPath MoreExamples.local_dam_url "/folder/"
     = "http://localhost:4502/content/dam/folder.createasset.html"%string.
Proof.
  split; [reflexivity|].
  exact (proj1 (X19_buildCreateAssetPath_slash MoreExamples.local_dam_url "/folder/")
           "http://localhost:4502/content/dam/folder"%string eq_refl).
Defined.

End CreateAssetPath.

(** ** The context path of the DAM share *)

Section ContextPath.

Import DAMContent.

(** The first occurrence of a string cuts the text in two: what is before
    it, of the length of the position, and a rest that begins with the
    string. *)
Lemma index_split (s1 s2 : string) :
  forall m, String.index 0 s1 s2 = Some m ->
    exists rest,
      s2 = (String.substring 0 m s2 ++ rest)%string
      /\ String.prefix s1 rest = true
      /\ String.length (String.substring 0 m s2) = m.
Proof.
  induction s2 as [|b s2 IH]; intros m Hm.
  - simpl in Hm. destruct s1; [|discriminate]. injection Hm as <-.
    exists EmptyString. auto.
  - cbn [String.index] in Hm.
    destruct (String.prefix s1 (String b s2)) eqn:Hp.
    + injection Hm as <-. exists (String b s2). auto.
    + destruct (String.index 0 s1 s2) as [n|]; [|discriminate]. injection Hm as <-.
      destruct (IH n eq_refl) as (rest & Hs & Hr & Hl).
      exists rest. cbn [String.substring String.append String.length].
      split; [|split; [exact Hr|now rewrite Hl]].
      change (String b s2 = String b (String.substring 0 n s2 ++ rest)%string).
      now f_equal.
Qed.

(** X23. The constructor of [DAMShare] makes the context path the text of
    [config.path] before the first occurrence of the DAM root path: the path
    is the context path followed by a rest that begins with the root path.
    The context path is empty when the path begins with the root path or
    does not have it at all, and when no path is configured; in that last
    case the path of the configuration is set to the root path. *)
Theorem X23_context_path_is_the_prefix :
  forall (DAM_ROOT_PATH : string) (configPath : option string),
    let path := fst (constructDAMShare DAM_ROOT_PATH configPath) in
    let contextPath := snd (constructDAMShare DAM_ROOT_PATH configPath) in
    (contextPath <> EmptyString ->
     configPath = Some path
     /\ String.index 0 DAM_ROOT_PATH path = Some (String.length contextPath)
     /\ exists rest, path = (contextPath ++ rest)%string
                     /\ String.prefix DAM_ROOT_PATH rest = true)
    /\ (forall p, configPath = Some p -> p <> EmptyString ->
                  path = p
                  /\ (String.index 0 DAM_ROOT_PATH p = None
                      \/ String.index 0 DAM_ROOT_PATH p = Some 0%nat ->
                      contextPath = EmptyString))
    /\ (configPath = None \/ configPath = Some EmptyString ->
        path = DAM_ROOT_PATH /\ contextPath = EmptyString).
Proof.
  intros root configPath path contextPath. subst path contextPath.
  unfold constructDAMShare.
  destruct configPath as [[|c p]|]; cbv beta iota zeta.
  - cbn [fst snd]. split; [congruence|]. split; [congruence|auto].
  - destruct (String.index 0 root (String c p)) as [[|n]|] eqn:Hi; cbn [fst snd].
    + split; [congruence|]. split; [|intros [H|H]; discriminate].
      intros q [= <-] _. split; [reflexivity|]. auto.
    + destruct (index_split root (String c p) (S n) Hi) as (rest & Hs & Hr & Hl).
      split; [|split; [|intros [H|H]; discriminate]].
      * intros _. split; [reflexivity|]. rewrite Hl. split; [exact Hi|].
        exists rest. auto.
      * intros q [= <-] _. split; [reflexivity|]. intros [H|H]; congruence.
    + split; [congruence|]. split; [|intros [H|H]; discriminate].
      intros q [= <-] _. split; [reflexivity|]. auto.
  - cbn [fst snd]. split; [congruence|]. split; [intros p Hp; discriminate|auto].
Qed.

End ContextPath.

Lemma X23_context_path_is_the_prefix_witness :
  snd (DAMContent.constructDAMShare "/content/dam" (Some "/ctx/content/dam/site"%string))
  <> EmptyString
  /\ snd (DAMContent.constructDAMShare "/content/dam" (Some "/ctx/content/dam/site"%string))
     = "/ctx"%string
  /\ exists rest,
       "/ctx/content/dam/site"%string = ("/ctx" ++ rest)%string
       /\ String.prefix "/content/dam" rest = true.
Proof.
  assert (Hne : snd (DAMContent.constructDAMShare "/content/dam"
                       (Some "/ctx/content/dam/site"%string)) <> EmptyString)
    by (vm_compute; discriminate).
  split; [exact Hne|]. split; [reflexivity|].
  exact (proj2 (proj2 (proj1 (X23_context_path_is_the_prefix "/content/dam"
                                (Some "/ctx/content/dam/site"%string)) Hne))).
Defined.

(** ** The default operations of the tree of the SPI *)

Section DefaultTree.

Import SPITree.

Context {A R : Type}.

Variable t : Tree A R.

(** X20. An operation of which the tree defines neither the plain nor the
    extended version answers [STATUS_NOT_IMPLEMENTED], whichever version is
    called and whatever the label of the context: the two defaults call each
    other at most twice and never go round, the plain one labelling the
    context it makes and the extended one stopping at that label. *)
Theorem X20_default_operations_end :
  forall (op : Operation) (context : Context) (args : A) (fuel : nat),
    plainImpl t op = None ->
    extImpl t op = None ->
    (2 <= fuel)%nat ->
    invoke fuel t (Plain op args) = Some NotImplemented
    /\ invoke fuel t (Ext op context args) = Some NotImplemented.
Proof.
  intros op context args fuel Hp He Hfuel.
  destruct fuel as [|[|fuel]]; [lia|lia|].
  split.
  - simpl. rewrite Hp. destruct fuel; simpl; now rewrite He, String.eqb_refl.
  - simpl. rewrite Hp, He.
    destruct (String.eqb (label context) (labelOf op)); [reflexivity|].
    destruct fuel; simpl; now rewrite He, String.eqb_refl.
Qed.

(** X21. A tree that defines one version of an operation answers the
    calls of the other through it. With the plain version only (a tree
    written before the extended operations), the extended call gives the
    answer of the plain version on the same arguments, the context being
    dropped; but when the context carries the label that the plain default
    uses for the operation, the answer is [STATUS_NOT_IMPLEMENTED] although
    the plain version is there. With the extended version only, the plain
    call gives its answer in a context without request that carries the
    label of the operation. A version that the tree defines is the one that
    answers its own calls. *)
Theorem X21_one_version_serves_both :
  forall (op : Operation) (context : Context) (args : A) (fuel : nat),
    (forall f, plainImpl t op = Some f ->
               invoke fuel t (Plain op args) = Some (Answered (f args))
               /\ (extImpl t op = None -> (1 <= fuel)%nat ->
                   invoke fuel t (Ext op context args)
                   = Some (if String.eqb (label context) (labelOf op) then NotImplemented
                           else Answered (f args))))
    /\ (forall g, extImpl t op = Some g ->
                  invoke fuel t (Ext op context args) = Some (Answered (g context args))
                  /\ (plainImpl t op = None -> (1 <= fuel)%nat ->
                      invoke fuel t (Plain op args)
                      = Some (Answered (g (labelled (labelOf op)) args)))).
Proof.
  intros op context args fuel. split.
  - intros f Hp. split.
    + destruct fuel; simpl; now rewrite Hp.
    + intros He Hfuel. destruct fuel as [|fuel]; [lia|]. simpl. rewrite He.
      destruct (String.eqb (label context) (labelOf op)); [reflexivity|].
      destruct fuel; simpl; now rewrite Hp.
  - intros g He. split.
    + destruct fuel; simpl; now rewrite He.
    + intros Hp Hfuel. destruct fuel as [|fuel]; [lia|]. simpl. rewrite Hp.
      destruct fuel; simpl; now rewrite He.
Qed.

End DefaultTree.

Lemma X20_default_operations_end_witness :
  (2 <= 2)%nat
  /\ SPITree.invoke 2 MoreExamples.default_tree
       (SPITree.Ext SPITree.Exists (SPITree.mkContext "SMB.Request" false) "/a.txt")
     = Some SPITree.NotImplemented.
Proof.
  split; [lia|].
  exact (proj2 (X20_default_operations_end MoreExamples.default_tree SPITree.Exists
                  (SPITree.mkContext "SMB.Request" false) "/a.txt" 2 eq_refl eq_refl
                  ltac:(lia))).
Defined.

Lemma X21_one_version_serves_both_witness :
  SPITree.invoke 1 MoreExamples.plain_tree
    (SPITree.Ext SPITree.Exists (SPITree.mkContext "SMB.Request" false) "/a.txt")
  = Some (SPITree.Answered true)
  /\ SPITree.invoke 1 MoreExamples.plain_tree
       (SPITree.Ext SPITree.Exists (SPITree.labelled "SPITree.Exists") "/a.txt")
     = Some SPITree.NotImplemented
  /\ SPITree.invoke 1 MoreExamples.ext_tree (SPITree.Plain SPITree.Exists "/a.txt")
     = Some (SPITree.Answered true).
Proof.
  split; [|split].
  - exact (proj2 (proj1 (X21_one_version_serves_both MoreExamples.plain_tree SPITree.Exists
                           (SPITree.mkContext "SMB.Request" false) "/a.txt" 1)
                    _ eq_refl) eq_refl ltac:(lia)).
  - exact (proj2 (proj1 (X21_one_version_serves_both MoreExamples.plain_tree SPITree.Exists
                           (SPITree.labelled "SPITree.Exists") "/a.txt" 1)
                    _ eq_refl) eq_refl ltac:(lia)).
  - exact (proj2 (proj2 (X21_one_version_serves_both MoreExamples.ext_tree SPITree.Exists
                           (SPITree.labelled "") "/a.txt" 1)
                    _ eq_refl) eq_refl ltac:(lia)).
Defined.
